(** * NotebookLM automation: the coordination layer of [notebooklm_cli/cli.py]

    A shallow embedding of the parts of [cli.py] that coordinate automation
    sessions: the host-wide lock, the notebook-to-instance resolver, the
    per-instance profile bootstrap, the selector fallback chains, the search
    state detection and clearing, and the polling loop that decides when a
    chat answer has finished streaming.

    Conventions.
    - A Python [str] is a sequence of code points ([pystr]), lone
      surrogates included; [len], [==], [in], [strip] work on code points as
      they do in Python.  The selectors and the state names, constants that
      the program only passes on or compares, are kept as Rocq strings.
    - A Python [float] is the rational number it stands for; subtraction
      rounds to the nearest binary64 number.
    - A call that can raise returns a [result]; [Error] stands for any
      exception derived from [Exception] (Playwright errors, [OSError]),
      [Interrupt] for one that is only a [BaseException]
      ([KeyboardInterrupt]).  [except Exception] catches the first kind, a
      bare [except:] both.
    - Console output ([print]) and screenshots are not modelled. *)

From Stdlib Require Import ZArith NArith QArith Qround Qpower Lqa Lia ZifyBool Bool List String Ascii Eqdep_dec.
From stdpp Require Import gmap strings list fin_maps.
Import ListNotations.

(** ** Python values *)

Module Py.

Inductive exn := Error | Interrupt.

Inductive result (A : Type) : Type :=
| Ok (a : A)
| Raise (e : exn).
Arguments Ok {A} a.
Arguments Raise {A} e.

Definition bind {A B} (r : result A) (k : A -> result B) : result B :=
  match r with
  | Ok a => k a
  | Raise e => Raise e
  end.

(** [try: body / except Exception: handler] *)
Definition except_Exception {A} (body : result A) (handler : A) : result A :=
  match body with
  | Raise Error => Ok handler
  | other => other
  end.

(** [try: body / except: handler] *)
Definition except_all {A} (body : result A) (handler : A) : A :=
  match body with
  | Ok a => a
  | Raise _ => handler
  end.

(** Code points: the characters of a [str].  The surrogates U+D800 to
    U+DFFF are code points too; a [str] made from bytes that could not be
    decoded, as the arguments of the command line are, holds them. *)
Definition is_code_point (n : N) : bool := (n <? 0x110000)%N.

(** Unicode scalar values: the code points that are not surrogates, which
    are the ones UTF-8 encodes. *)
Definition is_scalar_value (n : N) : bool :=
  ((n <? 0xD800) || ((0xDFFF <? n) && (n <? 0x110000)))%N.

Record uchar := UChar { code : N; code_ok : is_code_point code = true }.

Definition pystr := list uchar.

(** The character with code point [n] (U+FFFD when [n] is not one). *)
Definition uc_checked (n : N) (b : bool) : is_code_point n = b -> uchar :=
  match b with
  | true => fun H => UChar n H
  | false => fun _ => UChar 0xFFFD eq_refl
  end.

Definition uc (n : N) : uchar := uc_checked n (is_code_point n) eq_refl.

(** An ASCII literal as a [str]. *)
Definition lit (s : string) : pystr :=
  map (fun a => uc (N_of_ascii a)) (list_ascii_of_string s).

Definition uchar_eqb (a b : uchar) : bool := (code a =? code b)%N.

Fixpoint pystr_eqb (s t : pystr) : bool :=
  match s, t with
  | [], [] => true
  | a :: s', b :: t' => uchar_eqb a b && pystr_eqb s' t'
  | _, _ => false
  end.

(** [str.isspace] of one character, which is also the class [\s] of [re]
    on [str] patterns and the set [str.strip()] removes. *)
Definition isspace (c : N) : bool :=
  (((0x09 <=? c) && (c <=? 0x0D)) || ((0x1C <=? c) && (c <=? 0x20))
   || (c =? 0x85) || (c =? 0xA0) || (c =? 0x1680)
   || ((0x2000 <=? c) && (c <=? 0x200A))
   || (c =? 0x2028) || (c =? 0x2029) || (c =? 0x202F) || (c =? 0x205F)
   || (c =? 0x3000))%N.

(** The zero digit of every run of ten decimal digits (general category Nd,
    Unicode 14.0 as shipped with CPython 3.11). *)
Definition decimal_zeros : list N :=
  [0x30; 0x660; 0x6f0; 0x7c0; 0x966; 0x9e6; 0xa66; 0xae6; 0xb66; 0xbe6;
   0xc66; 0xce6; 0xd66; 0xde6; 0xe50; 0xed0; 0xf20; 0x1040; 0x1090; 0x17e0;
   0x1810; 0x1946; 0x19d0; 0x1a80; 0x1a90; 0x1b50; 0x1bb0; 0x1c40; 0x1c50;
   0xa620; 0xa8d0; 0xa900; 0xa9d0; 0xa9f0; 0xaa50; 0xabf0; 0xff10; 0x104a0;
   0x10d30; 0x11066; 0x110f0; 0x11136; 0x111d0; 0x112f0; 0x11450; 0x114d0;
   0x11650; 0x116c0; 0x11730; 0x118e0; 0x11950; 0x11c50; 0x11d50; 0x11da0;
   0x16a60; 0x16ac0; 0x16b50; 0x1d7ce; 0x1d7d8; 0x1d7e2; 0x1d7ec; 0x1d7f6;
   0x1e140; 0x1e2f0; 0x1e950; 0x1fbf0]%N.

(** The class [\d] of [re] on [str] patterns ([str.isdecimal]). *)
Definition isdecimal (c : N) : bool :=
  existsb (fun z => (z <=? c) && (c <? z + 10))%N decimal_zeros.

Fixpoint lstrip (s : pystr) : pystr :=
  match s with
  | c :: s' => if isspace (code c) then lstrip s' else s
  | [] => []
  end.

Definition rstrip (s : pystr) : pystr := rev (lstrip (rev s)).

Definition strip (s : pystr) : pystr := rstrip (lstrip s).

Fixpoint startswith (p s : pystr) : bool :=
  match p, s with
  | [], _ => true
  | a :: p', b :: s' => uchar_eqb a b && startswith p' s'
  | _ :: _, [] => false
  end.

(** [needle in hay] *)
Fixpoint contains (needle hay : pystr) : bool :=
  startswith needle hay
  || match hay with
     | [] => false
     | _ :: hay' => contains needle hay'
     end.

(** The UTF-8 bytes of a scalar value. *)
Definition utf8_char (c : N) : list N :=
  (if c <? 0x80 then [c]
   else if c <? 0x800 then
     [N.lor 0xC0 (N.shiftr c 6); N.lor 0x80 (N.land c 0x3F)]
   else if c <? 0x10000 then
     [N.lor 0xE0 (N.shiftr c 12); N.lor 0x80 (N.land (N.shiftr c 6) 0x3F);
      N.lor 0x80 (N.land c 0x3F)]
   else
     [N.lor 0xF0 (N.shiftr c 18); N.lor 0x80 (N.land (N.shiftr c 12) 0x3F);
      N.lor 0x80 (N.land (N.shiftr c 6) 0x3F); N.lor 0x80 (N.land c 0x3F)])%N.

(** [s.encode()]: UTF-8, with [UnicodeEncodeError] on a surrogate. *)
Fixpoint encode (s : pystr) : result (list N) :=
  match s with
  | [] => Ok []
  | u :: s' =>
      if is_scalar_value (code u) then
        bind (encode s') (fun rest => Ok (utf8_char (code u) ++ rest))
      else Raise Error
  end.

(** *** Properties of the string primitives *)

Lemma code_uc_checked n b (H : is_code_point n = b) :
  code (uc_checked n b H) = if b then n else 0xFFFD%N.
Proof. destruct b; reflexivity. Qed.

Lemma code_uc n : is_code_point n = true -> code (uc n) = n.
Proof. intros H. unfold uc. rewrite code_uc_checked, H. reflexivity. Qed.

Lemma separator_not_decimal c :
  isspace c = true \/ c = 0x2E%N -> isdecimal c = false.
Proof.
  intros H. unfold isdecimal.
  assert (Hall : Forall (fun z => ((z <=? c) && (c <? z + 10))%N = false)
                        decimal_zeros).
  { unfold isspace in H. unfold decimal_zeros.
    repeat (constructor; [lia|]). constructor. }
  induction Hall as [|z l Hz _ IH]; simpl; [reflexivity|].
  rewrite Hz. exact IH.
Qed.

Lemma uchar_ext (a b : uchar) : code a = code b -> a = b.
Proof.
  destruct a as [x Hx], b as [y Hy]. simpl. intros ->.
  f_equal. apply UIP_dec, Bool.bool_dec.
Qed.

Lemma uchar_eqb_eq a b : uchar_eqb a b = true <-> a = b.
Proof.
  unfold uchar_eqb. rewrite N.eqb_eq. split; [apply uchar_ext|congruence].
Qed.

Lemma pystr_eqb_eq s t : pystr_eqb s t = true <-> s = t.
Proof.
  revert t. induction s as [|a s IH]; intros [|b t]; simpl; try (split; congruence).
  rewrite andb_true_iff, uchar_eqb_eq, IH. split; [intros [-> ->]; reflexivity|].
  intros [= -> ->]. auto.
Qed.

Lemma pystr_eqb_refl s : pystr_eqb s s = true.
Proof. apply pystr_eqb_eq. reflexivity. Qed.

Lemma pystr_eqb_neq s t : pystr_eqb s t = false <-> s <> t.
Proof.
  rewrite <- pystr_eqb_eq. destruct (pystr_eqb s t); split; congruence.
Qed.

End Py.

Import Py.

Notation "'let?' x ':=' r 'in' k" := (Py.bind r (fun x => k))
  (at level 10, x name, r at level 100, k at level 200).

(** ** Python floats *)

Module PyFloat.

Local Open Scope Q_scope.

(** [floor(log2 a)] for a positive rational [a]. *)
Definition floor_log2 (a : Q) : Z :=
  let e0 := (Z.log2 (Qnum a) - Z.log2 (Zpos (Qden a)))%Z in
  if Qle_bool (2 ^ e0) a then e0 else (e0 - 1)%Z.

(** The integer nearest to [y], the even one of two that are as near. *)
Definition round_half_even (y : Q) : Z :=
  let f := Qfloor y in
  let d := y - inject_Z f in
  if Qle_bool d (1 # 2) then
    if Qle_bool (1 # 2) d then (if Z.even f then f else f + 1)%Z else f
  else (f + 1)%Z.

(** The binary64 number nearest to the positive rational [a] (round to
    nearest, ties to even): a multiple of [2 ^ (e - 52)] where [e] is the
    exponent of [a], not below that of the subnormal numbers.  Overflow to
    infinity is left out: the numbers rounded here are differences of
    clock readings. *)
Definition round_positive (a : Q) : Q :=
  let e := Z.max (floor_log2 a) (-1022) in
  let quantum := 2 ^ (e - 52) in
  inject_Z (round_half_even (a / quantum)) * quantum.

Definition float_round (x : Q) : Q :=
  if Qle_bool x 0 then
    if Qle_bool 0 x then 0 else - round_positive (- x)
  else round_positive x.

(** [a - b] on two floats. *)
Definition float_sub (a b : Q) : Q := float_round (a - b).

(** *** Properties *)

Lemma floor_log2_le a : 0 < a -> 2 ^ floor_log2 a <= a.
Proof.
  intros Ha. unfold floor_log2.
  destruct (Qle_bool _ a) eqn:Hle; [apply Qle_bool_iff, Hle|].
  clear Hle. destruct a as [n d]. cbn [Qnum Qden].
  assert (Hn : (0 < n)%Z) by (unfold Qlt in Ha; cbn in Ha; lia).
  set (A := Z.log2 n). set (B := Z.log2 (Z.pos d)).
  assert (HA : (0 <= A)%Z) by apply Z.log2_nonneg.
  assert (HB : (0 <= B)%Z) by apply Z.log2_nonneg.
  destruct (Z.log2_spec n Hn) as [HnA _]. fold A in HnA.
  destruct (Z.log2_spec (Z.pos d) eq_refl) as [_ HdB]. fold B in HdB.
  replace (A - B - 1)%Z with (A - (B + 1))%Z by lia.
  rewrite Qpower_minus by discriminate.
  change 2 with (inject_Z 2).
  rewrite <- !Zpower_Qpower by lia.
  rewrite (Qmake_Qdiv n d).
  assert (H1 : 0 < inject_Z (2 ^ (Z.succ B))).
  { change 0 with (inject_Z 0). rewrite <- Zlt_Qlt. lia. }
  assert (H2 : 0 < inject_Z (Z.pos d)).
  { change 0 with (inject_Z 0). rewrite <- Zlt_Qlt. lia. }
  replace (B + 1)%Z with (Z.succ B) by lia.
  apply Qle_shift_div_r; [exact H1|].
  unfold Qdiv. rewrite <- Qmult_assoc, (Qmult_comm (/ _)), Qmult_assoc.
  apply Qle_shift_div_l; [exact H2|].
  rewrite <- !inject_Z_mult, <- Zle_Qle. nia.
Qed.

Lemma round_half_even_lower y : y - (1 # 2) <= inject_Z (round_half_even y).
Proof.
  unfold round_half_even. pose proof (Qfloor_le y) as Hf.
  pose proof (Qlt_floor y) as Hlt. rewrite inject_Z_plus in Hlt.
  change (inject_Z 1) with 1 in Hlt.
  destruct (Qle_bool (y - inject_Z (Qfloor y)) (1 # 2)) eqn:H1.
  - apply Qle_bool_iff in H1.
    destruct (Qle_bool (1 # 2) _); [destruct (Z.even _)|];
      rewrite ?inject_Z_plus; change (inject_Z 1) with 1; lra.
  - rewrite inject_Z_plus. change (inject_Z 1) with 1. lra.
Qed.

Lemma round_half_even_nonneg y : 0 <= y -> (0 <= round_half_even y)%Z.
Proof.
  intros Hy. assert (Hf : (0 <= Qfloor y)%Z).
  { change 0%Z with (Qfloor 0). apply Qfloor_resp_le, Hy. }
  unfold round_half_even.
  destruct (Qle_bool _ (1 # 2)); [destruct (Qle_bool (1 # 2) _);
    [destruct (Z.even _)|]|]; lia.
Qed.

Lemma round_positive_nonneg a : 0 < a -> 0 <= round_positive a.
Proof.
  intros Ha. unfold round_positive.
  set (q := 2 ^ (Z.max (floor_log2 a) (-1022) - 52)).
  assert (Hq : 0 < q) by (apply Qpower_0_lt; reflexivity).
  apply Qmult_le_0_compat; [|apply Qlt_le_weak, Hq].
  change 0 with (inject_Z 0). rewrite <- Zle_Qle.
  apply round_half_even_nonneg. apply Qle_shift_div_l; [exact Hq|]. lra.
Qed.

(** Rounding keeps the sign. *)
Lemma float_round_nonneg x : 0 <= x -> 0 <= float_round x.
Proof.
  intros Hx. unfold float_round.
  destruct (Qle_bool x 0) eqn:H0.
  - assert (Hb : Qle_bool 0 x = true) by (apply Qle_bool_iff, Hx).
    rewrite Hb. lra.
  - apply round_positive_nonneg. apply Qnot_le_lt. intros Hc.
    apply Qle_bool_iff in Hc. congruence.
Qed.

(** From 1 on, rounding takes away less than half. *)
Lemma float_round_half x : 1 <= x -> x / 2 <= float_round x.
Proof.
  intros Hx. unfold float_round.
  destruct (Qle_bool x 0) eqn:H0; [apply Qle_bool_iff in H0; lra|].
  unfold round_positive.
  set (q := 2 ^ (Z.max (floor_log2 x) (-1022) - 52)).
  assert (Hq : 0 < q) by (apply Qpower_0_lt; reflexivity).
  assert (Hqx : q <= x).
  { unfold q. destruct (Z.max_spec (floor_log2 x) (-1022)) as [[_ ->]|[_ ->]].
    - apply Qle_trans with 1; [|exact Hx]. vm_compute. discriminate.
    - apply Qle_trans with (2 ^ floor_log2 x); [|apply floor_log2_le; lra].
      apply Qpower_le_compat_l; [lia|discriminate]. }
  pose proof (round_half_even_lower (x / q)) as Hm.
  assert (Hmq : (x / q - (1 # 2)) * q <= inject_Z (round_half_even (x / q)) * q).
  { apply Qmult_le_compat_r; [exact Hm|lra]. }
  assert (Hdiv : x / q * q == x) by (field; lra).
  assert (Hexp : (x / q - (1 # 2)) * q == x / q * q - (1 # 2) * q) by ring.
  rewrite Hexp, Hdiv in Hmq.
  assert (Hhalf : x / 2 == (1 # 2) * x) by field.
  rewrite Hhalf. lra.
Qed.

(** The binary64 numbers written 0.1, 0.4 and 0.30000000000000004. *)
Definition double_0_1 : Q := 3602879701896397 # 36028797018963968.
Definition double_0_4 : Q := 3602879701896397 # 9007199254740992.
Definition double_0_30000000000000004 : Q := 1351079888211149 # 4503599627370496.

(** [0.4 - 0.1] is [0.30000000000000004] on floats, a little more than the
    difference of the two numbers. *)
Example float_sub_rounds :
  Qeq_bool (float_sub double_0_4 double_0_1) double_0_30000000000000004 = true /\
  Qle_bool double_0_30000000000000004 (double_0_4 - double_0_1) = false.
Proof. vm_compute. split; reflexivity. Qed.

(** Differences that are binary64 numbers are exact; small and negative
    ones too. *)
Example float_sub_exact :
  Qeq_bool (float_sub 6 0) 6 = true /\
  Qeq_bool (float_sub (3 # 2) (7 # 4)) (- (1 # 4)) = true /\
  Qeq_bool (float_sub (5 # 4) (5 # 4)) 0 = true.
Proof. vm_compute. repeat split; reflexivity. Qed.

End PyFloat.

(** ** Lock manager: [_acquire_lock] *)

Module Lock.

Import PyFloat.

(** What the process sees of the rest of the host while it polls:
    [others_hold k] tells whether another open file description holds the
    lock on [/tmp/nlm_global.lock] at the [k]-th call of [fcntl.flock]
    (calls counted from 0), in which case [LOCK_EX | LOCK_NB] raises
    [OSError]; [time_time j] is the float the [j]-th call of [time.time()]
    returns.  The timeout is the number the caller passes, an [int] or a
    [float]; Python compares it with the float [elapsed] by value.  The
    lock file is taken to be open already. *)
Record World := {
  others_hold : nat -> bool;
  time_time : nat -> Q
}.

Inductive outcome :=
| Returned (attempt : nat) (sleeps : list Q)
| Exited (status : Z) (attempt : nat) (sleeps : list Q)
| Running.

(** The [while True] loop, entered for the [k]-th attempt; [sleeps] are the
    arguments of the [time.sleep] calls made so far. *)
Fixpoint poll (w : World) (timeout start_time : Q) (k : nat)
    (sleeps : list Q) (fuel : nat) : outcome :=
  match fuel with
  | O => Running
  | S fuel' =>
      if others_hold w k then
        let elapsed := float_sub (time_time w (S k)) start_time in
        if Qle_bool timeout elapsed then Exited 1 k sleeps
        else poll w timeout start_time (S k) (sleeps ++ [2%Q]) fuel'
      else Returned k sleeps
  end.

Definition _acquire_lock (w : World) (timeout : Q) (fuel : nat) : outcome :=
  poll w timeout (time_time w 0) 0 [] fuel.

(** [time.sleep(2)] suspends for at least two seconds and the clock does not
    run backwards between the first two readings. *)
Definition clock_advances (w : World) : Prop :=
  (time_time w 0 <= time_time w 1)%Q /\
  forall k, (time_time w (S k) + 2 <= time_time w (S (S k)))%Q.

(** The value of [elapsed] after the [k]-th attempt has failed: the float
    difference of two readings. *)
Definition elapsed (w : World) (k : nat) : Q :=
  float_sub (time_time w (S k)) (time_time w 0).

(** *** Properties *)

Lemma poll_sleeps w timeout start k sleeps fuel :
  sleeps = repeat 2%Q k ->
  match poll w timeout start k sleeps fuel with
  | Returned k' sl | Exited _ k' sl => sl = repeat 2%Q k'
  | Running => True
  end.
Proof.
  revert k sleeps. induction fuel as [|fuel IH]; intros k sleeps Hs; simpl; [exact I|].
  destruct (others_hold w k); [|exact Hs].
  destruct (Qle_bool _ _); [exact Hs|].
  apply IH. subst sleeps. change (S k) with (1 + k)%nat.
  rewrite Nat.add_comm, repeat_app. reflexivity.
Qed.

Lemma poll_safe w timeout k sleeps fuel :
  (forall j, (j < k)%nat -> others_hold w j = true) ->
  (forall j, (j < k)%nat -> (elapsed w j < timeout)%Q) ->
  match poll w timeout (time_time w 0) k sleeps fuel with
  | Returned k' _ =>
      others_hold w k' = false /\
      (forall j, (j < k')%nat -> others_hold w j = true)
  | Exited status k' _ =>
      status = 1%Z /\
      (timeout <= elapsed w k')%Q /\
      (forall j, (j <= k')%nat -> others_hold w j = true) /\
      (forall j, (j < k')%nat -> (elapsed w j < timeout)%Q)
  | Running => True
  end.
Proof.
  revert k sleeps. induction fuel as [|fuel IH]; intros k sleeps Hheld Hearly; simpl; [exact I|].
  destruct (others_hold w k) eqn:Hk; [|auto].
  assert (Hheld' : forall j, (j <= k)%nat -> others_hold w j = true).
  { intros j Hj. destruct (Nat.eq_dec j k) as [->|]; [exact Hk|apply Hheld; lia]. }
  destruct (Qle_bool timeout _) eqn:Hle.
  - apply Qle_bool_iff in Hle. auto.
  - apply IH.
    + intros j Hj. apply Hheld'. lia.
    + intros j Hj. destruct (Nat.eq_dec j k) as [->|]; [|apply Hearly; lia].
      apply Qnot_le_lt. intros Hc. apply Qle_bool_iff in Hc.
      unfold elapsed in Hc. congruence.
Qed.

(** The readings are at least two seconds apart from the second on. *)
Lemma readings_lower w k :
  clock_advances w ->
  (inject_Z (2 * Z.of_nat k) <= time_time w (S k) - time_time w 0)%Q.
Proof.
  intros [H0 Hstep]. induction k as [|k IH].
  - change (inject_Z (2 * Z.of_nat 0)) with 0%Q. lra.
  - specialize (Hstep k).
    rewrite Nat2Z.inj_succ, Z.mul_succ_r, inject_Z_plus.
    change (inject_Z 2) with 2%Q. lra.
Qed.

(** Rounded, the difference is still at least one second per sleep. *)
Lemma elapsed_lower w k :
  clock_advances w -> (inject_Z (Z.of_nat k) <= elapsed w k)%Q.
Proof.
  intros Hclock. pose proof (readings_lower w k Hclock) as Hx.
  unfold elapsed, float_sub.
  set (x := (time_time w (S k) - time_time w 0)%Q) in *.
  rewrite inject_Z_mult in Hx. change (inject_Z 2) with 2%Q in Hx.
  destruct k as [|k].
  - change (inject_Z (Z.of_nat 0)) with 0%Q in *.
    apply float_round_nonneg. lra.
  - assert (H1 : (1 <= inject_Z (Z.of_nat (S k)))%Q).
    { change 1%Q with (inject_Z 1). rewrite <- Zle_Qle. lia. }
    assert (Hx1 : (1 <= x)%Q) by lra.
    pose proof (float_round_half x Hx1) as Hhalf.
    assert (Hdiv : (x / 2 == (1 # 2) * x)%Q) by field.
    rewrite Hdiv in Hhalf. lra.
Qed.

Lemma poll_terminates w timeout k sleeps fuel :
  clock_advances w ->
  (timeout <= inject_Z (Z.of_nat (k + fuel)))%Q ->
  poll w timeout (time_time w 0) k sleeps (S fuel) <> Running.
Proof.
  intros Hclock. revert k sleeps.
  induction fuel as [|fuel IH]; intros k sleeps Hbound.
  - simpl. destruct (others_hold w k); [|discriminate].
    destruct (Qle_bool timeout _) eqn:Hle; [discriminate|].
    exfalso.
    assert (Hc : Qle_bool timeout (float_sub (time_time w (S k)) (time_time w 0)) = true);
      [|congruence].
    apply Qle_bool_iff. rewrite Nat.add_0_r in Hbound.
    pose proof (elapsed_lower w k Hclock) as He. unfold elapsed in He. lra.
  - cbn [poll]. destruct (others_hold w k); [|discriminate].
    destruct (Qle_bool timeout _); [discriminate|].
    apply IH. replace (S k + fuel)%nat with (k + S fuel)%nat by lia. exact Hbound.
Qed.

(** C1. For every timeout [t], [_acquire_lock] retries [flock] with a
    [sleep(2)] between two attempts and ends in one of two ways only: it
    returns right after an attempt at which no other process held the lock
    (so the caller owns it exclusively), or it ends the process with status 1
    after an attempt that failed with [elapsed], the float difference of the
    clock readings, at least [t], every attempt having failed and no
    earlier value of [elapsed] having reached [t].  It never returns without
    the lock.  With a clock that advances during [sleep], one of the two
    happens within [ceil(t) + 1] attempts. *)
Theorem acquire_lock_returns_locked_or_exits (w : World) (timeout : Q) :
  (forall fuel,
     match _acquire_lock w timeout fuel with
     | Returned k sleeps =>
         others_hold w k = false /\
         (forall j, (j < k)%nat -> others_hold w j = true) /\
         sleeps = repeat 2%Q k
     | Exited status k sleeps =>
         status = 1%Z /\ status <> 0%Z /\
         (timeout <= elapsed w k)%Q /\
         (forall j, (j <= k)%nat -> others_hold w j = true) /\
         (forall j, (j < k)%nat -> (elapsed w j < timeout)%Q) /\
         sleeps = repeat 2%Q k
     | Running => True
     end) /\
  (clock_advances w ->
   forall fuel, (Z.to_nat (Qceiling timeout) < fuel)%nat ->
     _acquire_lock w timeout fuel <> Running).
Proof.
  split.
  - intros fuel. unfold _acquire_lock.
    pose proof (poll_safe w timeout 0 [] fuel) as Hsafe.
    pose proof (poll_sleeps w timeout (time_time w 0) 0 [] fuel eq_refl) as Hsl.
    destruct (poll w timeout (time_time w 0) 0 [] fuel) as [k sl|st k sl|]; [| |exact I].
    + destruct Hsafe as [H1 H2]; [intros; lia..|]. auto.
    + destruct Hsafe as (H1 & H2 & H3 & H4); [intros; lia..|].
      subst st. repeat split; auto.
  - intros Hclock fuel Hfuel. unfold _acquire_lock.
    destruct fuel as [|fuel]; [lia|].
    apply poll_terminates; [exact Hclock|].
    apply Qle_trans with (inject_Z (Qceiling timeout)); [apply Qle_ceiling|].
    rewrite <- Zle_Qle. lia.
Qed.

(** The readings 0.1 and 0.4 with the timeout 0.30000000000000004: the
    first failed attempt ends the process, the float difference being the
    timeout itself, although the two readings are less than that apart. *)
Definition short_wait : World :=
  {| others_hold := fun _ => true;
     time_time := fun j => match j with
                           | O => double_0_1
                           | _ => double_0_4
                           end |}.

Example acquire_lock_compares_floats :
  _acquire_lock short_wait double_0_30000000000000004 5 = Exited 1 0 [] /\
  Qle_bool double_0_30000000000000004 (time_time short_wait 1 - time_time short_wait 0)
    = false.
Proof. vm_compute. split; reflexivity. Qed.

(** Another session holds the lock during the first three attempts; the
    fourth attempt, six seconds in, obtains it. *)
Definition busy_then_free : World :=
  {| others_hold := fun k => (k <? 3)%nat;
     time_time := fun j => inject_Z (2 * Z.of_nat (pred j)) |}.

Lemma acquire_lock_returns_locked_or_exits_witness :
  clock_advances busy_then_free /\
  _acquire_lock busy_then_free 30 31 = Returned 3 [2; 2; 2]%Q /\
  _acquire_lock busy_then_free 30 31 <> Running.
Proof.
  assert (Hclock : clock_advances busy_then_free).
  { split; [discriminate|]. intros k. unfold busy_then_free. cbn [time_time].
    rewrite <- (inject_Z_plus _ 2), <- Zle_Qle. lia. }
  split; [exact Hclock|]. split; [vm_compute; reflexivity|].
  apply (acquire_lock_returns_locked_or_exits busy_then_free 30); [exact Hclock|].
  vm_compute. lia.
Defined.

(** The lock stays held by another session: the process exits with status
    1 at the first failed attempt made 30 seconds or more after the start. *)
Definition always_busy : World :=
  {| others_hold := fun _ => true;
     time_time := fun j => inject_Z (2 * Z.of_nat (pred j)) |}.

Example acquire_lock_times_out :
  _acquire_lock always_busy 30 100 = Exited 1 15 (repeat 2%Q 15).
Proof. vm_compute. reflexivity. Qed.

End Lock.

(** ** Instance resolver: [notebook_to_instance] *)

Module Resolver.

(** *** [hashlib.md5] (RFC 1321) on a list of bytes *)

Definition mask32 (x : N) : N := (x mod 0x100000000)%N.
Definition add32 (x y : N) : N := mask32 (x + y).
Definition not32 (x : N) : N := N.lxor x 0xFFFFFFFF.
Definition rotl32 (x s : N) : N :=
  mask32 (N.lor (N.shiftl x s) (N.shiftr x (32 - s))).

Definition md5_shifts : list N :=
  [7; 12; 17; 22; 7; 12; 17; 22; 7; 12; 17; 22; 7; 12; 17; 22;
   5; 9; 14; 20; 5; 9; 14; 20; 5; 9; 14; 20; 5; 9; 14; 20;
   4; 11; 16; 23; 4; 11; 16; 23; 4; 11; 16; 23; 4; 11; 16; 23;
   6; 10; 15; 21; 6; 10; 15; 21; 6; 10; 15; 21; 6; 10; 15; 21]%N.

Definition md5_sines : list N :=
  [0xd76aa478; 0xe8c7b756; 0x242070db; 0xc1bdceee; 0xf57c0faf; 0x4787c62a;
   0xa8304613; 0xfd469501; 0x698098d8; 0x8b44f7af; 0xffff5bb1; 0x895cd7be;
   0x6b901122; 0xfd987193; 0xa679438e; 0x49b40821; 0xf61e2562; 0xc040b340;
   0x265e5a51; 0xe9b6c7aa; 0xd62f105d; 0x02441453; 0xd8a1e681; 0xe7d3fbc8;
   0x21e1cde6; 0xc33707d6; 0xf4d50d87; 0x455a14ed; 0xa9e3e905; 0xfcefa3f8;
   0x676f02d9; 0x8d2a4c8a; 0xfffa3942; 0x8771f681; 0x6d9d6122; 0xfde5380c;
   0xa4beea44; 0x4bdecfa9; 0xf6bb4b60; 0xbebfbc70; 0x289b7ec6; 0xeaa127fa;
   0xd4ef3085; 0x04881d05; 0xd9d4d039; 0xe6db99e5; 0x1fa27cf8; 0xc4ac5665;
   0xf4292244; 0x432aff97; 0xab9423a7; 0xfc93a039; 0x655b59c3; 0x8f0ccc92;
   0xffeff47d; 0x85845dd1; 0x6fa87e4f; 0xfe2ce6e0; 0xa3014314; 0x4e0811a1;
   0xf7537e82; 0xbd3af235; 0x2ad7d2bb; 0xeb86d391]%N.

(** Message padding: a 1 bit, zeros up to 56 mod 64 bytes, then the bit
    length as a 64-bit little-endian integer. *)
Definition le_bytes (width : nat) (x : N) : list N :=
  map (fun i => N.land (N.shiftr x (8 * N.of_nat i)) 0xFF) (seq 0 width).

Definition md5_pad (msg : list N) : list N :=
  let len := List.length msg in
  let zeros := ((64 + 55 - len mod 64) mod 64)%nat in
  msg ++ [0x80%N] ++ repeat 0%N zeros ++ le_bytes 8 (8 * N.of_nat len).

Definition le_word (bs : list N) : N :=
  fold_right (fun b acc => N.lor b (N.shiftl acc 8)) 0%N bs.

Definition md5_words (block : list N) : list N :=
  map (fun i => le_word (firstn 4 (skipn (4 * i) block))) (seq 0 16).

Record md5_state := { md5_a : N; md5_b : N; md5_c : N; md5_d : N }.

Definition md5_init : md5_state :=
  {| md5_a := 0x67452301; md5_b := 0xefcdab89;
     md5_c := 0x98badcfe; md5_d := 0x10325476 |}.

Definition md5_round (m : list N) (st : md5_state) (i : nat) : md5_state :=
  let '(Build_md5_state a b c d) := st in
  let '(f, g) :=
    if (i <? 16)%nat then (N.lor (N.land b c) (N.land (not32 b) d), i)
    else if (i <? 32)%nat then
      (N.lor (N.land d b) (N.land (not32 d) c), ((5 * i + 1) mod 16)%nat)
    else if (i <? 48)%nat then
      (N.lxor (N.lxor b c) d, ((3 * i + 5) mod 16)%nat)
    else (N.lxor c (N.lor b (not32 d)), ((7 * i) mod 16)%nat) in
  let f' := add32 (add32 (add32 f a) (nth i md5_sines 0%N)) (nth g m 0%N) in
  {| md5_a := d; md5_b := add32 b (rotl32 f' (nth i md5_shifts 0%N));
     md5_c := b; md5_d := c |}.

Definition md5_block (st : md5_state) (block : list N) : md5_state :=
  let r := fold_left (md5_round (md5_words block)) (seq 0 64) st in
  {| md5_a := add32 (md5_a st) (md5_a r); md5_b := add32 (md5_b st) (md5_b r);
     md5_c := add32 (md5_c st) (md5_c r); md5_d := add32 (md5_d st) (md5_d r) |}.

Definition md5_blocks (padded : list N) : list (list N) :=
  map (fun i => firstn 64 (skipn (64 * i) padded))
      (seq 0 (List.length padded / 64)).

(** [hashlib.md5(msg).digest()] *)
Definition md5 (msg : list N) : list N :=
  let st := fold_left md5_block (md5_blocks (md5_pad msg)) md5_init in
  le_bytes 4 (md5_a st) ++ le_bytes 4 (md5_b st)
  ++ le_bytes 4 (md5_c st) ++ le_bytes 4 (md5_d st).

Definition hex_digit (n : N) : uchar :=
  uc (if n <? 10 then 0x30 + n else 0x57 + n)%N.

(** [hashlib.md5(msg).hexdigest()] *)
Definition md5_hexdigest (msg : list N) : pystr :=
  flat_map (fun b => [hex_digit (N.shiftr b 4); hex_digit (N.land b 0xF)])
           (md5 msg).

(** *** [re.match(r'^(\d+)[.\s]', name)] *)

Definition is_digit (c : uchar) : bool := isdecimal (code c).

(** The class [[.\s]]. *)
Definition is_separator (c : uchar) : bool :=
  (code c =? 0x2E)%N || isspace (code c).

(** Group 1 of the match, if the pattern matches at the start of [s].
    [\d+] is greedy: it takes a further digit when the rest still matches,
    and otherwise stops where a separator follows. *)
Fixpoint match_numeric_prefix (s : pystr) : option pystr :=
  match s with
  | c :: s' =>
      if is_digit c then
        match match_numeric_prefix s' with
        | Some d => Some (c :: d)
        | None =>
            match s' with
            | x :: _ => if is_separator x then Some [c] else None
            | [] => None
            end
        end
      else None
  | [] => None
  end.

(** [hashlib.md5(s.encode()).hexdigest()] *)
Definition md5_hexdigest_of (s : pystr) : result pystr :=
  let? encoded := encode s in Ok (md5_hexdigest encoded).

Definition notebook_to_instance (notebook_name : pystr) : result pystr :=
  match match_numeric_prefix notebook_name with
  | Some group1 => Ok (lit "nb_" ++ group1)
  | None =>
      let? digest := md5_hexdigest_of notebook_name in
      let name_hash := firstn 8 digest in
      Ok (lit "nb_" ++ name_hash)
  end.

(** *** Properties *)

Example md5_empty :
  md5_hexdigest [] = lit "d41d8cd98f00b204e9800998ecf8427e".
Proof. vm_compute. reflexivity. Qed.

Example md5_abc :
  md5_hexdigest_of (lit "abc") = Ok (lit "900150983cd24fb0d6963f7d28e17f72").
Proof. vm_compute. reflexivity. Qed.

Example md5_two_blocks :
  md5_hexdigest_of (lit
    "12345678901234567890123456789012345678901234567890123456789012345678901234567890")
  = Ok (lit "57edf4a22be3c955ac49da2e2107b67a").
Proof. vm_compute. reflexivity. Qed.

Definition is_lower_hex (c : uchar) : bool :=
  (((0x30 <=? code c) && (code c <=? 0x39))
   || ((0x61 <=? code c) && (code c <=? 0x66)))%N.

(** [name] begins with the digits [d] followed by a separator. *)
Definition has_numeric_prefix (name d : pystr) : Prop :=
  d <> [] /\ Forall (fun c => is_digit c = true) d /\
  exists sep rest, name = d ++ sep :: rest /\ is_separator sep = true.

Lemma separator_not_digit sep : is_separator sep = true -> is_digit sep = false.
Proof.
  unfold is_separator, is_digit. intros H. apply separator_not_decimal.
  apply orb_true_iff in H. destruct H as [H|H]; [right|left; exact H].
  apply N.eqb_eq. exact H.
Qed.

Lemma match_numeric_prefix_complete name d :
  has_numeric_prefix name d -> match_numeric_prefix name = Some d.
Proof.
  intros (Hne & Hd & sep & rest & -> & Hsep).
  induction Hd as [|c d Hc Hd IH]; [congruence|].
  cbn [app match_numeric_prefix]. rewrite Hc.
  destruct d as [|c' d'].
  - cbn [app match_numeric_prefix].
    rewrite (separator_not_digit sep Hsep), Hsep. reflexivity.
  - rewrite IH by discriminate. reflexivity.
Qed.

Lemma match_numeric_prefix_sound name d :
  match_numeric_prefix name = Some d -> has_numeric_prefix name d.
Proof.
  revert d. induction name as [|c s IH]; intros d; [discriminate|].
  cbn [match_numeric_prefix]. destruct (is_digit c) eqn:Hc; [|discriminate].
  destruct (match_numeric_prefix s) as [d'|].
  - intros [= <-]. destruct (IH d' eq_refl) as (_ & Hd & sep & rest & -> & Hsep).
    split; [discriminate|]. split; [constructor; assumption|].
    exists sep, rest. split; [reflexivity|exact Hsep].
  - destruct s as [|x rest]; [discriminate|].
    destruct (is_separator x) eqn:Hx; [|discriminate].
    intros [= <-]. split; [discriminate|]. split; [repeat constructor; exact Hc|].
    exists x, rest. split; [reflexivity|exact Hx].
Qed.

Lemma le_bytes_length width x : List.length (le_bytes width x) = width.
Proof. unfold le_bytes. rewrite length_map, length_seq. reflexivity. Qed.

Lemma le_bytes_bound width x :
  Forall (fun b => (b < 256)%N) (le_bytes width x).
Proof.
  unfold le_bytes. apply Forall_map, Forall_forall. intros i _.
  change 0xFF%N with (N.ones 8). rewrite N.land_ones.
  apply N.mod_lt. discriminate.
Qed.

Lemma md5_length msg : List.length (md5 msg) = 16%nat.
Proof. unfold md5. rewrite !length_app, !le_bytes_length. reflexivity. Qed.

Lemma md5_bytes msg : Forall (fun b => (b < 256)%N) (md5 msg).
Proof. unfold md5. rewrite !Forall_app. repeat split; apply le_bytes_bound. Qed.

Lemma hex_digit_lower_hex n : (n < 16)%N -> is_lower_hex (hex_digit n) = true.
Proof.
  intros Hn. unfold is_lower_hex, hex_digit.
  destruct (n <? 10)%N eqn:Hlt;
    (rewrite code_uc by (unfold is_code_point; lia)); lia.
Qed.

Lemma md5_hexdigest_length msg : List.length (md5_hexdigest msg) = 32%nat.
Proof.
  unfold md5_hexdigest.
  assert (Hpairs : forall l : list N,
    List.length (flat_map (fun b =>
      [hex_digit (N.shiftr b 4); hex_digit (N.land b 0xF)]) l)
    = (2 * List.length l)%nat).
  { induction l as [|b l IH]; simpl; [reflexivity|]. rewrite IH. lia. }
  rewrite Hpairs, md5_length. reflexivity.
Qed.

Lemma md5_hexdigest_lower_hex msg :
  Forall (fun c => is_lower_hex c = true) (md5_hexdigest msg).
Proof.
  unfold md5_hexdigest. pose proof (md5_bytes msg) as Hb.
  induction Hb as [|b l Hlt _ IH]; simpl; [constructor|].
  constructor; [|constructor; [|exact IH]]; apply hex_digit_lower_hex.
  - rewrite N.shiftr_div_pow2. change (2 ^ 4)%N with 16%N.
    apply N.Div0.div_lt_upper_bound. lia.
  - change 0xF%N with (N.ones 4). rewrite N.land_ones.
    apply N.mod_lt. discriminate.
Qed.

(** [name] has a UTF-8 encoding: it holds no surrogate. *)
Definition encodable (name : pystr) : Prop :=
  Forall (fun c => is_scalar_value (code c) = true) name.

Lemma encode_encodable name :
  encodable name ->
  encode name = Ok (flat_map (fun c => utf8_char (code c)) name).
Proof.
  induction 1 as [|c name Hc _ IH]; cbn [encode flat_map]; [reflexivity|].
  rewrite Hc, IH. reflexivity.
Qed.

Lemma encode_not_encodable name :
  ~ encodable name -> encode name = Raise Error.
Proof.
  induction name as [|c name IH]; intros Hno; [destruct Hno; constructor|].
  cbn [encode]. destruct (is_scalar_value (code c)) eqn:Hc; [|reflexivity].
  rewrite IH; [reflexivity|]. intros Hname. apply Hno. constructor; assumption.
Qed.

Lemma encode_Ok_encodable name bytes :
  encode name = Ok bytes -> encodable name.
Proof.
  revert bytes. induction name as [|c name IH]; intros bytes; [constructor|].
  cbn [encode]. destruct (is_scalar_value (code c)) eqn:Hc; [|discriminate].
  destruct (encode name) as [rest|e]; [|discriminate].
  intros _. constructor; [exact Hc|apply (IH rest eq_refl)].
Qed.

(** The notebook name written with the three Chinese characters for
    "notebook" (U+7B14, U+8BB0, U+672C). *)
Definition name_in_chinese : pystr := [uc 0x7B14; uc 0x8BB0; uc 0x672C].

(** The first and the last code point that UTF-8 writes on one, two,
    three and four bytes. *)
Definition utf8_boundaries : pystr :=
  [uc 0x00; uc 0x7F; uc 0x80; uc 0x7FF; uc 0x800; uc 0xFFFF; uc 0x10000;
   uc 0x10FFFF].

(** C7, as the code has it.  [notebook_to_instance] returns ["nb_"]
    followed by the leading digits of the name when the name begins with
    one or more digits followed by a separator (a full stop or white
    space).  For every other name that has a UTF-8 encoding it returns
    ["nb_"] followed by the first 8 characters of the lowercase hexadecimal
    MD5 digest of the UTF-8 encoded name.  The digest is the MD5 of RFC 1321
    (its test suite is part of the statement) and the encoding is UTF-8 (the
    first and last code points of each length are).  ["01. Research Notes"]
    gives ["nb_01"]; ["Untitled Project"], which has no numeric prefix,
    gives the key ["nb_328776f6"], and a name in Chinese gives
    ["nb_1873eaa8"]. *)
Theorem notebook_to_instance_key (name : pystr) :
  (forall d, has_numeric_prefix name d ->
      notebook_to_instance name = Ok (lit "nb_" ++ d)) /\
  ((forall d, ~ has_numeric_prefix name d) -> encodable name ->
      exists digest h,
        md5_hexdigest_of name = Ok digest /\
        h = firstn 8 digest /\
        notebook_to_instance name = Ok (lit "nb_" ++ h) /\
        List.length h = 8%nat /\
        Forall (fun c => is_lower_hex c = true) h) /\
  ((exists d, has_numeric_prefix name d) \/ (forall d, ~ has_numeric_prefix name d)) /\
  (notebook_to_instance (lit "01. Research Notes") = Ok (lit "nb_01") /\
   notebook_to_instance (lit "Untitled Project") = Ok (lit "nb_328776f6") /\
   notebook_to_instance name_in_chinese = Ok (lit "nb_1873eaa8")) /\
  (md5_hexdigest_of [] = Ok (lit "d41d8cd98f00b204e9800998ecf8427e") /\
   md5_hexdigest_of (lit "a") = Ok (lit "0cc175b9c0f1b6a831c399e269772661") /\
   md5_hexdigest_of (lit "abc") = Ok (lit "900150983cd24fb0d6963f7d28e17f72") /\
   md5_hexdigest_of (lit "message digest")
     = Ok (lit "f96b697d7cb7938d525a2f31aaf161d0") /\
   md5_hexdigest_of (lit "abcdefghijklmnopqrstuvwxyz")
     = Ok (lit "c3fcd3d76192e4007dfb496cca67e13b") /\
   md5_hexdigest_of
     (lit "ABCDEFGHIJKLMNOPQRSTUVWXYZabcdefghijklmnopqrstuvwxyz0123456789")
     = Ok (lit "d174ab98d277d9f5a5611c2c9f419d9f") /\
   md5_hexdigest_of (lit
     "12345678901234567890123456789012345678901234567890123456789012345678901234567890")
     = Ok (lit "57edf4a22be3c955ac49da2e2107b67a")) /\
  encode utf8_boundaries
    = Ok [0x00; 0x7F; 0xC2; 0x80; 0xDF; 0xBF; 0xE0; 0xA0; 0x80; 0xEF; 0xBF; 0xBF;
          0xF0; 0x90; 0x80; 0x80; 0xF4; 0x8F; 0xBF; 0xBF]%N.
Proof.
  split; [|split; [|split; [|split; [|split]]]].
  - intros d Hd. unfold notebook_to_instance.
    rewrite (match_numeric_prefix_complete name d Hd). reflexivity.
  - intros Hno Henc. unfold notebook_to_instance, md5_hexdigest_of.
    destruct (match_numeric_prefix name) as [d|] eqn:Hm.
    + exfalso. apply (Hno d), match_numeric_prefix_sound, Hm.
    + rewrite (encode_encodable name Henc). cbn [bind].
      eexists. eexists. split; [reflexivity|]. split; [reflexivity|].
      split; [reflexivity|]. split.
      * rewrite length_firstn, md5_hexdigest_length. reflexivity.
      * match goal with |- Forall _ (firstn 8 (md5_hexdigest ?b)) =>
          pose proof (md5_hexdigest_lower_hex b) as H;
          rewrite <- (firstn_skipn 8 (md5_hexdigest b)) in H end.
        apply Forall_app in H. apply H.
  - destruct (match_numeric_prefix name) as [d|] eqn:Hm.
    + left. exists d. apply match_numeric_prefix_sound, Hm.
    + right. intros d Hd. apply match_numeric_prefix_complete in Hd. congruence.
  - repeat split; vm_compute; reflexivity.
  - repeat split; vm_compute; reflexivity.
  - vm_compute. reflexivity.
Qed.

Definition Untitled_Project : pystr := lit "Untitled Project".

Lemma notebook_to_instance_key_witness :
  has_numeric_prefix (lit "01. Research Notes") (lit "01") /\
  notebook_to_instance (lit "01. Research Notes") = Ok (lit "nb_" ++ lit "01") /\
  (forall d, ~ has_numeric_prefix Untitled_Project d) /\
  encodable Untitled_Project /\
  exists digest h,
    md5_hexdigest_of Untitled_Project = Ok digest /\
    h = firstn 8 digest /\
    notebook_to_instance Untitled_Project = Ok (lit "nb_" ++ h) /\
    List.length h = 8%nat /\ Forall (fun c => is_lower_hex c = true) h.
Proof.
  assert (H1 : has_numeric_prefix (lit "01. Research Notes") (lit "01")).
  { split; [discriminate|]. split; [repeat constructor|].
    exists (uc 0x2E), (lit " Research Notes"). split; reflexivity. }
  assert (H2 : forall d, ~ has_numeric_prefix Untitled_Project d).
  { intros d Hd. apply match_numeric_prefix_complete in Hd. discriminate Hd. }
  assert (H3 : encodable Untitled_Project) by (repeat constructor).
  split; [exact H1|]. split.
  - exact (proj1 (notebook_to_instance_key (lit "01. Research Notes")) _ H1).
  - split; [exact H2|]. split; [exact H3|].
    exact (proj1 (proj2 (notebook_to_instance_key Untitled_Project)) H2 H3).
Defined.

(** A name made of one lone surrogate, as the command line delivers for
    the undecodable byte 0xFF. *)
Definition undecodable_name : pystr := [uc 0xDCFF].

(** On a name with no numeric prefix that holds a lone surrogate the call
    raises and returns no key. *)
Lemma notebook_to_instance_raises_on_lone_surrogate :
  (forall d, ~ has_numeric_prefix undecodable_name d) /\
  notebook_to_instance undecodable_name = Raise Error /\
  (forall key, notebook_to_instance undecodable_name <> Ok key).
Proof.
  split; [|split].
  - intros d Hd. apply match_numeric_prefix_complete in Hd. discriminate Hd.
  - reflexivity.
  - intros key. discriminate.
Qed.

(** Names that share a numeric prefix share a key, by design. *)
Example shared_prefix_collides :
  notebook_to_instance (lit "01. Research Notes")
  = notebook_to_instance (lit "01 Budget").
Proof. vm_compute. reflexivity. Qed.

(** [\d] is any Unicode decimal digit and [\s] any Unicode white space:
    ARABIC-INDIC DIGIT THREE followed by IDEOGRAPHIC SPACE is a prefix. *)
Example unicode_prefix :
  notebook_to_instance [uc 0x663; uc 0x3000; uc 0x41] = Ok (lit "nb_" ++ [uc 0x663]).
Proof. vm_compute. reflexivity. Qed.

(** A surrogate after a numeric prefix does no harm: the name is not
    encoded. *)
Example prefix_before_surrogate :
  notebook_to_instance (lit "7 " ++ undecodable_name) = Ok (lit "nb_7").
Proof. vm_compute. reflexivity. Qed.

End Resolver.

(** ** The page driver seen from the automation code *)

Module Page.

(** An element handle.  [is_visible] and [inner_text] are the results of
    the Playwright calls of those names on the handle. *)
Record Element := {
  el_id : nat;
  is_visible : result bool;
  inner_text : result pystr
}.

(** A snapshot of the page: for each selector, the elements that match it
    in document order, or the error the query raises. *)
Record Page := { query_selector_all : string -> result (list Element) }.

(** [page.query_selector(sel)] is the first element matching [sel] in
    document order, visible or not, and [None] when nothing matches. *)
Definition query_selector (page : Page) (sel : string) : result (option Element) :=
  let? els := query_selector_all page sel in Ok (hd_error els).

(** [el and el.is_visible()] *)
Definition and_is_visible (el : option Element) : result bool :=
  match el with
  | None => Ok false
  | Some e => is_visible e
  end.

(** The selector fallback loop of [select_source_type] and
    [search_sources]:
<<
    x = None
    for sel in selectors:
        x = self.page.query_selector(sel)
        if x and x.is_visible():
            break
>>
    [probe_chain page selectors x] is the value of [x] after the loop. *)
Fixpoint probe_chain (page : Page) (selectors : list string)
    (x : option Element) : result (option Element) :=
  match selectors with
  | [] => Ok x
  | sel :: rest =>
      let? x' := query_selector page sel in
      let? visible := and_is_visible x' in
      if visible then Ok x' else probe_chain page rest x'
  end.

(** The same loop when only the outcome matters:
<<
    found = False
    for sel in selectors:
        el = self.page.query_selector(sel)
        if el and el.is_visible():
            found = True
            break
>> *)
Fixpoint any_visible (page : Page) (selectors : list string) : result bool :=
  match selectors with
  | [] => Ok false
  | sel :: rest =>
      let? el := query_selector page sel in
      let? visible := and_is_visible el in
      if visible then Ok true else any_visible page rest
  end.

Definition dq : string := String (ascii_of_nat 34) EmptyString.

(** [s] between double quotes, as selectors spell attribute values. *)
Definition quoted (s : string) : string := (dq ++ s ++ dq)%string.

Definition type_btn_selectors : list string :=
  [("button:has-text(" ++ quoted "language" ++ ")")%string;
   ("button:has(span:text(" ++ quoted "language" ++ "))")%string;
   ("[aria-label*=" ++ quoted "来源类型" ++ "]")%string;
   ("[aria-label*=" ++ quoted "source type" ++ "]")%string].

Definition search_selectors : list string :=
  [("textarea[aria-label=" ++ quoted "基于输入的查询发现来源" ++ "]")%string;
   ("textarea[placeholder*=" ++ quoted "在网络中搜索新来源" ++ "]")%string;
   ("textarea[aria-label*=" ++ quoted "发现来源" ++ "]")%string;
   ("textarea[aria-label*=" ++ quoted "查询发现" ++ "]")%string;
   ("textarea[placeholder*=" ++ quoted "搜索新来源" ++ "]")%string].

(** The element [select_source_type] goes on to click ([None]: it prints
    that no selector was found and returns [False]). *)
Definition select_source_type_button (page : Page) : result (option Element) :=
  probe_chain page type_btn_selectors None.

(** The value of [search_input] after the first loop of [search_sources]. *)
Definition search_sources_input (page : Page) : result (option Element) :=
  probe_chain page search_selectors None.

(** The evaluation the specification describes: the candidates of a probe
    are all its matches, those not visible are filtered out, and the first
    visible candidate of the first probe that has one is returned. *)
Definition visible_candidates (page : Page) (sel : string) : list Element :=
  match query_selector_all page sel with
  | Ok els =>
      List.filter
        (fun e => match is_visible e with Ok true => true | _ => false end) els
  | Raise _ => []
  end.

Fixpoint spec_first_visible_candidate (page : Page) (chain : list string)
    : option Element :=
  match chain with
  | [] => None
  | sel :: rest =>
      match visible_candidates page sel with
      | e :: _ => Some e
      | [] => spec_first_visible_candidate page rest
      end
  end.

(** The first match of [sel] is there and visible. *)
Definition hit (page : Page) (sel : string) (e : Element) : Prop :=
  query_selector page sel = Ok (Some e) /\ is_visible e = Ok true.

(** The query of [sel] completes and its first match is missing or not
    visible. *)
Definition miss (page : Page) (sel : string) : Prop :=
  exists x, query_selector page sel = Ok x /\ and_is_visible x = Ok false.

(** *** Properties *)

Lemma probe_chain_hit page sel rest e x :
  hit page sel e -> probe_chain page (sel :: rest) x = Ok (Some e).
Proof.
  intros [Hq Hv]. cbn [probe_chain]. rewrite Hq. cbn [bind and_is_visible].
  rewrite Hv. reflexivity.
Qed.

Lemma probe_chain_miss page sel rest x :
  miss page sel ->
  exists x', probe_chain page (sel :: rest) x = probe_chain page rest x'.
Proof.
  intros (x' & Hq & Hv). exists x'. cbn [probe_chain]. rewrite Hq.
  cbn [bind]. rewrite Hv. reflexivity.
Qed.

(** C9, as the code has it.  The chain is tried in order, each probe
    contributes its first match in document order only, and the selected
    element is the first match of the first probe whose first match is
    visible.  A probe whose first match is missing or not visible is passed
    over, so with probe 1 matching an invisible element only and probe 2
    matching a visible one, the element of probe 2 is selected. *)
Theorem probe_chain_selects_first_hit (page : Page) (before after : list string)
    (sel : string) (e : Element) (x : option Element) :
  Forall (miss page) before ->
  hit page sel e ->
  probe_chain page (before ++ sel :: after) x = Ok (Some e) /\
  exists others, query_selector_all page sel = Ok (e :: others).
Proof.
  intros Hbefore Hhit. split.
  - revert x. induction Hbefore as [|s before Hs _ IH]; intros x.
    + apply probe_chain_hit, Hhit.
    + rewrite <- app_comm_cons.
      destruct (probe_chain_miss page s (before ++ sel :: after) x Hs) as [x' ->].
      apply IH.
  - destruct Hhit as [Hq _]. unfold query_selector in Hq.
    destruct (query_selector_all page sel) as [[|e' others]|]; try discriminate.
    injection Hq as ->. exists others. reflexivity.
Qed.

Definition hidden_button : Element :=
  {| el_id := 1; is_visible := Ok false; inner_text := Ok (lit "language") |}.
Definition shown_button : Element :=
  {| el_id := 2; is_visible := Ok true; inner_text := Ok (lit "language") |}.
Definition labelled_button : Element :=
  {| el_id := 3; is_visible := Ok true; inner_text := Ok [] |}.

(** Probe 1 matches an invisible element only, probe 4 a visible one. *)
Definition page_hidden_only : Page :=
  {| query_selector_all := fun sel =>
       if String.eqb sel (nth 0 type_btn_selectors EmptyString) then Ok [hidden_button]
       else if String.eqb sel (nth 3 type_btn_selectors EmptyString) then Ok [labelled_button]
       else Ok [] |}.

Lemma probe_chain_selects_first_hit_witness :
  Forall (miss page_hidden_only) (firstn 3 type_btn_selectors) /\
  hit page_hidden_only (nth 3 type_btn_selectors EmptyString) labelled_button /\
  select_source_type_button page_hidden_only = Ok (Some labelled_button).
Proof.
  assert (Hm : Forall (miss page_hidden_only) (firstn 3 type_btn_selectors)).
  { repeat constructor; eexists; split; reflexivity. }
  assert (Hh : hit page_hidden_only (nth 3 type_btn_selectors EmptyString)
                   labelled_button) by (split; reflexivity).
  split; [exact Hm|]. split; [exact Hh|].
  exact (proj1 (probe_chain_selects_first_hit page_hidden_only
                  (firstn 3 type_btn_selectors) [] _ labelled_button None Hm Hh)).
Defined.

(** Probe 1 matches two buttons, the first hidden and the second shown;
    probe 4 matches a third, visible one. *)
Definition page_hidden_first : Page :=
  {| query_selector_all := fun sel =>
       if String.eqb sel (nth 0 type_btn_selectors EmptyString)
       then Ok [hidden_button; shown_button]
       else if String.eqb sel (nth 3 type_btn_selectors EmptyString)
       then Ok [labelled_button]
       else Ok [] |}.

(** C9, as stated, fails on [page_hidden_first]: the first probe that
    yields a visible candidate is probe 1 and its first visible candidate is
    the shown button, but the loop selects the element of probe 4. *)
Lemma probe_chain_skips_later_visible_match :
  visible_candidates page_hidden_first (nth 0 type_btn_selectors EmptyString)
    = [shown_button] /\
  spec_first_visible_candidate page_hidden_first type_btn_selectors
    = Some shown_button /\
  select_source_type_button page_hidden_first = Ok (Some labelled_button) /\
  labelled_button <> shown_button.
Proof. repeat split; try reflexivity. discriminate. Qed.

(** When no probe has a visible first match, the loop leaves the first
    match of the last probe in its variable, visible or not. *)
Example probe_chain_keeps_last_invisible_match :
  probe_chain page_hidden_only (firstn 1 type_btn_selectors) None
  = Ok (Some hidden_button).
Proof. reflexivity. Qed.

End Page.

(** ** Search state machine: [detect_mode], [detect_search_state],
       [clear_temp_sources] *)

Module Search.

Import Page.

(** State and mode names are the ASCII string constants of the program. *)
Definition READY : string := "READY".
Definition PENDING_RESULTS : string := "PENDING_RESULTS".
Definition UNKNOWN : string := "UNKNOWN".

Definition view_btn_selector : string :=
  ("button:has-text(" ++ quoted "查看" ++ ")")%string.

Definition search_state_selectors : list string :=
  [("textarea[aria-label=" ++ quoted "基于输入的查询发现来源" ++ "]")%string;
   ("textarea[placeholder*=" ++ quoted "在网络中搜索新来源" ++ "]")%string].

(** The body of the [try] of [detect_search_state]. *)
Definition detect_search_state_try (page : Page) : result string :=
  let? view_btn := query_selector page view_btn_selector in
  let? pending := and_is_visible view_btn in
  if pending then Ok PENDING_RESULTS
  else
    let? ready := any_visible page search_state_selectors in
    if ready then Ok READY else Ok UNKNOWN.

Definition detect_search_state (page : Page) : string :=
  except_all (detect_search_state_try page) UNKNOWN.

Definition source_search_selector : string :=
  ("textarea[placeholder*=" ++ quoted "搜索新来源" ++ "], input[placeholder*="
   ++ quoted "搜索新来源" ++ "]")%string.

Definition chat_input_selector : string :=
  ("textarea[placeholder*=" ++ quoted "开始输入" ++ "], textarea[aria-label="
   ++ quoted "查询框" ++ "]")%string.

(** The body of the [try] of [detect_mode]: both queries are made before
    either element is looked at. *)
Definition detect_mode_try (page : Page) : result string :=
  let? source_search := query_selector page source_search_selector in
  let? chat_input := query_selector page chat_input_selector in
  let? searching := and_is_visible source_search in
  if searching then Ok "source_search"%string
  else
    let? chatting := and_is_visible chat_input in
    if chatting then Ok "chat"%string else Ok "unknown"%string.

Definition detect_mode (page : Page) : string :=
  except_all (detect_mode_try page) "unknown"%string.

(** The pending-results (resp. search-input) affordance as the code probes
    it: the first match of the selector is there and visible. *)
Definition affordance_visible (page : Page) (sel : string) : result bool :=
  let? el := query_selector page sel in and_is_visible el.

(** *** [clear_temp_sources] *)

(** What the code does to the page.  The remote application answers each
    action with a new page state ([react]); a wait is an action too, since
    the page changes while the script sleeps. *)
Inductive Action :=
| Click (id : nat)
| Press (key : string)
| Wait (ms : N).

Record World := { page : Page; trace : list Action }.

Definition M (A : Type) : Type := World -> result A * World.

Definition ret {A} (a : A) : M A := fun w => (Ok a, w).

Definition bindM {A B} (m : M A) (k : A -> M B) : M B :=
  fun w =>
    match m w with
    | (Ok a, w') => k a w'
    | (Raise e, w') => (Raise e, w')
    end.

Notation "'let!' x ':=' m 'in' k" := (bindM m (fun x => k))
  (at level 10, x name, m at level 100, k at level 200).

(** A read of the current page. *)
Definition ask {A} (f : Page -> result A) : M A := fun w => (f (page w), w).

(** [try: ... except Exception: return handler] *)
Definition catch_Exception {A} (m : M A) (handler : A) : M A :=
  fun w =>
    match m w with
    | (Raise Error, w') => (Ok handler, w')
    | other => other
    end.

Definition delete_words : list pystr :=
  [[uc 0x5220; uc 0x9664]; lit "Delete"; lit "Remove"].

(** The scan for the delete button; an exception raised by a button is
    swallowed by the bare [except: pass] and the scan goes on. *)
Fixpoint find_delete_button (buttons : list Element) : option Element :=
  match buttons with
  | [] => None
  | btn :: rest =>
      match is_visible btn with
      | Ok true =>
          match inner_text btn with
          | Ok t =>
              let text := strip t in
              if existsb (fun word => contains word text) delete_words
              then Some btn
              else find_delete_button rest
          | Raise _ => find_delete_button rest
          end
      | _ => find_delete_button rest
      end
  end.

Definition confirm_selectors : list string :=
  [("button:has-text(" ++ quoted "确认" ++ ")")%string;
   ("button:has-text(" ++ quoted "确定" ++ ")")%string;
   ("button:has-text(" ++ quoted "Confirm" ++ ")")%string;
   ("button:has-text(" ++ quoted "OK" ++ ")")%string;
   ("button:has-text(" ++ quoted "Yes" ++ ")")%string].

Section Clear.

(** The answer of the remote application to an action: whether the call
    raised, and the page afterwards. *)
Variable react : Action -> Page -> result unit * Page.

Definition act (a : Action) : M unit :=
  fun w =>
    let '(r, p) := react a (page w) in
    (r, {| page := p; trace := trace w ++ [a] |}).

(** Step 4: click the first confirmation button that shows, if any. *)
Fixpoint confirm_dialog (selectors : list string) : M unit :=
  match selectors with
  | [] => ret tt
  | sel :: rest =>
      let! confirm_btn := ask (fun p => query_selector p sel) in
      let! visible := ask (fun _ => and_is_visible confirm_btn) in
      if visible then
        match confirm_btn with
        | Some btn => let! _ := act (Click (el_id btn)) in act (Wait 2000)
        | None => ret tt
        end
      else confirm_dialog rest
  end.

(** Step 5: probe the state again and report. *)
Definition verify_cleared : M bool :=
  let! _ := act (Wait 1000) in
  let! final_state := ask (fun p => Ok (detect_search_state p)) in
  if String.eqb final_state READY then ret true
  else ret (negb (String.eqb final_state PENDING_RESULTS)).

Definition clear_temp_sources_try : M bool :=
  let! state := ask (fun p => Ok (detect_search_state p)) in
  if String.eqb state READY then ret true
  else if negb (String.eqb state PENDING_RESULTS) then ret false
  else
    let! buttons := ask (fun p => query_selector_all p "button") in
    match find_delete_button buttons with
    | None =>
        let! _ := act (Press "Escape") in
        let! _ := act (Wait 500) in
        ret false
    | Some delete_btn =>
        let! _ := act (Click (el_id delete_btn)) in
        let! _ := act (Wait 1000) in
        let! _ := confirm_dialog confirm_selectors in
        verify_cleared
    end.

Definition clear_temp_sources : M bool :=
  catch_Exception clear_temp_sources_try false.

End Clear.

(** *** Properties *)

Lemma any_visible_two page s1 s2 :
  any_visible page [s1; s2] = Ok true <->
  affordance_visible page s1 = Ok true \/
  (affordance_visible page s1 = Ok false /\ affordance_visible page s2 = Ok true).
Proof.
  unfold affordance_visible. cbn [any_visible].
  destruct (query_selector page s1) as [x1|]; cbn [bind];
    [|split; [discriminate|intros [|[]]; discriminate]].
  destruct (and_is_visible x1) as [[|]|]; cbn [bind];
    [tauto| |split; [discriminate|intros [|[]]; discriminate]].
  destruct (query_selector page s2) as [x2|]; cbn [bind];
    [|split; [discriminate|intros [|[]]; discriminate]].
  destruct (and_is_visible x2) as [[|]|]; cbn [bind];
    split; try tauto; try discriminate; intros [|[]]; discriminate.
Qed.

Definition search_input_1 : string := nth 0 search_state_selectors EmptyString.
Definition search_input_2 : string := nth 1 search_state_selectors EmptyString.

Lemma detect_search_state_by_first_match (page : Page) :
  (affordance_visible page view_btn_selector = Ok true ->
     detect_search_state page = PENDING_RESULTS) /\
  (affordance_visible page view_btn_selector = Ok false ->
     (detect_search_state page = READY <->
        affordance_visible page search_input_1 = Ok true \/
        (affordance_visible page search_input_1 = Ok false /\
         affordance_visible page search_input_2 = Ok true)) /\
     (affordance_visible page search_input_1 = Ok false ->
      affordance_visible page search_input_2 = Ok false ->
        detect_search_state page = UNKNOWN)).
Proof.
  pose proof (any_visible_two page search_input_1 search_input_2) as Htwo.
  change [search_input_1; search_input_2] with search_state_selectors in Htwo.
  unfold detect_search_state, detect_search_state_try.
  unfold affordance_visible at 1 2.
  destruct (query_selector page view_btn_selector) as [view_btn|]; cbn [bind];
    [|split; discriminate].
  destruct (and_is_visible view_btn) as [[|]|]; cbn [bind];
    split; try discriminate; try reflexivity; intros _.
  split.
  - rewrite <- Htwo.
    destruct (any_visible page search_state_selectors) as [[|]|];
      cbn [bind except_all]; split; try reflexivity; discriminate.
  - intros H1 H2.
    assert (Hnot : any_visible page search_state_selectors <> Ok true).
    { rewrite Htwo. intros [H|[_ H]]; congruence. }
    destruct (any_visible page search_state_selectors) as [[|]|];
      cbn [bind except_all]; try reflexivity. congruence.
Qed.

Definition view_button : Element :=
  {| el_id := 7; is_visible := Ok true; inner_text := Ok [] |}.
Definition search_box : Element :=
  {| el_id := 8; is_visible := Ok true; inner_text := Ok [] |}.

(** Unimported results are waiting and the search box shows as well. *)
Definition page_pending : Page :=
  {| query_selector_all := fun sel =>
       if String.eqb sel view_btn_selector then Ok [view_button]
       else if String.eqb sel "button" then Ok [view_button]
       else if existsb (String.eqb sel) search_state_selectors then Ok [search_box]
       else Ok [] |}.

(** Only the search box shows. *)
Definition page_ready : Page :=
  {| query_selector_all := fun sel =>
       if existsb (String.eqb sel) search_state_selectors then Ok [search_box]
       else Ok [] |}.

Lemma affordance_visible_hit page sel :
  affordance_visible page sel = Ok true <-> exists e, hit page sel e.
Proof.
  unfold affordance_visible, hit.
  destruct (query_selector page sel) as [[e|]|err]; cbn [bind and_is_visible].
  - split; [intros H; exists e; auto|intros (e' & [= <-] & H); exact H].
  - split; [discriminate|intros (e' & [=] & _)].
  - split; [discriminate|intros (e' & [=] & _)].
Qed.

Lemma affordance_visible_miss page sel :
  affordance_visible page sel = Ok false <-> miss page sel.
Proof.
  unfold affordance_visible, miss.
  destruct (query_selector page sel) as [x|err]; cbn [bind].
  - split; [intros H; exists x; auto|intros (x' & [= <-] & H); exact H].
  - split; [discriminate|intros (x' & [=] & _)].
Qed.

(** C5, as the code has it.  Each affordance is probed through the first
    match of its selector.  [detect_search_state] returns [PENDING_RESULTS]
    whenever the first match of the "view" button selector is visible,
    whatever the search-input selectors match.  When that first match is
    missing or not visible it returns [READY] exactly when the first match
    of a search-input selector is visible (of the first selector, or of the
    second when the first has no visible first match), and [UNKNOWN] when
    neither has one. *)
Theorem detect_search_state_priority (page : Page) :
  ((exists view_btn, hit page view_btn_selector view_btn) ->
     detect_search_state page = PENDING_RESULTS) /\
  (miss page view_btn_selector ->
     (detect_search_state page = READY <->
        (exists input, hit page search_input_1 input) \/
        (miss page search_input_1 /\ exists input, hit page search_input_2 input)) /\
     (miss page search_input_1 -> miss page search_input_2 ->
        detect_search_state page = UNKNOWN)).
Proof.
  destruct (detect_search_state_by_first_match page) as [Hpending Hrest].
  split.
  - intros H. apply Hpending, affordance_visible_hit, H.
  - intros Hmiss. apply affordance_visible_miss in Hmiss.
    destruct (Hrest Hmiss) as [Hready Hunknown]. split.
    + rewrite Hready, !affordance_visible_hit, affordance_visible_miss. reflexivity.
    + intros H1 H2. apply Hunknown; apply affordance_visible_miss; assumption.
Qed.

Lemma detect_search_state_priority_witness :
  hit page_pending view_btn_selector view_button /\
  detect_search_state page_pending = PENDING_RESULTS /\
  miss page_ready view_btn_selector /\
  hit page_ready search_input_1 search_box /\
  detect_search_state page_ready = READY.
Proof.
  assert (H1 : hit page_pending view_btn_selector view_button)
    by (split; reflexivity).
  assert (H2 : miss page_ready view_btn_selector)
    by (exists None; split; reflexivity).
  assert (H3 : hit page_ready search_input_1 search_box) by (split; reflexivity).
  split; [exact H1|]. split.
  - exact (proj1 (detect_search_state_priority page_pending)
             (ex_intro _ view_button H1)).
  - split; [exact H2|]. split; [exact H3|].
    apply (proj1 (proj2 (detect_search_state_priority page_ready) H2)).
    left. exists search_box. exact H3.
Defined.

Definition hidden_view_button : Element :=
  {| el_id := 6; is_visible := Ok false; inner_text := Ok [] |}.

(** A hidden "view" button comes before the visible one in the document,
    and the search box shows as well. *)
Definition page_hidden_view_first : Page :=
  {| query_selector_all := fun sel =>
       if String.eqb sel view_btn_selector then Ok [hidden_view_button; view_button]
       else if existsb (String.eqb sel) search_state_selectors then Ok [search_box]
       else Ok [] |}.

(** C5, as stated, fails on [page_hidden_view_first]: the pending-results
    affordance is present and visible (the second match of its selector),
    and the state returned is [READY]. *)
Lemma detect_search_state_overlooks_later_view_button :
  visible_candidates page_hidden_view_first view_btn_selector = [view_button] /\
  is_visible view_button = Ok true /\
  detect_search_state page_hidden_view_first = READY /\
  detect_search_state page_hidden_view_first <> PENDING_RESULTS.
Proof. repeat split; try reflexivity. discriminate. Qed.

(** C10. Whatever the page does, an exception of either kind included,
    [detect_search_state] returns one of ['READY'], ['PENDING_RESULTS'],
    ['UNKNOWN'] and [detect_mode] one of ['chat'], ['source_search'],
    ['unknown']; when a probe raises, the value is ['UNKNOWN'] (resp.
    ['unknown']). *)
Theorem detectors_total (page : Page) :
  (detect_search_state page = "READY"%string \/
   detect_search_state page = "PENDING_RESULTS"%string \/
   detect_search_state page = "UNKNOWN"%string) /\
  (detect_mode page = "chat"%string \/
   detect_mode page = "source_search"%string \/
   detect_mode page = "unknown"%string) /\
  (forall e, detect_search_state_try page = Raise e ->
     detect_search_state page = "UNKNOWN"%string) /\
  (forall e, detect_mode_try page = Raise e ->
     detect_mode page = "unknown"%string) /\
  (forall s, detect_search_state_try page = Ok s -> detect_search_state page = s) /\
  (forall s, detect_mode_try page = Ok s -> detect_mode page = s).
Proof.
  split; [|split; [|split; [|split; [|split]]]].
  - unfold detect_search_state, detect_search_state_try.
    destruct (query_selector page view_btn_selector) as [view_btn|];
      cbn [bind except_all]; [|tauto].
    destruct (and_is_visible view_btn) as [[|]|]; cbn [bind except_all]; try tauto.
    destruct (any_visible page search_state_selectors) as [[|]|];
      cbn [bind except_all]; tauto.
  - unfold detect_mode, detect_mode_try.
    destruct (query_selector page source_search_selector) as [ss|];
      cbn [bind except_all]; [|tauto].
    destruct (query_selector page chat_input_selector) as [ci|];
      cbn [bind except_all]; [|tauto].
    destruct (and_is_visible ss) as [[|]|]; cbn [bind except_all]; try tauto.
    destruct (and_is_visible ci) as [[|]|]; cbn [bind except_all]; tauto.
  - intros e He. unfold detect_search_state. rewrite He. reflexivity.
  - intros e He. unfold detect_mode. rewrite He. reflexivity.
  - intros s' Hs. unfold detect_search_state. rewrite Hs. reflexivity.
  - intros s' Hs. unfold detect_mode. rewrite Hs. reflexivity.
Qed.

(** The page is gone: every query raises. *)
Definition page_closed (e : exn) : Page :=
  {| query_selector_all := fun _ => Raise e |}.

Lemma detectors_total_witness :
  detect_search_state_try (page_closed Interrupt) = Raise Interrupt /\
  detect_search_state (page_closed Interrupt) = "UNKNOWN"%string /\
  detect_mode_try (page_closed Error) = Raise Error /\
  detect_mode (page_closed Error) = "unknown"%string.
Proof.
  split; [reflexivity|]. split.
  - exact (proj1 (proj2 (proj2 (detectors_total (page_closed Interrupt))))
             Interrupt eq_refl).
  - split; [reflexivity|].
    exact (proj1 (proj2 (proj2 (proj2 (detectors_total (page_closed Error)))))
             Error eq_refl).
Defined.

Section ClearProperties.

Variable react : Action -> Page -> result unit * Page.

Lemma bindM_Ok {A B} (m : M A) (k : A -> M B) w b w' :
  bindM m k w = (Ok b, w') ->
  exists a w1, m w = (Ok a, w1) /\ k a w1 = (Ok b, w').
Proof.
  unfold bindM. destruct (m w) as [[a|e] w1]; [|discriminate].
  intros H. exists a, w1. split; [reflexivity|exact H].
Qed.

Lemma ask_Ok {A} (f : Page -> result A) w a w' :
  ask f w = (Ok a, w') -> f (page w) = Ok a /\ w' = w.
Proof. unfold ask. intros [= -> ->]. split; reflexivity. Qed.

Lemma verify_cleared_sound w w' :
  verify_cleared react w = (Ok true, w') ->
  detect_search_state (page w') <> PENDING_RESULTS.
Proof.
  unfold verify_cleared. intros H.
  apply bindM_Ok in H as (_ & w1 & _ & H).
  apply bindM_Ok in H as (final_state & w2 & Hask & H).
  apply ask_Ok in Hask as [[= Hfs] ->].
  destruct (String.eqb final_state READY) eqn:Hr.
  - injection H as <-. apply String.eqb_eq in Hr. rewrite Hfs, Hr. discriminate.
  - unfold ret in H. injection H as Hp <-.
    apply negb_true_iff, String.eqb_neq in Hp. congruence.
Qed.

Lemma clear_temp_sources_try_sound w w' :
  clear_temp_sources_try react w = (Ok true, w') ->
  detect_search_state (page w') <> PENDING_RESULTS.
Proof.
  unfold clear_temp_sources_try. intros H.
  apply bindM_Ok in H as (state & w1 & Hask & H).
  apply ask_Ok in Hask as [[= Hstate] ->].
  destruct (String.eqb state READY) eqn:Hr.
  { injection H as <-. apply String.eqb_eq in Hr. rewrite Hstate, Hr. discriminate. }
  destruct (negb (String.eqb state PENDING_RESULTS)); [discriminate|].
  apply bindM_Ok in H as (buttons & w2 & _ & H).
  destruct (find_delete_button buttons) as [delete_btn|].
  - apply bindM_Ok in H as (_ & w3 & _ & H).
    apply bindM_Ok in H as (_ & w4 & _ & H).
    apply bindM_Ok in H as (_ & w5 & _ & H).
    apply verify_cleared_sound in H. exact H.
  - apply bindM_Ok in H as (_ & w3 & _ & H).
    apply bindM_Ok in H as (_ & w4 & _ & H). discriminate.
Qed.

(** C6. Called on a page whose state is [READY], [clear_temp_sources]
    returns [True] without touching the page (no click, key press or wait).
    In every case, when it returns [True] the last probe of the search
    state, made after all its actions on the page it leaves behind, is not
    [PENDING_RESULTS]. *)
Theorem clear_temp_sources_success (w : World) :
  (detect_search_state (page w) = READY ->
     clear_temp_sources react w = (Ok true, w)) /\
  (forall w', clear_temp_sources react w = (Ok true, w') ->
     detect_search_state (page w') <> PENDING_RESULTS).
Proof.
  split.
  - intros Hready. unfold clear_temp_sources, catch_Exception,
      clear_temp_sources_try, bindM, ask. rewrite Hready. reflexivity.
  - intros w' H. unfold clear_temp_sources, catch_Exception in H.
    destruct (clear_temp_sources_try react w) as [[b|[|]] w1] eqn:Htry;
      try discriminate.
    injection H as -> ->. apply clear_temp_sources_try_sound with w. exact Htry.
Qed.

End ClearProperties.

Definition delete_button : Element :=
  {| el_id := 9; is_visible := Ok true;
     inner_text := Ok (uc 0x20 :: uc 0x5220 :: uc 0x9664 :: [uc 0x0A]) |}.

(** Results are pending and a delete button shows next to a view button. *)
Definition page_with_results : Page :=
  {| query_selector_all := fun sel =>
       if String.eqb sel view_btn_selector then Ok [view_button]
       else if String.eqb sel "button" then Ok [view_button; delete_button]
       else Ok [] |}.

(** A remote application that discards the results when the delete button
    is clicked. *)
Definition discard_on_click (a : Action) (p : Page) : result unit * Page :=
  match a with
  | Click 9 => (Ok tt, page_ready)
  | _ => (Ok tt, p)
  end.

(** A remote application on which nothing has any effect. *)
Definition unresponsive (a : Action) (p : Page) : result unit * Page := (Ok tt, p).

Lemma clear_temp_sources_success_witness :
  detect_search_state page_ready = READY /\
  clear_temp_sources discard_on_click {| page := page_ready; trace := [] |}
    = (Ok true, {| page := page_ready; trace := [] |}) /\
  clear_temp_sources discard_on_click {| page := page_with_results; trace := [] |}
    = (Ok true, {| page := page_ready;
                   trace := [Click 9; Wait 1000; Wait 1000] |}) /\
  detect_search_state page_ready <> PENDING_RESULTS.
Proof.
  split; [reflexivity|]. split.
  - exact (proj1 (clear_temp_sources_success discard_on_click
                    {| page := page_ready; trace := [] |}) eq_refl).
  - split; [reflexivity|].
    exact (proj2 (clear_temp_sources_success discard_on_click
                    {| page := page_with_results; trace := [] |}) _ eq_refl).
Defined.

(** Clearing fails, and says so, when the results stay. *)
Example clear_temp_sources_reports_failure :
  clear_temp_sources unresponsive {| page := page_with_results; trace := [] |}
  = (Ok false, {| page := page_with_results;
                  trace := [Click 9; Wait 1000; Wait 1000] |}).
Proof. reflexivity. Qed.

End Search.

(** ** Profile store: [auto_init_instance_profile] *)

Module Profile.

(** The file system below the home directory, as a tree.  A directory maps
    the names of its entries to their nodes; permissions, time stamps and
    links are not modelled.  Instance names and engine types are single path
    components: [ProfileFacts.profile_dir_of] has the path [pathlib] builds
    from any two names, which is this one for plain names. *)
#[warnings="-register-all"]
Inductive node :=
| File (data : list N)
| Dir (entries : gmap string node).

Definition path := list string.

Fixpoint get (fs : node) (p : path) : option node :=
  match p with
  | [] => Some fs
  | c :: p' =>
      match fs with
      | Dir m => match m !! c with Some child => get child p' | None => None end
      | File _ => None
      end
  end.

(** Set the entry [name] of the directory at [parent]; [None] when [parent]
    is not a directory. *)
Fixpoint put_in (fs : node) (parent : path) (name : string) (x : node)
    : option node :=
  match parent with
  | [] =>
      match fs with
      | Dir m => Some (Dir (<[name := x]> m))
      | File _ => None
      end
  | c :: parent' =>
      match fs with
      | Dir m =>
          match m !! c with
          | Some child =>
              match put_in child parent' name x with
              | Some child' => Some (Dir (<[c := child']> m))
              | None => None
              end
          | None => None
          end
      | File _ => None
      end
  end.

(** [Path.mkdir(parents=True, exist_ok=True)] and [os.makedirs(p,
    exist_ok=True)]: create the missing directories along [p]; [OSError]
    when a component is a file, in which case nothing is created. *)
Fixpoint mkdir_parents (fs : node) (p : path) : result node :=
  match fs with
  | File _ => Raise Error
  | Dir m =>
      match p with
      | [] => Ok fs
      | c :: p' =>
          let child := match m !! c with Some n => n | None => Dir ∅ end in
          let? child' := mkdir_parents child p' in
          Ok (Dir (<[c := child']> m))
      end
  end.

(** [Path.exists()] *)
Definition exists_ (fs : node) (p : path) : bool :=
  match get fs p with Some _ => true | None => false end.

(** [Path.iterdir()], as the names and nodes of the entries. *)
Definition iterdir (fs : node) (p : path) : result (list (string * node)) :=
  match get fs p with
  | Some (Dir m) => Ok (map_to_list m)
  | _ => Raise Error
  end.

(** [any(p.iterdir())] *)
Definition any_iterdir (fs : node) (p : path) : result bool :=
  let? entries := iterdir fs p in
  Ok (match entries with [] => false | _ :: _ => true end).

(** Code that reads and writes the file system and may raise. *)
Definition F (A : Type) : Type := node -> result A * node.

Definition SKILL_DIR : path := [".claude"; "skills"; "notebooklm"]%string.
Definition ISOLATED_CHROME_PROFILE : path := SKILL_DIR ++ ["chrome_profile"%string].
Definition ISOLATED_WEBKIT_PROFILE : path := SKILL_DIR ++ ["webkit_profile"%string].
Definition ISOLATED_FIREFOX_PROFILE : path := SKILL_DIR ++ ["firefox_profile"%string].
Definition MULTI_INSTANCE_PROFILES_DIR : path := SKILL_DIR ++ ["profiles"%string].

(** [shutil.copytree(item, dest, dirs_exist_ok=True)] for a [dest] that
    does not exist (the only use): [dest] is made with its parents and
    receives a copy of the tree [item]. *)
Definition copytree (item : node) (parent : path) (name : string) : F unit :=
  fun fs =>
    match mkdir_parents fs (parent ++ [name]) with
    | Raise e => (Raise e, fs)
    | Ok fs1 =>
        match put_in fs1 parent name item with
        | Some fs2 => (Ok tt, fs2)
        | None => (Raise Error, fs1)
        end
    end.

(** [shutil.copy2(item, dest)] for a file that can be read:
    [FileNotFoundError] when the directory of [dest] is missing.  The tree
    holds no entry that cannot be read (a dangling link, a socket), on
    which the call raises. *)
Definition copy2 (item : node) (parent : path) (name : string) : F unit :=
  fun fs =>
    match put_in fs parent name item with
    | Some fs' => (Ok tt, fs')
    | None => (Raise Error, fs)
    end.

(** One turn of the loop over the template's entries. *)
Definition copy_item (source_profile profile_dir : path) (name : string) : F unit :=
  fun fs =>
    match get fs (source_profile ++ [name]) with
    | Some (Dir entries) =>
        if exists_ fs (profile_dir ++ [name]) then (Ok tt, fs)
        else copytree (Dir entries) profile_dir name fs
    | Some (File data) =>
        if exists_ fs (profile_dir ++ [name]) then (Ok tt, fs)
        else copy2 (File data) profile_dir name fs
    | None =>
        if exists_ fs (profile_dir ++ [name]) then (Ok tt, fs)
        else (Raise Error, fs)
    end.

Fixpoint copy_items (source_profile profile_dir : path) (names : list string)
    : F unit :=
  fun fs =>
    match names with
    | [] => (Ok tt, fs)
    | name :: rest =>
        match copy_item source_profile profile_dir name fs with
        | (Ok _, fs') => copy_items source_profile profile_dir rest fs'
        | (Raise e, fs') => (Raise e, fs')
        end
    end.

Definition source_profile_of (browser_type : string) : path :=
  if String.eqb browser_type "chrome" then ISOLATED_CHROME_PROFILE
  else if String.eqb browser_type "safari" || String.eqb browser_type "webkit"
  then ISOLATED_WEBKIT_PROFILE
  else ISOLATED_FIREFOX_PROFILE.

(** The copy from the template, once the profile directory is there. *)
Definition copy_source_profile (browser_type : string) (profile_dir : path) : F unit :=
  fun fs =>
    let source_profile := source_profile_of browser_type in
    if exists_ fs source_profile then
      match any_iterdir fs source_profile with
      | Raise e => (Raise e, fs)
      | Ok false => (Ok tt, fs)
      | Ok true =>
          match iterdir fs source_profile with
          | Raise e => (Raise e, fs)
          | Ok entries => copy_items source_profile profile_dir (map fst entries) fs
          end
      end
    else (Ok tt, fs).

(** [not profile_dir.exists() or not any(profile_dir.iterdir())] *)
Definition absent_or_empty (fs : node) (profile_dir : path) : result bool :=
  if exists_ fs profile_dir then
    let? some := any_iterdir fs profile_dir in Ok (negb some)
  else Ok true.

Definition auto_init_instance_profile (instance_name browser_type : string)
    : F path :=
  fun fs =>
    let profile_dir := MULTI_INSTANCE_PROFILES_DIR ++ [instance_name; browser_type] in
    match absent_or_empty fs profile_dir with
    | Raise e => (Raise e, fs)
    | Ok false => (Ok profile_dir, fs)
    | Ok true =>
        match mkdir_parents fs profile_dir with
        | Raise e => (Raise e, fs)
        | Ok fs1 =>
            match copy_source_profile browser_type profile_dir fs1 with
            | (Ok _, fs2) => (Ok profile_dir, fs2)
            | (Raise e, fs2) => (Raise e, fs2)
            end
        end
    end.

(** *** Properties *)

Definition nonempty_dir (fs : node) (p : path) : Prop :=
  exists m, get fs p = Some (Dir m) /\ m <> ∅.

Definition is_dir (fs : node) (p : path) : Prop :=
  exists m, get fs p = Some (Dir m).

Lemma get_child fs p c n :
  get fs (p ++ [c]) = Some n <->
  exists m, get fs p = Some (Dir m) /\ m !! c = Some n.
Proof.
  revert fs. induction p as [|a p IH]; intros fs; cbn [app get].
  - destruct fs as [d|m].
    + split; [discriminate|]. intros (m & [=] & _).
    + destruct (m !! c) as [x|] eqn:Hc.
      * split; [intros [= <-]; eauto|]. intros (m' & [= <-] & Hm). congruence.
      * split; [discriminate|]. intros (m' & [= <-] & Hm). congruence.
  - destruct fs as [d|m]; [split; [discriminate|]; intros (m & [=] & _)|].
    destruct (m !! a) as [x|]; [apply IH|].
    split; [discriminate|]. intros (m' & [=] & _).
Qed.

Lemma nonempty_dir_of_child fs p c n :
  get fs (p ++ [c]) = Some n -> nonempty_dir fs p.
Proof.
  intros H. apply get_child in H as (m & Hm & Hc). exists m. split; [exact Hm|].
  intros ->. rewrite lookup_empty in Hc. discriminate.
Qed.

Lemma put_in_get fs p c x fs' :
  put_in fs p c x = Some fs' ->
  exists m, get fs p = Some (Dir m) /\ get fs' p = Some (Dir (<[c := x]> m)).
Proof.
  revert fs fs'. induction p as [|a p IH]; intros fs fs'; cbn [put_in get].
  - destruct fs as [d|m]; [discriminate|]. intros [= <-]. eauto.
  - destruct fs as [d|m]; [discriminate|].
    destruct (m !! a) as [child|] eqn:Ha; [|discriminate].
    destruct (put_in child p c x) as [child'|] eqn:Hput; [|discriminate].
    intros [= <-]. rewrite lookup_insert_eq. apply IH. exact Hput.
Qed.

Lemma put_in_other fs p name x fs' c :
  put_in fs p name x = Some fs' -> c <> name ->
  get fs' (p ++ [c]) = get fs (p ++ [c]).
Proof.
  revert fs fs'. induction p as [|a p IH]; intros fs fs'; cbn [put_in app get].
  - destruct fs as [d|m]; [discriminate|]. intros [= <-] Hne.
    rewrite lookup_insert_ne by congruence. reflexivity.
  - destruct fs as [d|m]; [discriminate|].
    destruct (m !! a) as [child|] eqn:Ha; [|discriminate].
    destruct (put_in child p name x) as [child'|] eqn:Hput; [|discriminate].
    intros [= <-] Hne. rewrite lookup_insert_eq. apply IH; assumption.
Qed.

Lemma mkdir_parents_is_dir fs p fs' :
  mkdir_parents fs p = Ok fs' -> is_dir fs' p.
Proof.
  revert fs fs'. induction p as [|c p IH]; intros fs fs'.
  - destruct fs as [d|m]; cbn [mkdir_parents]; [discriminate|].
    intros [= <-]. exists m. reflexivity.
  - destruct fs as [d|m]; cbn [mkdir_parents]; [discriminate|].
    destruct (mkdir_parents _ p) as [child'|] eqn:Hchild; cbn [bind]; [|discriminate].
    intros [= <-]. unfold is_dir. cbn [get]. rewrite lookup_insert_eq.
    apply (IH _ _ Hchild).
Qed.

Lemma mkdir_parents_again fs p fs' :
  mkdir_parents fs p = Ok fs' -> mkdir_parents fs' p = Ok fs'.
Proof.
  revert fs fs'. induction p as [|c p IH]; intros fs fs'.
  - destruct fs as [d|m]; cbn [mkdir_parents]; [discriminate|].
    intros [= <-]. reflexivity.
  - destruct fs as [d|m]; cbn [mkdir_parents]; [discriminate|].
    destruct (mkdir_parents _ p) as [child'|] eqn:Hchild; cbn [bind]; [|discriminate].
    intros [= <-]. cbn [mkdir_parents]. rewrite lookup_insert_eq.
    rewrite (IH _ _ Hchild). cbn [bind]. rewrite insert_insert_eq. reflexivity.
Qed.

Lemma mkdir_parents_other fs p name fs' c n :
  mkdir_parents fs (p ++ [name]) = Ok fs' -> c <> name ->
  get fs (p ++ [c]) = Some n -> get fs' (p ++ [c]) = Some n.
Proof.
  revert fs fs'. induction p as [|a p IH]; intros fs fs'.
  - destruct fs as [d|m]; cbn [app mkdir_parents get]; [discriminate|].
    destruct (m !! name) as [[d|m']|]; cbn [bind]; try discriminate;
      intros [= <-] Hne; rewrite lookup_insert_ne by congruence; auto.
  - destruct fs as [d|m]; cbn [app mkdir_parents get]; [discriminate|].
    match goal with
    | |- context [mkdir_parents ?x (p ++ [name])] =>
        destruct (mkdir_parents x (p ++ [name])) as [child'|] eqn:Hchild
    end; cbn [bind]; [|discriminate].
    intros [= <-] Hne. rewrite lookup_insert_eq.
    destruct (m !! a) as [child|]; [|discriminate].
    apply (IH _ _ Hchild Hne).
Qed.

(** One turn of the copy loop leaves the file system as it was or leaves
    the profile directory with an entry. *)
Lemma copy_item_progress src dst name fs r fs' :
  copy_item src dst name fs = (r, fs') -> fs' = fs \/ nonempty_dir fs' dst.
Proof.
  unfold copy_item, copytree, copy2.
  destruct (get fs (src ++ [name])) as [[data|entries]|];
    destruct (exists_ fs (dst ++ [name]));
    try (intros [= <- <-]; left; reflexivity).
  - destruct (put_in fs dst name (File data)) as [fs2|] eqn:Hput;
      intros [= <- <-]; [right|left; reflexivity].
    apply put_in_get in Hput as (m & _ & Hm). exists (<[name := File data]> m).
    split; [exact Hm|apply insert_non_empty].
  - destruct (mkdir_parents fs (dst ++ [name])) as [fs1|] eqn:Hmk;
      [|intros [= <- <-]; left; reflexivity].
    destruct (put_in fs1 dst name (Dir entries)) as [fs2|] eqn:Hput;
      intros [= <- <-]; right.
    + apply put_in_get in Hput as (m & _ & Hm). exists (<[name := Dir entries]> m).
      split; [exact Hm|apply insert_non_empty].
    + apply mkdir_parents_is_dir in Hmk as [m Hm].
      apply nonempty_dir_of_child in Hm. exact Hm.
Qed.

Lemma copy_item_keeps_nonempty src dst name fs r fs' :
  copy_item src dst name fs = (r, fs') -> nonempty_dir fs dst -> nonempty_dir fs' dst.
Proof.
  intros H Hne. apply copy_item_progress in H as [->|H]; assumption.
Qed.

Lemma copy_items_progress src dst names fs r fs' :
  copy_items src dst names fs = (r, fs') -> fs' = fs \/ nonempty_dir fs' dst.
Proof.
  revert fs. induction names as [|name rest IH]; intros fs; cbn [copy_items].
  - intros [= <- <-]. left. reflexivity.
  - destruct (copy_item src dst name fs) as [[[]|e] fs1] eqn:Hitem.
    + intros Hrest. apply copy_item_progress in Hitem as [->|Hne]; [eauto|].
      right. clear IH. revert fs1 Hne Hrest.
      induction rest as [|name' rest IH']; intros fs1 Hne; cbn [copy_items].
      * intros [= <- <-]. exact Hne.
      * destruct (copy_item src dst name' fs1) as [[[]|e] fs2] eqn:Hitem'.
        -- apply IH'. eapply copy_item_keeps_nonempty; eassumption.
        -- intros [= <- <-]. eapply copy_item_keeps_nonempty; eassumption.
    + intros [= <- <-]. eapply copy_item_progress. exact Hitem.
Qed.

Lemma copy_source_profile_progress browser_type dst fs r fs' :
  copy_source_profile browser_type dst fs = (r, fs') ->
  fs' = fs \/ nonempty_dir fs' dst.
Proof.
  unfold copy_source_profile.
  destruct (exists_ fs _); [|intros [= <- <-]; left; reflexivity].
  destruct (any_iterdir fs _) as [[|]|]; try (intros [= <- <-]; left; reflexivity).
  destruct (iterdir fs _) as [entries|]; [|intros [= <- <-]; left; reflexivity].
  apply copy_items_progress.
Qed.

Lemma nonempty_dir_not_absent_or_empty fs p :
  nonempty_dir fs p -> absent_or_empty fs p = Ok false.
Proof.
  intros (m & Hget & Hne). unfold absent_or_empty, exists_, any_iterdir, iterdir.
  rewrite Hget. cbn [bind].
  destruct (map_to_list m) as [|entry entries] eqn:Hl; [|reflexivity].
  apply map_to_list_empty_iff in Hl. contradiction.
Qed.

Lemma auto_init_unfold instance_name browser_type fs :
  auto_init_instance_profile instance_name browser_type fs =
  match absent_or_empty fs (MULTI_INSTANCE_PROFILES_DIR ++ [instance_name; browser_type]) with
  | Raise e => (Raise e, fs)
  | Ok false => (Ok (MULTI_INSTANCE_PROFILES_DIR ++ [instance_name; browser_type]), fs)
  | Ok true =>
      match mkdir_parents fs (MULTI_INSTANCE_PROFILES_DIR ++ [instance_name; browser_type]) with
      | Raise e => (Raise e, fs)
      | Ok fs1 =>
          match copy_source_profile browser_type
                  (MULTI_INSTANCE_PROFILES_DIR ++ [instance_name; browser_type]) fs1 with
          | (Ok _, fs2) =>
              (Ok (MULTI_INSTANCE_PROFILES_DIR ++ [instance_name; browser_type]), fs2)
          | (Raise e, fs2) => (Raise e, fs2)
          end
      end
  end.
Proof. reflexivity. Qed.

Lemma auto_init_again instance_name browser_type fs :
  snd (auto_init_instance_profile instance_name browser_type
         (snd (auto_init_instance_profile instance_name browser_type fs)))
  = snd (auto_init_instance_profile instance_name browser_type fs).
Proof.
  assert (Hfix : forall fs0 r,
    auto_init_instance_profile instance_name browser_type fs0 = (r, fs0) ->
    snd (auto_init_instance_profile instance_name browser_type
           (snd (auto_init_instance_profile instance_name browser_type fs0)))
    = snd (auto_init_instance_profile instance_name browser_type fs0)).
  { intros fs0 r H. rewrite H. cbn [snd]. rewrite H. reflexivity. }
  pose proof (auto_init_unfold instance_name browser_type fs) as Hrun.
  destruct (absent_or_empty fs _) as [[|]|] eqn:Hfirst;
    [|exact (Hfix _ _ Hrun)..].
  destruct (mkdir_parents fs _) as [fs1|] eqn:Hmk; [|exact (Hfix _ _ Hrun)].
  pose proof (mkdir_parents_again _ _ _ Hmk) as Hmk1.
  destruct (copy_source_profile browser_type _ fs1) as [r fs2] eqn:Hcopy.
  assert (Hsnd : snd (auto_init_instance_profile instance_name browser_type fs) = fs2)
    by (rewrite Hrun; destruct r; reflexivity).
  rewrite Hsnd. rewrite auto_init_unfold.
  destruct (copy_source_profile_progress _ _ _ _ _ Hcopy) as [->|Hne].
  - destruct (absent_or_empty fs1 _) as [[|]|]; try reflexivity.
    rewrite Hmk1, Hcopy. destruct r; reflexivity.
  - rewrite (nonempty_dir_not_absent_or_empty _ _ Hne). reflexivity.
Qed.

Lemma auto_init_keeps_children instance_name browser_type fs child n :
  get fs ((MULTI_INSTANCE_PROFILES_DIR ++ [instance_name; browser_type]) ++ [child])
    = Some n ->
  snd (auto_init_instance_profile instance_name browser_type fs) = fs.
Proof.
  intros H. rewrite auto_init_unfold.
  rewrite (nonempty_dir_not_absent_or_empty _ _ (nonempty_dir_of_child _ _ _ _ H)).
  reflexivity.
Qed.

Lemma exists_child fs p c n : get fs (p ++ [c]) = Some n -> exists_ fs (p ++ [c]) = true.
Proof. unfold exists_. intros ->. reflexivity. Qed.

Lemma copy_item_keeps_children src dst name fs child n :
  get fs (dst ++ [child]) = Some n ->
  get (snd (copy_item src dst name fs)) (dst ++ [child]) = Some n.
Proof.
  intros Hchild. unfold copy_item, copytree, copy2.
  destruct (String.eqb_spec name child) as [->|Hne].
  - rewrite (exists_child _ _ _ _ Hchild).
    destruct (get fs (src ++ [child])) as [[|]|]; exact Hchild.
  - assert (Hne' : child <> name) by congruence.
    destruct (get fs (src ++ [name])) as [[data|entries]|];
      destruct (exists_ fs (dst ++ [name])); try exact Hchild.
    + destruct (put_in fs dst name (File data)) as [fs2|] eqn:Hput; [|exact Hchild].
      cbn [snd]. rewrite (put_in_other _ _ _ _ _ _ Hput Hne'). exact Hchild.
    + destruct (mkdir_parents fs (dst ++ [name])) as [fs1|] eqn:Hmk; [|exact Hchild].
      pose proof (mkdir_parents_other _ _ _ _ _ _ Hmk Hne' Hchild) as Hchild1.
      destruct (put_in fs1 dst name (Dir entries)) as [fs2|] eqn:Hput; [|exact Hchild1].
      cbn [snd]. rewrite (put_in_other _ _ _ _ _ _ Hput Hne'). exact Hchild1.
Qed.

Lemma copy_items_keeps_children src dst names fs child n :
  get fs (dst ++ [child]) = Some n ->
  get (snd (copy_items src dst names fs)) (dst ++ [child]) = Some n.
Proof.
  revert fs. induction names as [|name rest IH]; intros fs Hchild; cbn [copy_items].
  - exact Hchild.
  - pose proof (copy_item_keeps_children src dst name fs child n Hchild) as H1.
    destruct (copy_item src dst name fs) as [[[]|e] fs1]; cbn [snd] in *.
    + apply IH. exact H1.
    + exact H1.
Qed.

(** C8. [auto_init_instance_profile] is idempotent: called again on the
    file system a first call leaves behind, it changes nothing (whether the
    calls return or raise), for every instance name and engine type.  It
    never overwrites an entry of the profile directory: an entry that exists
    before the call is the same after it, and the copy loop itself leaves
    every entry of the destination as it is, whatever the template holds
    under that name. *)
Theorem auto_init_instance_profile_idempotent
    (instance_name browser_type : string) (fs : node) :
  let run := auto_init_instance_profile instance_name browser_type in
  let profile_dir := MULTI_INSTANCE_PROFILES_DIR ++ [instance_name; browser_type] in
  snd (run (snd (run fs))) = snd (run fs) /\
  (forall child n,
     get fs (profile_dir ++ [child]) = Some n ->
     get (snd (run fs)) (profile_dir ++ [child]) = Some n) /\
  (forall names fs0 child n,
     get fs0 (profile_dir ++ [child]) = Some n ->
     get (snd (copy_items (source_profile_of browser_type) profile_dir names fs0))
         (profile_dir ++ [child]) = Some n).
Proof.
  intros run profile_dir. split; [apply auto_init_again|]. split.
  - intros child n H. unfold run.
    rewrite (auto_init_keeps_children _ _ _ _ _ H). exact H.
  - intros names fs0 child n H. apply copy_items_keeps_children. exact H.
Qed.

Definition template_profile : node :=
  Dir {[ "Cookies"%string := File [1; 2]%N;
         "Default"%string := Dir {[ "Preferences"%string := File [3]%N ]} ]}.

Definition under_skill_dir (entries : gmap string node) : node :=
  Dir {[ ".claude"%string :=
    Dir {[ "skills"%string := Dir {[ "notebooklm"%string := Dir entries ]} ]} ]}.

(** Only the Chrome template exists. *)
Definition fs_fresh : node :=
  under_skill_dir {[ "chrome_profile"%string := template_profile ]}.

(** The instance [nb_01] already has a cookie file of its own, which
    differs from the template's. *)
Definition fs_used : node :=
  under_skill_dir
    {[ "chrome_profile"%string := template_profile;
       "profiles"%string :=
         Dir {[ "nb_01"%string :=
           Dir {[ "chrome"%string := Dir {[ "Cookies"%string := File [9]%N ]} ]} ]} ]}.

Definition nb_01_chrome : path :=
  MULTI_INSTANCE_PROFILES_DIR ++ ["nb_01"; "chrome"]%string.

Lemma auto_init_instance_profile_idempotent_witness :
  get fs_used (nb_01_chrome ++ ["Cookies"%string]) = Some (File [9]%N) /\
  get (snd (auto_init_instance_profile "nb_01" "chrome" fs_used))
      (nb_01_chrome ++ ["Cookies"%string]) = Some (File [9]%N) /\
  get (snd (copy_items (source_profile_of "chrome") nb_01_chrome
              ["Cookies"; "Default"]%string fs_used))
      (nb_01_chrome ++ ["Cookies"%string]) = Some (File [9]%N).
Proof.
  assert (H : get fs_used (nb_01_chrome ++ ["Cookies"%string]) = Some (File [9]%N))
    by (vm_compute; reflexivity).
  split; [exact H|]. split.
  - exact (proj1 (proj2 (auto_init_instance_profile_idempotent "nb_01" "chrome" fs_used))
             "Cookies"%string (File [9]%N) H).
  - exact (proj2 (proj2 (auto_init_instance_profile_idempotent "nb_01" "chrome" fs_used))
             ["Cookies"; "Default"]%string fs_used "Cookies"%string (File [9]%N) H).
Defined.

(** First use: the profile directory is created and receives the
    template's entries. *)
Example auto_init_copies_template :
  let fs' := snd (auto_init_instance_profile "nb_01" "chrome" fs_fresh) in
  get fs' nb_01_chrome = Some template_profile /\
  get fs' ISOLATED_CHROME_PROFILE = Some template_profile.
Proof. vm_compute. split; reflexivity. Qed.

(** The merge loop run on a profile that has its own cookie file: the file
    stays, the missing directory is copied. *)
Example copy_items_merges :
  let fs' := snd (copy_items (source_profile_of "chrome") nb_01_chrome
                    ["Cookies"; "Default"]%string fs_used) in
  get fs' (nb_01_chrome ++ ["Cookies"%string]) = Some (File [9]%N) /\
  get fs' (nb_01_chrome ++ ["Default"; "Preferences"]%string) = Some (File [3]%N).
Proof. vm_compute. split; reflexivity. Qed.

(** A profile directory that holds anything at all receives nothing from
    the template. *)
Example auto_init_skips_used_profile :
  auto_init_instance_profile "nb_01" "chrome" fs_used = (Ok nb_01_chrome, fs_used).
Proof. vm_compute. reflexivity. Qed.

End Profile.

(** ** Generation completion detector: phases 2 to 4 of [smart_chat] *)

Module Chat.

Import Page.

Definition stop_btn_selectors : list string :=
  [("button:has-text(" ++ quoted "停止生成" ++ ")")%string;
   ("button:has-text(" ++ quoted "Stop generating" ++ ")")%string;
   ("button:has-text(" ++ quoted "Stop" ++ ")")%string;
   ("[aria-label*=" ++ quoted "停止生成" ++ "]")%string].

Definition loading_selectors : list string :=
  [".loading-indicator"%string;
   ("[class*=" ++ quoted "loading" ++ "]")%string;
   ("[class*=" ++ quoted "spinner" ++ "]")%string;
   ("[class*=" ++ quoted "generating" ++ "]")%string].

Definition response_selectors : list string :=
  [("[data-message-role=" ++ quoted "assistant" ++ "]")%string;
   ".assistant-message"%string;
   ".response-content"%string;
   ".message-content"%string;
   ("[class*=" ++ quoted "response" ++ "]")%string;
   ("[class*=" ++ quoted "answer" ++ "]")%string;
   ("[class*=" ++ quoted "chat-message" ++ "]")%string;
   ".chat-response"%string].

Definition Getting_the_context : pystr := lit "Getting the context".

(** [text and len(text) > n] *)
Definition longer_than (n : nat) (text : pystr) : bool :=
  match text with
  | [] => false
  | _ :: _ => (n <? List.length text)%nat
  end.

(** The scan of the messages of one selector, last message first; a
    message whose text cannot be read is skipped. *)
Fixpoint first_valid_text (msgs : list Element) : option pystr :=
  match msgs with
  | [] => None
  | msg :: rest =>
      match inner_text msg with
      | Ok t =>
          let text := strip t in
          if longer_than 30 text && negb (contains Getting_the_context text)
          then Some text
          else first_valid_text rest
      | Raise _ => first_valid_text rest
      end
  end.

Fixpoint latest_response_scan (page : Page) (selectors : list string)
    : result pystr :=
  match selectors with
  | [] => Ok []
  | sel :: rest =>
      let? messages := query_selector_all page sel in
      match first_valid_text (rev messages) with
      | Some text => Ok text
      | None => latest_response_scan page rest
      end
  end.

Definition _get_latest_response_text (page : Page) : result pystr :=
  except_Exception (latest_response_scan page response_selectors) [].

(** What one tick of the polling loop reads from the page. *)
Record observation := {
  stop_btn_visible : bool;
  loading_visible : bool;
  current_text : pystr
}.

Definition observe (page : Page) : result observation :=
  let? stop := any_visible page stop_btn_selectors in
  let? loading := any_visible page loading_selectors in
  let? text := _get_latest_response_text page in
  Ok {| stop_btn_visible := stop; loading_visible := loading; current_text := text |}.

Record poll_state := { last_text : pystr; stable_count : nat }.

Definition STABLE_THRESHOLD : nat := 5.

(** The body of the loop after the reads: the new variables, and whether
    the loop breaks. *)
Definition update (o : observation) (st : poll_state) : poll_state * bool :=
  let '(st1, done) :=
    if longer_than 50 (current_text o) then
      let st1 :=
        if pystr_eqb (current_text o) (last_text st)
        then {| last_text := last_text st; stable_count := S (stable_count st) |}
        else {| last_text := current_text o; stable_count := 0 |} in
      (st1,
       (negb (stop_btn_visible o) && negb (loading_visible o)
        && (3 <=? stable_count st1)%nat)
       || (STABLE_THRESHOLD <=? stable_count st1)%nat)
    else (st, false) in
  if done then (st1, true)
  else if stop_btn_visible o || loading_visible o
  then ({| last_text := last_text st1; stable_count := 0 |}, false)
  else (st1, false).

Definition initial_state : poll_state := {| last_text := []; stable_count := 0 |}.

Inductive loop_end :=
| Completed (now : N) (st : poll_state)
| Exhausted (now : N) (st : poll_state).

Definition end_time (e : loop_end) : N :=
  match e with Completed now _ | Exhausted now _ => now end.

Definition end_state (e : loop_end) : poll_state :=
  match e with Completed _ st | Exhausted _ st => st end.

Definition NEWLINE : uchar := uc 0x0A.

(** [s.split('\n')] *)
Fixpoint split_lines (s : pystr) : list pystr :=
  match s with
  | [] => [[]]
  | c :: s' =>
      if uchar_eqb c NEWLINE then [] :: split_lines s'
      else
        match split_lines s' with
        | line :: lines => (c :: line) :: lines
        | [] => [[c]]
        end
  end.

(** ['\n'.join(lines)] *)
Fixpoint join_lines (lines : list pystr) : pystr :=
  match lines with
  | [] => []
  | [line] => line
  | line :: rest => line ++ NEWLINE :: join_lines rest
  end.

(** The lines kept by the fallback extraction: the stripped non-blank
    lines that follow a line holding "Getting the context". *)
Fixpoint response_lines (lines : list pystr) (capture : bool) : list pystr :=
  match lines with
  | [] => []
  | line :: rest =>
      if contains Getting_the_context line then response_lines rest true
      else if capture && negb (match strip line with [] => true | _ => false end)
      then strip line :: response_lines rest capture
      else response_lines rest capture
  end.

Definition chat_area_selector : string :=
  ("[class*=" ++ quoted "chat-container" ++ "], [class*="
   ++ quoted "conversation" ++ "], main")%string.

Definition fallback_response (page : Page) : result pystr :=
  let? chat_area := query_selector page chat_area_selector in
  match chat_area with
  | None => Ok []
  | Some area =>
      let? full_text := inner_text area in
      match response_lines (split_lines full_text) false with
      | [] => Ok []
      | lines => Ok (join_lines lines)
      end
  end.

Definition save_note_selector : string :=
  ("button:has-text(" ++ quoted "保存为笔记" ++ "), button:has-text("
   ++ quoted "Save as note" ++ "), [aria-label*=" ++ quoted "保存" ++ "]")%string.
Definition copy_selector : string :=
  ("button:has-text(" ++ quoted "复制" ++ "), button:has-text("
   ++ quoted "Copy" ++ "), [aria-label*=" ++ quoted "复制" ++ "]")%string.
Definition like_selector : string :=
  ("[aria-label*=" ++ quoted "thumb_up" ++ "], button:has-text("
   ++ quoted "thumb_up" ++ ")")%string.

(** [_check_response_actions] only prints; its probes can still raise. *)
Definition _check_response_actions (page : Page) : result unit :=
  except_Exception
    (let? save_note_btn := query_selector page save_note_selector in
     let? _ := and_is_visible save_note_btn in
     let? copy_btn := query_selector page copy_selector in
     let? _ := and_is_visible copy_btn in
     let? _ := query_selector page like_selector in
     Ok tt)
    tt.

Section Session.

(** [page_at t] is the page once the script has waited [t] milliseconds in
    [wait_for_timeout] calls since it entered phase 2; the reads between two
    waits see one snapshot. *)
Variable page_at : N -> Page.

(** Phase 2: [for i in range(max_wait)], with [ticks] iterations left and
    [now] milliseconds waited so far.  The iteration that begins at [now]
    is tick number [now / 1000 + 1] and reads the page at [now + 1000];
    [wait_for_timeout] itself is taken not to raise. *)
Fixpoint wait_for_completion (ticks : nat) (now : N) (st : poll_state)
    : result loop_end :=
  match ticks with
  | O => Ok (Exhausted now st)
  | S ticks' =>
      let now' := (now + 1000)%N in
      let? o := observe (page_at now') in
      match update o st with
      | (st', true) => Ok (Completed now' st')
      | (st', false) => wait_for_completion ticks' now' st'
      end
  end.

(** Phases 3 and 4, entered at [now]. *)
Definition read_final_response (now : N) : result pystr :=
  let t1 := (now + 3000)%N in
  let? final_check_text := _get_latest_response_text (page_at t1) in
  let t2 := (t1 + 2000)%N in
  let? final_check_text2 := _get_latest_response_text (page_at t2) in
  let t3 := if pystr_eqb final_check_text final_check_text2
            then t2 else (t2 + 5000)%N in
  let? final_response := _get_latest_response_text (page_at t3) in
  match final_response with
  | _ :: _ =>
      let? _ := _check_response_actions (page_at t3) in
      Ok final_response
  | [] => fallback_response (page_at t3)
  end.

(** [smart_chat] from phase 2 on: what it returns once the question has
    been sent and the wait for the start of the generation is over. *)
Definition smart_chat_from_phase2 (max_wait : Z) : result pystr :=
  except_Exception
    (let? e := wait_for_completion (Z.to_nat max_wait) 0 initial_state in
     read_final_response (end_time e))
    [].

End Session.

(** *** Properties of one tick *)

(** The text part of [update]: the counter once the text has been compared,
    which is the value the completion test reads. *)
Definition counted (o : observation) (st : poll_state) : poll_state :=
  if longer_than 50 (current_text o) then
    if pystr_eqb (current_text o) (last_text st)
    then {| last_text := last_text st; stable_count := S (stable_count st) |}
    else {| last_text := current_text o; stable_count := 0 |}
  else st.

Definition in_progress (o : observation) : bool :=
  stop_btn_visible o || loading_visible o.

(** The completion test of a tick, made when the text is longer than 50
    characters, on the counter as the comparison of the texts leaves it. *)
Definition completion_test (o : observation) (st : poll_state) : bool :=
  longer_than 50 (current_text o)
  && ((negb (stop_btn_visible o) && negb (loading_visible o)
       && (3 <=? stable_count (counted o st))%nat)
      || (STABLE_THRESHOLD <=? stable_count (counted o st))%nat).

Lemma update_counted o st :
  update o st =
  if completion_test o st then (counted o st, true)
  else if in_progress o
  then ({| last_text := last_text (counted o st); stable_count := 0 |}, false)
  else (counted o st, false).
Proof.
  unfold completion_test, update, counted, in_progress.
  destruct (longer_than 50 (current_text o)); [|reflexivity].
  cbn [andb]. destruct (pystr_eqb (current_text o) (last_text st)); reflexivity.
Qed.

(** C3, as the code has it.  On every tick the text read, when it is longer
    than 50 characters, is compared with the last such text seen: the counter
    is incremented when the two are identical, and set to zero, the new text
    being remembered, when they differ.  A tick with no text or a text of at
    most 50 characters leaves the counter and the remembered text as they
    are.  The completion test of the tick reads these values, and they are
    the values the tick ends with when it completes and when neither the
    stop button nor a loading indicator shows. *)
Theorem stability_counter_rule (o : observation) (st : poll_state) :
  let at_test := counted o st in
  (longer_than 50 (current_text o) = true -> current_text o = last_text st ->
     last_text at_test = last_text st /\
     stable_count at_test = S (stable_count st)) /\
  (longer_than 50 (current_text o) = true -> current_text o <> last_text st ->
     last_text at_test = current_text o /\ stable_count at_test = 0%nat) /\
  (longer_than 50 (current_text o) = false -> at_test = st) /\
  snd (update o st) = completion_test o st /\
  (snd (update o st) = true -> fst (update o st) = at_test) /\
  (in_progress o = false -> fst (update o st) = at_test).
Proof.
  cbv zeta. split; [|split; [|split; [|split; [|split]]]].
  - intros Hlong Heq. unfold counted. rewrite Hlong, Heq, pystr_eqb_refl.
    split; reflexivity.
  - intros Hlong Hne. unfold counted. rewrite Hlong.
    apply pystr_eqb_neq in Hne. rewrite Hne. split; reflexivity.
  - intros Hshort. unfold counted. rewrite Hshort. reflexivity.
  - rewrite update_counted.
    destruct (completion_test o st); [reflexivity|].
    destruct (in_progress o); reflexivity.
  - rewrite update_counted.
    destruct (completion_test o st); [reflexivity|].
    destruct (in_progress o); discriminate.
  - intros Hquiet. rewrite update_counted, Hquiet.
    destruct (completion_test o st); reflexivity.
Qed.

Definition answer_A : pystr :=
  lit "The first draft of the answer, which is long enough to count.".
Definition answer_F : pystr :=
  lit "The final answer, which the page goes on showing unchanged.".

Definition answer_element (text : pystr) : Element :=
  {| el_id := 20; is_visible := Ok true; inner_text := Ok text |}.
Definition stop_button : Element :=
  {| el_id := 21; is_visible := Ok true; inner_text := Ok (lit "Stop") |}.

(** A chat page showing [text] as the last answer, and the stop button
    when [generating]. *)
Definition chat_page (generating : bool) (text : pystr) : Page :=
  {| query_selector_all := fun sel =>
       if String.eqb sel (nth 0 response_selectors EmptyString) then
         match text with [] => Ok [] | _ => Ok [answer_element text] end
       else if generating && String.eqb sel (nth 2 stop_btn_selectors EmptyString)
       then Ok [stop_button]
       else Ok [] |}.

Lemma stability_counter_rule_witness :
  let o := {| stop_btn_visible := false; loading_visible := false;
              current_text := answer_A |} in
  let blank := {| stop_btn_visible := false; loading_visible := false;
                  current_text := [] |} in
  let st := {| last_text := answer_A; stable_count := 1 |} in
  longer_than 50 (current_text o) = true /\
  current_text o = last_text st /\
  stable_count (counted o st) = 2%nat /\
  in_progress o = false /\
  fst (update o st) = counted o st /\
  longer_than 50 (current_text blank) = false /\
  counted blank st = st.
Proof.
  intros o blank st.
  assert (H1 : longer_than 50 (current_text o) = true) by reflexivity.
  assert (H2 : current_text o = last_text st) by reflexivity.
  assert (H3 : in_progress o = false) by reflexivity.
  assert (H4 : longer_than 50 (current_text blank) = false) by reflexivity.
  pose proof (stability_counter_rule o st) as (Hsame & _ & _ & _ & _ & Hquiet).
  pose proof (stability_counter_rule blank st) as (_ & _ & Hshort & _).
  split; [exact H1|]. split; [exact H2|].
  split; [exact (proj2 (Hsame H1 H2))|]. split; [exact H3|].
  split; [exact (Hquiet H3)|]. split; [exact H4|exact (Hshort H4)].
Defined.

(** The answer shows for three ticks, cannot be read on the fourth, and
    shows again from the fifth. *)
Definition flickering (t : N) : Page :=
  if (t =? 4000)%N then chat_page false [] else chat_page false answer_A.

(** C3, as stated, fails on [flickering]: the fourth tick reads no text
    and no in-progress signal, yet the counter stays at 2 instead of going
    back to zero; and the fifth tick, whose text differs from that of the
    tick before it, raises the counter to 3, which ends the wait. *)
Lemma empty_read_keeps_stability_counter :
  observe (flickering 4000)
    = Ok {| stop_btn_visible := false; loading_visible := false; current_text := [] |} /\
  wait_for_completion flickering 3 0 initial_state
    = Ok (Exhausted 3000 {| last_text := answer_A; stable_count := 2 |}) /\
  wait_for_completion flickering 4 0 initial_state
    = Ok (Exhausted 4000 {| last_text := answer_A; stable_count := 2 |}) /\
  wait_for_completion flickering 480 0 initial_state
    = Ok (Completed 5000 {| last_text := answer_A; stable_count := 3 |}).
Proof. vm_compute. repeat split; reflexivity. Qed.

(** *** Properties of the loop *)

(** Condition (a) at a tick that reads [o] with the variables at [st]: a
    text longer than 50 characters, no stop button, no loading indicator,
    and a counter, once the text is compared, of 3 at least. *)
Definition condition_a (o : observation) (st : poll_state) : bool :=
  longer_than 50 (current_text o)
  && negb (stop_btn_visible o) && negb (loading_visible o)
  && (3 <=? stable_count (counted o st))%nat.

Lemma counted_bound o st :
  (stable_count (counted o st) <= S (stable_count st))%nat.
Proof.
  unfold counted. destruct (longer_than 50 _); [|lia].
  destruct (pystr_eqb _ _); cbn [stable_count]; lia.
Qed.

(** Between two ticks the counter is 2 at most, so the threshold of 5
    never decides: the loop breaks exactly under condition (a). *)
Lemma update_breaks_iff o st :
  (stable_count st <= 2)%nat ->
  update o st =
  if condition_a o st then (counted o st, true)
  else (fst (update o st), false).
Proof.
  intros Hst. pose proof (counted_bound o st) as Hc.
  rewrite update_counted. unfold condition_a, completion_test.
  assert (H5 : (STABLE_THRESHOLD <=? stable_count (counted o st))%nat = false)
    by (unfold STABLE_THRESHOLD; apply Nat.leb_gt; lia).
  rewrite H5, orb_false_r.
  rewrite <- !andb_assoc.
  destruct (longer_than 50 (current_text o)); cbn [andb];
    [|destruct (in_progress o); reflexivity].
  destruct (negb (stop_btn_visible o) && (negb (loading_visible o)
            && (3 <=? stable_count (counted o st))%nat)); [reflexivity|].
  destruct (in_progress o); reflexivity.
Qed.

Lemma update_keeps_bound o st :
  (stable_count st <= 2)%nat -> condition_a o st = false ->
  (stable_count (fst (update o st)) <= 2)%nat.
Proof.
  intros Hst Ha. pose proof (counted_bound o st) as Hc.
  rewrite update_counted. unfold condition_a, completion_test, in_progress in *.
  assert (H5 : (STABLE_THRESHOLD <=? stable_count (counted o st))%nat = false)
    by (unfold STABLE_THRESHOLD; apply Nat.leb_gt; lia).
  rewrite H5, orb_false_r.
  destruct (longer_than 50 (current_text o)) eqn:Hlong; cbn [andb] in *.
  - destruct (stop_btn_visible o), (loading_visible o); cbn [negb andb orb fst stable_count] in *;
      try lia.
    rewrite Ha. cbn [fst]. apply Nat.leb_gt in Ha. lia.
  - unfold counted in *. rewrite Hlong in *.
    destruct (stop_btn_visible o || loading_visible o); cbn [fst stable_count]; lia.
Qed.

Section Stream.

Variable page_at : N -> Page.

(** [obs k] is what tick [k] reads, for [k] from 1. *)
Variable obs : nat -> observation.
Hypothesis page_obs :
  forall k, observe (page_at (1000 * N.of_nat k)) = Ok (obs k).






Lemma last_text_counted o st :
  longer_than 50 (current_text o) = true ->
  last_text (counted o st) = current_text o.
Proof.
  intros Hlong. unfold counted. rewrite Hlong.
  destruct (pystr_eqb _ _) eqn:Heq; [|reflexivity].
  apply pystr_eqb_eq in Heq. cbn [last_text]. congruence.
Qed.




End Stream.

Definition answer_B : pystr :=
  lit "A second draft of the answer, again long enough to count.".

(** The answer is rewritten on every tick up to the tenth and stays as it
    is from then on. *)
Definition rewritten_until_10 (t : N) : Page :=
  if (t <? 10000)%N then
    if N.even (t / 1000) then chat_page false answer_A
    else chat_page false answer_B
  else chat_page false answer_F.




Example rewritten_until_10_completes_at_13 :
  wait_for_completion rewritten_until_10 480 0 initial_state
  = Ok (Completed 13000 {| last_text := answer_F; stable_count := 3 |}).
Proof. vm_compute. reflexivity. Qed.




(** The stop button stays visible while the text no longer changes: the
    counter is set back to zero at the end of every tick, the threshold of 5
    is never reached, and the loop runs for the whole of [max_wait]. *)
Example stop_button_stuck_never_completes :
  wait_for_completion (fun _ => chat_page true answer_F) 480 0 initial_state
  = Ok (Exhausted 480000 {| last_text := answer_F; stable_count := 0 |}).
Proof. vm_compute. reflexivity. Qed.

(** *** Properties of the value returned *)



(** The answer shows, complete, from the start. *)
Definition steady (t : N) : Page := chat_page false answer_A.



End Chat.

(** * Further properties of the coordination code *)

(** ** Instance keys as directory names *)

Module ResolverFacts.

Import Resolver.

(** Characters that cannot take part in a plain directory name: the path
    separators, NUL, the full stop and white space. *)
Definition unsafe_in_name (c : uchar) : bool :=
  (code c =? 0x2F)%N || (code c =? 0x5C)%N || (code c =? 0)%N
  || (code c =? 0x2E)%N || isspace (code c).

Lemma digit_safe c : is_digit c = true -> unsafe_in_name c = false.
Proof.
  unfold is_digit, unsafe_in_name. intros Hd.
  destruct (isspace (code c)) eqn:Hs.
  { rewrite (separator_not_decimal (code c) (or_introl Hs)) in Hd. discriminate. }
  rewrite orb_false_r.
  destruct (N.eqb_spec (code c) 0x2F) as [E|_];
    [rewrite E in Hd; vm_compute in Hd; discriminate|].
  destruct (N.eqb_spec (code c) 0x5C) as [E|_];
    [rewrite E in Hd; vm_compute in Hd; discriminate|].
  destruct (N.eqb_spec (code c) 0) as [E|_];
    [rewrite E in Hd; vm_compute in Hd; discriminate|].
  destruct (N.eqb_spec (code c) 0x2E) as [E|_];
    [rewrite E in Hd; vm_compute in Hd; discriminate|].
  reflexivity.
Qed.

Lemma lower_hex_safe c : is_lower_hex c = true -> unsafe_in_name c = false.
Proof. unfold is_lower_hex, unsafe_in_name, isspace. lia. Qed.

Lemma nb_key_safe rest :
  Forall (fun c => unsafe_in_name c = false) rest ->
  Forall (fun c => unsafe_in_name c = false) (lit "nb_" ++ rest).
Proof. intros H. apply Forall_app. split; [repeat constructor|exact H]. Qed.

(** Every key [notebook_to_instance] returns is ["nb_"] followed by at
    least one character, and holds no path separator, NUL, full stop or
    white space.  A key made from the digest has 11 characters; a key made
    from a numeric prefix is as long as the prefix makes it.  The call
    returns a key for every name but one that has no numeric prefix and
    cannot be encoded. *)
Theorem instance_key_is_directory_name (name : pystr) :
  (forall key, notebook_to_instance name = Ok key ->
     (exists rest, key = lit "nb_" ++ rest /\ rest <> []) /\
     Forall (fun c => unsafe_in_name c = false) key /\
     ((exists d, has_numeric_prefix name d /\
                 List.length key = (3 + List.length d)%nat) \/
      ((forall d, ~ has_numeric_prefix name d) /\ List.length key = 11%nat))) /\
  ((exists key, notebook_to_instance name = Ok key) <->
   (exists d, has_numeric_prefix name d) \/ encodable name).
Proof.
  unfold notebook_to_instance, md5_hexdigest_of.
  destruct (match_numeric_prefix name) as [d|] eqn:Hm.
  - apply match_numeric_prefix_sound in Hm as Hprefix.
    destruct Hprefix as (Hne & Hd & _). split.
    + intros key [= <-].
      split; [exists d; split; [reflexivity|exact Hne]|]. split.
      * apply (nb_key_safe d).
        eapply Forall_impl; [exact Hd|]. intros c Hc. apply digit_safe, Hc.
      * left. exists d. split; [apply match_numeric_prefix_sound, Hm|].
        change (List.length (lit "nb_" ++ d) = (3 + List.length d)%nat).
        rewrite length_app. reflexivity.
    + split; [intros _; left; exists d; apply match_numeric_prefix_sound, Hm|eauto].
  - assert (Hno : forall d, ~ has_numeric_prefix name d).
    { intros d Hd. apply match_numeric_prefix_complete in Hd. congruence. }
    split.
    + destruct (encode name) as [bytes|e]; cbn [bind]; [|discriminate].
      intros key [= <-].
      pose proof (md5_hexdigest_length bytes) as Hlen.
      pose proof (md5_hexdigest_lower_hex bytes) as Hhex.
      split; [|split].
      * exists (firstn 8 (md5_hexdigest bytes)). split; [reflexivity|].
        intros Hnil. apply (f_equal (@List.length uchar)) in Hnil.
        rewrite length_firstn, Hlen in Hnil. discriminate.
      * apply (nb_key_safe (firstn 8 (md5_hexdigest bytes))).
        rewrite <- (firstn_skipn 8 (md5_hexdigest bytes)) in Hhex.
        apply Forall_app in Hhex as [Hhex _].
        eapply Forall_impl; [exact Hhex|]. intros c Hc. apply lower_hex_safe, Hc.
      * right. split; [exact Hno|].
        change (List.length (lit "nb_" ++ firstn 8 (md5_hexdigest bytes)) = 11%nat).
        rewrite length_app, length_firstn, Hlen. reflexivity.
    + split.
      * intros [key Hkey]. right.
        destruct (encode name) as [bytes|e] eqn:Hbytes; [|discriminate].
        apply (encode_Ok_encodable name bytes Hbytes).
      * intros [[d Hd]|Henc]; [destruct (Hno d Hd)|].
        rewrite (encode_encodable name Henc). cbn [bind]. eauto.
Qed.

Lemma instance_key_is_directory_name_witness :
  notebook_to_instance (lit "Untitled Project") = Ok (lit "nb_328776f6") /\
  Forall (fun c => unsafe_in_name c = false) (lit "nb_328776f6") /\
  ~ (exists key, notebook_to_instance undecodable_name = Ok key).
Proof.
  assert (H : notebook_to_instance (lit "Untitled Project") = Ok (lit "nb_328776f6"))
    by (vm_compute; reflexivity).
  split; [exact H|]. split.
  - exact (proj1 (proj2 (proj1 (instance_key_is_directory_name
                                  (lit "Untitled Project")) _ H))).
  - intros Hkey.
    apply (proj2 (instance_key_is_directory_name undecodable_name)) in Hkey
      as [[d Hd]|Henc].
    + apply match_numeric_prefix_complete in Hd. discriminate Hd.
    + apply Forall_inv in Henc. discriminate Henc.
Defined.

(** Two names that both begin with a numeric prefix get the same key
    exactly when the prefixes are the same digits; what follows the
    separator plays no part. *)
Theorem numeric_prefix_decides_key (name1 name2 d1 d2 : pystr) :
  has_numeric_prefix name1 d1 ->
  has_numeric_prefix name2 d2 ->
  (notebook_to_instance name1 = notebook_to_instance name2 <-> d1 = d2).
Proof.
  intros H1 H2. unfold notebook_to_instance.
  rewrite (match_numeric_prefix_complete _ _ H1), (match_numeric_prefix_complete _ _ H2).
  split; [intros [= H]; exact H|intros ->; reflexivity].
Qed.

Lemma numeric_prefix_decides_key_witness :
  has_numeric_prefix (lit "01. Research Notes") (lit "01") /\
  has_numeric_prefix (lit "02 Budget") (lit "02") /\
  notebook_to_instance (lit "01. Research Notes")
    <> notebook_to_instance (lit "02 Budget").
Proof.
  assert (H1 : has_numeric_prefix (lit "01. Research Notes") (lit "01")).
  { split; [discriminate|]. split; [repeat constructor|].
    exists (uc 0x2E), (lit " Research Notes"). split; reflexivity. }
  assert (H2 : has_numeric_prefix (lit "02 Budget") (lit "02")).
  { split; [discriminate|]. split; [repeat constructor|].
    exists (uc 0x20), (lit "Budget"). split; reflexivity. }
  split; [exact H1|]. split; [exact H2|]. intros Heq.
  apply (proj1 (numeric_prefix_decides_key _ _ _ _ H1 H2)) in Heq. discriminate Heq.
Defined.

End ResolverFacts.

(** ** The lock loop at its edges *)

Module LockFacts.

Import Lock.

(** With a timeout of zero or less the lock is tried once: the call
    returns with the lock or ends the process at once, and never sleeps. *)
Theorem nonpositive_timeout_tries_once (w : World) (timeout : Q) (fuel : nat) :
  (timeout <= 0)%Q ->
  (time_time w 0 <= time_time w 1)%Q ->
  _acquire_lock w timeout (S fuel)
  = if others_hold w 0 then Exited 1 0 [] else Returned 0 [].
Proof.
  intros Ht Hclock. unfold _acquire_lock. cbn [poll].
  destruct (others_hold w 0); [|reflexivity].
  assert (H : Qle_bool timeout (PyFloat.float_sub (time_time w 1) (time_time w 0))
              = true).
  { apply Qle_bool_iff. apply Qle_trans with 0%Q; [exact Ht|].
    apply PyFloat.float_round_nonneg. lra. }
  rewrite H. reflexivity.
Qed.

Lemma nonpositive_timeout_tries_once_witness :
  (0 <= 0)%Q /\
  (time_time always_busy 0 <= time_time always_busy 1)%Q /\
  _acquire_lock always_busy 0 1 = Exited 1 0 [].
Proof.
  assert (H0 : (0 <= 0)%Q) by lra.
  assert (H1 : (time_time always_busy 0 <= time_time always_busy 1)%Q)
    by discriminate.
  split; [exact H0|]. split; [exact H1|].
  exact (nonpositive_timeout_tries_once always_busy 0 0 H0 H1).
Defined.

Lemma poll_longer_timeout w t t' start k sleeps fuel k' sl :
  (t <= t')%Q ->
  poll w t start k sleeps fuel = Returned k' sl ->
  poll w t' start k sleeps fuel = Returned k' sl.
Proof.
  intros Hle. revert k sleeps.
  induction fuel as [|fuel IH]; intros k sleeps; cbn [poll]; [discriminate|].
  destruct (others_hold w k); [|auto].
  destruct (Qle_bool t _) eqn:Ht; [discriminate|].
  destruct (Qle_bool t' _) eqn:Ht'.
  - apply Qle_bool_iff in Ht'.
    assert (Hc : Qle_bool t (PyFloat.float_sub (time_time w (S k)) start) = true)
      by (apply Qle_bool_iff; lra).
    congruence.
  - apply IH.
Qed.

(** A longer timeout never loses the lock: when the call returns with the
    lock at some attempt, it returns at the same attempt, after the same
    sleeps, for every timeout at least as long. *)
Theorem longer_timeout_keeps_lock (w : World) (t t' : Q) (fuel k : nat)
    (sleeps : list Q) :
  (t <= t')%Q ->
  _acquire_lock w t fuel = Returned k sleeps ->
  _acquire_lock w t' fuel = Returned k sleeps.
Proof. intros Hle. unfold _acquire_lock. apply poll_longer_timeout, Hle. Qed.

Lemma longer_timeout_keeps_lock_witness :
  (30 <= 60)%Q /\
  _acquire_lock busy_then_free 30 31 = Returned 3 [2; 2; 2]%Q /\
  _acquire_lock busy_then_free 60 31 = Returned 3 [2; 2; 2]%Q.
Proof.
  assert (H0 : (30 <= 60)%Q) by lra.
  assert (H1 : _acquire_lock busy_then_free 30 31 = Returned 3 [2; 2; 2]%Q)
    by (vm_compute; reflexivity).
  split; [exact H0|]. split; [exact H1|].
  exact (longer_timeout_keeps_lock busy_then_free 30 60 31 3 _ H0 H1).
Defined.

End LockFacts.

(** ** Selector chains when nothing is visible *)

Module PageFacts.

Import Page.

(** When no selector of the chain has a visible first match, the loop
    variable ends as whatever the last selector matched first: an invisible
    element if there is one.  [select_source_type] and
    [select_research_mode] test the variable for [None] only, so they go on
    to click that element. *)
Theorem probe_chain_without_hit (page : Page) (selectors : list string)
    (last_selector : string) (x : option Element) :
  Forall (miss page) (selectors ++ [last_selector]) ->
  probe_chain page (selectors ++ [last_selector]) x
  = query_selector page last_selector.
Proof.
  revert x. induction selectors as [|sel rest IH]; intros x Hmiss.
  - apply Forall_inv in Hmiss as (x' & Hq & Hv).
    cbn [app probe_chain]. rewrite Hq. cbn [bind]. rewrite Hv. reflexivity.
  - rewrite <- app_comm_cons in *.
    pose proof (Forall_inv Hmiss) as (x' & Hq & Hv).
    apply Forall_inv_tail in Hmiss.
    cbn [probe_chain]. rewrite Hq. cbn [bind]. rewrite Hv. apply IH, Hmiss.
Qed.

Lemma probe_chain_without_hit_witness :
  Forall (miss page_hidden_only) ([] ++ [nth 0 type_btn_selectors EmptyString]) /\
  probe_chain page_hidden_only ([] ++ [nth 0 type_btn_selectors EmptyString]) None
    = Ok (Some hidden_button).
Proof.
  assert (H : Forall (miss page_hidden_only)
                ([] ++ [nth 0 type_btn_selectors EmptyString])).
  { repeat constructor. eexists. split; reflexivity. }
  split; [exact H|].
  exact (probe_chain_without_hit page_hidden_only []
           (nth 0 type_btn_selectors EmptyString) None H).
Defined.

(** The test [search_sources] makes after its loop,
    [not search_input or not search_input.is_visible()]. *)
Definition search_input_missing (page : Page) : result bool :=
  let? search_input := search_sources_input page in
  let? visible := and_is_visible search_input in
  Ok (negb visible).

Lemma and_is_visible_after_chain page selectors x :
  and_is_visible x = Ok false ->
  (let? y := probe_chain page selectors x in and_is_visible y)
  = any_visible page selectors.
Proof.
  revert x. induction selectors as [|sel rest IH]; intros x Hx;
    cbn [probe_chain any_visible bind]; [exact Hx|].
  destruct (query_selector page sel) as [x'|e]; cbn [bind]; [|reflexivity].
  destruct (and_is_visible x') as [[|]|e] eqn:Hv; cbn [bind].
  - exact Hv.
  - apply IH, Hv.
  - reflexivity.
Qed.

(** After the selector loop of [search_sources], the re-test of the
    element it is left with fails exactly when no selector had a visible
    first match: the fallback that clicks "add source" is entered then and
    only then, and the test raises exactly when the loop would have. *)
Theorem search_input_missing_iff_no_hit (page : Page) :
  search_input_missing page
  = let? found := any_visible page search_selectors in Ok (negb found).
Proof.
  unfold search_input_missing, search_sources_input.
  rewrite <- (and_is_visible_after_chain page search_selectors None eq_refl).
  destruct (probe_chain page search_selectors None) as [y|e]; reflexivity.
Qed.

End PageFacts.

(** ** Mode detection and the actions of the search commands *)

Module SearchFacts.

Import Page Search.

(** [detect_mode] gives the source-search input priority over the chat
    input, but queries both before looking at either: the answer is
    ['source_search'] when the first match of the source-search selector is
    visible and the chat query completes, ['chat'] when the former is not
    visible and the first match of the chat selector is, and ['unknown']
    when neither is visible or the chat query raises, whatever the
    source-search input shows. *)
Theorem detect_mode_priority (page : Page) :
  (affordance_visible page source_search_selector = Ok true ->
   (exists x, query_selector page chat_input_selector = Ok x) ->
     detect_mode page = "source_search"%string) /\
  (affordance_visible page source_search_selector = Ok false ->
   affordance_visible page chat_input_selector = Ok true ->
     detect_mode page = "chat"%string) /\
  (affordance_visible page source_search_selector = Ok false ->
   affordance_visible page chat_input_selector = Ok false ->
     detect_mode page = "unknown"%string) /\
  (forall e, query_selector page chat_input_selector = Raise e ->
     detect_mode page = "unknown"%string).
Proof.
  unfold detect_mode, detect_mode_try, affordance_visible.
  destruct (query_selector page source_search_selector) as [ss|e1]; cbn [bind];
    [|repeat split; try discriminate; intros; reflexivity].
  destruct (query_selector page chat_input_selector) as [ci|e2]; cbn [bind];
    [|repeat split; try discriminate; try reflexivity;
      intros; try reflexivity; destruct H0; discriminate].
  destruct (and_is_visible ss) as [[|]|e3]; cbn [bind except_all];
    repeat split; try discriminate; try reflexivity.
  - intros _ H. rewrite H. reflexivity.
  - intros _ H. rewrite H. reflexivity.
Qed.

(** The source-search input shows but the chat query fails. *)
Definition page_chat_query_fails : Page :=
  {| query_selector_all := fun sel =>
       if String.eqb sel source_search_selector then Ok [search_box]
       else Raise Error |}.

Lemma detect_mode_priority_witness :
  affordance_visible page_chat_query_fails source_search_selector = Ok true /\
  query_selector page_chat_query_fails chat_input_selector = Raise Error /\
  detect_mode page_chat_query_fails = "unknown"%string.
Proof.
  split; [reflexivity|]. split; [reflexivity|].
  exact (proj2 (proj2 (proj2 (detect_mode_priority page_chat_query_fails)))
           Error eq_refl).
Defined.

End SearchFacts.

(** ** What the search commands click *)

Module SearchActions.

Import Page Search.

Definition save_selectors : list string :=
  [("button:has-text(" ++ quoted "保存为笔记" ++ ")")%string;
   ("button:has-text(" ++ quoted "Save as note" ++ ")")%string;
   ("button:has-text(" ++ quoted "Add to note" ++ ")")%string;
   ("button:has-text(" ++ quoted "添加到笔记" ++ ")")%string;
   ("[aria-label*=" ++ quoted "保存为笔记" ++ "]")%string;
   ("[aria-label*=" ++ quoted "Save as note" ++ "]")%string].

Definition completion_selectors : list string :=
  [("text=" ++ quoted "Fast Research 已完成")%string;
   ("text=" ++ quoted "已完成")%string;
   ("text=" ++ quoted "completed")%string;
   ".source-discovery-completed"%string].

Definition view_btn_selectors : list string :=
  [("button:has-text(" ++ quoted "查看" ++ ")")%string;
   ("button:has-text(" ++ quoted "View" ++ ")")%string;
   ("button:has-text(" ++ quoted "查看结果" ++ ")")%string;
   ("[aria-label*=" ++ quoted "查看" ++ "]")%string;
   ("[aria-label*=" ++ quoted "View" ++ "]")%string].

Section Actions.

Variable react : Action -> Page -> result unit * Page.

(** The loop shared by [save_response_as_note], [click_view_results] and
    the import and remove commands:
<<
    for sel in selectors:
        btn = self.page.query_selector(sel)
        if btn and btn.is_visible():
            btn.click()
            self.page.wait_for_timeout(ms)
            return True
>>
    [false] stands for falling out of the loop. *)
Fixpoint click_first_visible (selectors : list string) (ms : N) : M bool :=
  match selectors with
  | [] => ret false
  | sel :: rest =>
      let! btn := ask (fun p => query_selector p sel) in
      let! visible := ask (fun _ => and_is_visible btn) in
      if visible then
        match btn with
        | Some b =>
            let! _ := act react (Click (el_id b)) in
            let! _ := act react (Wait ms) in
            ret true
        | None => ret true
        end
      else click_first_visible rest ms
  end.

Definition save_response_as_note : M bool :=
  catch_Exception (click_first_visible save_selectors 2000) false.

Definition click_view_results : M bool :=
  catch_Exception
    (let! completed := ask (fun p => any_visible p completion_selectors) in
     let! _ := (if completed then ret tt else act react (Wait 5000)) in
     click_first_visible view_btn_selectors 2000)
    false.

(** *** Properties *)

Lemma bindM_inv {A B} (m : M A) (k : A -> M B) w r w' :
  bindM m k w = (r, w') ->
  (exists a w1, m w = (Ok a, w1) /\ k a w1 = (r, w')) \/
  (exists e, m w = (Raise e, w') /\ r = Raise e).
Proof.
  unfold bindM. destruct (m w) as [[a|e] w1].
  - intros H. left. exists a, w1. split; [reflexivity|exact H].
  - intros [= <- <-]. right. exists e. split; reflexivity.
Qed.

Lemma act_trace a w r w' :
  act react a w = (r, w') -> trace w' = trace w ++ [a].
Proof.
  unfold act. destruct (react a (page w)) as [r0 p]. intros [= <- <-]. reflexivity.
Qed.

Lemma click_first_visible_true selectors ms w w' :
  click_first_visible selectors ms w = (Ok true, w') ->
  exists before sel after e,
    selectors = before ++ sel :: after /\
    Forall (miss (page w)) before /\
    hit (page w) sel e /\
    trace w' = trace w ++ [Click (el_id e); Wait ms].
Proof.
  induction selectors as [|sel rest IH]; cbn [click_first_visible]; [discriminate|].
  unfold bindM at 1, ask at 1.
  destruct (query_selector (page w) sel) as [btn|e] eqn:Hq; [|discriminate].
  unfold bindM at 1, ask at 1.
  destruct (and_is_visible btn) as [[|]|e] eqn:Hv; [| |discriminate].
  - destruct btn as [b|]; [|discriminate Hv].
    intros H. apply bindM_inv in H as [([] & w1 & Hclick & H)|(e & _ & [=])].
    apply bindM_inv in H as [([] & w2 & Hwait & H)|(e & _ & [=])].
    injection H as <-.
    apply act_trace in Hclick, Hwait.
    exists [], sel, rest, b. split; [reflexivity|]. split; [constructor|].
    split; [split; assumption|].
    rewrite Hwait, Hclick, <- app_assoc. reflexivity.
  - intros H. destruct (IH H) as (before & s & after & e & -> & Hmiss & Hhit & Htr).
    exists (sel :: before), s, after, e. split; [reflexivity|].
    split; [constructor; [exists btn; split; assumption|exact Hmiss]|].
    split; assumption.
Qed.

Lemma click_first_visible_no_hit selectors ms w :
  Forall (miss (page w)) selectors ->
  click_first_visible selectors ms w = (Ok false, w).
Proof.
  induction 1 as [|sel rest (x & Hq & Hv) _ IH]; cbn [click_first_visible];
    [reflexivity|].
  unfold bindM at 1, ask at 1. rewrite Hq.
  unfold bindM at 1, ask at 1. rewrite Hv. exact IH.
Qed.

(** [save_response_as_note] returns [True] only after one click, on the
    visible first match of the first selector that has one, followed by a
    wait of 2 seconds; when no selector has a visible first match it returns
    [False] and does nothing to the page; and no Playwright error leaves
    it. *)
Theorem save_response_as_note_clicks_once (w : World) :
  (forall w', save_response_as_note w = (Ok true, w') ->
     exists before sel after e,
       save_selectors = before ++ sel :: after /\
       Forall (miss (page w)) before /\
       hit (page w) sel e /\
       trace w' = trace w ++ [Click (el_id e); Wait 2000]) /\
  (Forall (miss (page w)) save_selectors ->
     save_response_as_note w = (Ok false, w)) /\
  (forall w', save_response_as_note w <> (Raise Error, w')).
Proof.
  unfold save_response_as_note, catch_Exception. split; [|split].
  - intros w' H.
    destruct (click_first_visible save_selectors 2000 w) as [[b|[|]] w1] eqn:Hc;
      try discriminate.
    injection H as -> ->. apply click_first_visible_true, Hc.
  - intros Hmiss. rewrite (click_first_visible_no_hit _ _ _ Hmiss). reflexivity.
  - intros w'.
    destruct (click_first_visible save_selectors 2000 w) as [[b|[|]] w1];
      discriminate.
Qed.

(** [click_view_results] waits 5 seconds first unless a completion marker
    shows; it returns [True] only after one click, on the visible first
    match of the first view-button selector that has one on the page as it
    is after that wait, followed by a wait of 2 seconds. *)
Theorem click_view_results_clicks_once (w w' : World) :
  click_view_results w = (Ok true, w') ->
  exists w1 before sel after e,
    ((any_visible (page w) completion_selectors = Ok true /\ w1 = w) \/
     (any_visible (page w) completion_selectors = Ok false /\
      act react (Wait 5000) w = (Ok tt, w1))) /\
    view_btn_selectors = before ++ sel :: after /\
    Forall (miss (page w1)) before /\
    hit (page w1) sel e /\
    trace w' = trace w1 ++ [Click (el_id e); Wait 2000].
Proof.
  unfold click_view_results, catch_Exception. intros H.
  match type of H with
  | (match ?body with _ => _ end) = _ => destruct body as [[b|[|]] w2] eqn:Hbody
  end; try discriminate.
  injection H as -> ->.
  apply bindM_inv in Hbody as [(completed & w0 & Hask & Hbody)|(e & _ & [=])].
  unfold ask in Hask. injection Hask as Hcompleted <-.
  apply bindM_inv in Hbody as [([] & w1 & Hwait & Hbody)|(e & _ & [=])].
  apply click_first_visible_true in Hbody
    as (before & sel & after & e & Hsel & Hmiss & Hhit & Htr).
  exists w1, before, sel, after, e. split; [|auto].
  destruct completed.
  - left. injection Hwait as <-. auto.
  - right. auto.
Qed.

Lemma find_delete_button_spec buttons btn :
  find_delete_button buttons = Some btn ->
  In btn buttons /\ is_visible btn = Ok true /\
  exists text, inner_text btn = Ok text /\
    existsb (fun word => contains word (strip text)) delete_words = true.
Proof.
  induction buttons as [|b rest IH]; cbn [find_delete_button]; [discriminate|].
  assert (Hrest : find_delete_button rest = Some btn ->
    In btn (b :: rest) /\ is_visible btn = Ok true /\
    exists text, inner_text btn = Ok text /\
      existsb (fun word => contains word (strip text)) delete_words = true).
  { intros H. destruct (IH H) as (Hin & Hrest). split; [right; exact Hin|exact Hrest]. }
  destruct (is_visible b) as [[|]|e] eqn:Hv; try exact Hrest.
  destruct (inner_text b) as [t|e] eqn:Ht; try exact Hrest.
  destruct (existsb _ delete_words) eqn:Hw; try exact Hrest.
  intros [= <-]. split; [left; reflexivity|]. split; [exact Hv|].
  exists t. split; [exact Ht|exact Hw].
Qed.

Definition extends (w w' : World) : Prop := exists t, trace w' = trace w ++ t.

Lemma extends_refl w : extends w w.
Proof. exists []. rewrite app_nil_r. reflexivity. Qed.

Lemma extends_trans w1 w2 w3 : extends w1 w2 -> extends w2 w3 -> extends w1 w3.
Proof.
  intros [t1 H1] [t2 H2]. exists (t1 ++ t2). rewrite H2, H1, app_assoc. reflexivity.
Qed.

Lemma act_extends a w r w' : act react a w = (r, w') -> extends w w'.
Proof. intros H. exists [a]. apply act_trace in H. exact H. Qed.

Lemma confirm_dialog_extends selectors w r w' :
  confirm_dialog react selectors w = (r, w') -> extends w w'.
Proof.
  induction selectors as [|sel rest IH]; cbn [confirm_dialog].
  - intros [= <- <-]. apply extends_refl.
  - unfold bindM at 1, ask at 1.
    destruct (query_selector (page w) sel) as [btn|e];
      [|intros [= <- <-]; apply extends_refl].
    unfold bindM at 1, ask at 1.
    destruct (and_is_visible btn) as [[|]|e];
      [| exact IH |intros [= <- <-]; apply extends_refl].
    destruct btn as [b|]; [|intros [= <- <-]; apply extends_refl].
    intros H. apply bindM_inv in H as [([] & w1 & Hclick & H)|(e & Hclick & _)].
    + eapply extends_trans; eapply act_extends; eassumption.
    + eapply act_extends; eassumption.
Qed.

Lemma verify_cleared_extends w r w' :
  verify_cleared react w = (r, w') -> extends w w'.
Proof.
  unfold verify_cleared. intros H.
  apply bindM_inv in H as [([] & w1 & Hwait & H)|(e & Hwait & _)];
    [|eapply act_extends; eassumption].
  apply act_extends in Hwait. eapply extends_trans; [exact Hwait|].
  unfold bindM, ask in H. destruct (String.eqb _ READY);
    injection H as _ <-; apply extends_refl.
Qed.

(** The first thing [clear_temp_sources] does to the page, if it does
    anything, is a click on a visible button of the page whose text holds
    the Chinese word for delete, "Delete" or "Remove"; failing such a
    button, a press of Escape, in which case it does not report success.
    No other element is ever clicked first, and no Playwright error leaves
    the function. *)
Theorem clear_temp_sources_first_action (w : World) (r : result bool) (w' : World) :
  clear_temp_sources react w = (r, w') ->
  r <> Raise Error /\
  exists t, trace w' = trace w ++ t /\
    (t = [] \/
     (exists rest, t = Press "Escape" :: rest /\ r <> Ok true) \/
     (exists buttons btn text rest,
        query_selector_all (page w) "button" = Ok buttons /\
        In btn buttons /\ is_visible btn = Ok true /\
        inner_text btn = Ok text /\
        existsb (fun word => contains word (strip text)) delete_words = true /\
        t = Click (el_id btn) :: rest)).
Proof.
  unfold clear_temp_sources, catch_Exception. intros H.
  destruct (clear_temp_sources_try react w) as [r0 w0] eqn:Htry.
  assert (Hr : r <> Raise Error /\ w' = w0 /\ (r = Ok true -> r0 = Ok true)).
  { destruct r0 as [b|[|]]; injection H as <- <-; repeat split; congruence. }
  destruct Hr as (Hr & -> & Htrue). split; [exact Hr|]. clear H.
  unfold clear_temp_sources_try in Htry.
  unfold bindM at 1, ask at 1 in Htry.
  destruct (String.eqb (detect_search_state (page w)) READY);
    [injection Htry as _ <-; exists []; rewrite app_nil_r; auto|].
  destruct (negb (String.eqb (detect_search_state (page w)) PENDING_RESULTS));
    [injection Htry as _ <-; exists []; rewrite app_nil_r; auto|].
  unfold bindM at 1, ask at 1 in Htry.
  destruct (query_selector_all (page w) "button") as [buttons|e] eqn:Hbuttons;
    [|injection Htry as _ <-; exists []; rewrite app_nil_r; auto].
  destruct (find_delete_button buttons) as [btn|] eqn:Hfind.
  - apply find_delete_button_spec in Hfind as (Hin & Hv & text & Ht & Hw).
    assert (Hrest : exists rest, trace w0 = trace w ++ Click (el_id btn) :: rest).
    { apply bindM_inv in Htry as [([] & w1 & Hclick & Htry)|(e & Hclick & _)].
      - pose proof (act_trace _ _ _ _ Hclick) as Htr1.
        assert (Hext : extends w1 w0).
        { apply bindM_inv in Htry as [([] & w2 & Hwait & Htry)|(e & Hwait & _)];
            [|eapply act_extends; eassumption].
          eapply extends_trans; [eapply act_extends; eassumption|].
          apply bindM_inv in Htry as [(? & w3 & Hconfirm & Htry)|(e & Hconfirm & _)];
            [|eapply confirm_dialog_extends; eassumption].
          eapply extends_trans; [eapply confirm_dialog_extends; eassumption|].
          eapply verify_cleared_extends; eassumption. }
        destruct Hext as [t Ht']. exists t.
        rewrite Ht', Htr1, <- app_assoc. reflexivity.
      - exists []. apply act_trace in Hclick. exact Hclick. }
    destruct Hrest as [rest Hrest]. exists (Click (el_id btn) :: rest).
    split; [exact Hrest|]. right. right.
    exists buttons, btn, text, rest. auto 10.
  - assert (Hrest : r0 <> Ok true /\
                    exists rest, trace w0 = trace w ++ Press "Escape" :: rest).
    { apply bindM_inv in Htry as [([] & w1 & Hpress & Htry)|(e & Hpress & ->)].
      - pose proof (act_trace _ _ _ _ Hpress) as Htr1.
        apply bindM_inv in Htry as [([] & w2 & Hwait & Htry)|(e & Hwait & ->)].
        + injection Htry as <- <-. split; [discriminate|].
          exists [Wait 500]. apply act_trace in Hwait.
          rewrite Hwait, Htr1, <- app_assoc. reflexivity.
        + split; [discriminate|]. exists [Wait 500]. apply act_trace in Hwait.
          rewrite Hwait, Htr1, <- app_assoc. reflexivity.
      - split; [discriminate|]. exists []. apply act_trace in Hpress. exact Hpress. }
    destruct Hrest as (Hr0 & rest & Hrest). exists (Press "Escape" :: rest).
    split; [exact Hrest|]. right. left. exists rest. split; [reflexivity|].
    intros Hrt. apply Hr0, Htrue, Hrt.
Qed.

End Actions.

Lemma save_response_as_note_clicks_once_witness :
  Forall (miss page_ready) save_selectors /\
  save_response_as_note unresponsive {| page := page_ready; trace := [] |}
    = (Ok false, {| page := page_ready; trace := [] |}).
Proof.
  assert (H : Forall (miss page_ready) save_selectors)
    by (repeat constructor; eexists; split; reflexivity).
  split; [exact H|].
  exact (proj1 (proj2 (save_response_as_note_clicks_once unresponsive
                         {| page := page_ready; trace := [] |})) H).
Defined.

Lemma click_view_results_clicks_once_witness :
  click_view_results unresponsive {| page := page_pending; trace := [] |}
    = (Ok true, {| page := page_pending;
                   trace := [Wait 5000; Click 7; Wait 2000] |}) /\
  exists w1 before sel after e,
    ((any_visible page_pending completion_selectors = Ok true /\
      w1 = {| page := page_pending; trace := [] |}) \/
     (any_visible page_pending completion_selectors = Ok false /\
      act unresponsive (Wait 5000) {| page := page_pending; trace := [] |}
        = (Ok tt, w1))) /\
    view_btn_selectors = before ++ sel :: after /\
    Forall (miss (page w1)) before /\
    hit (page w1) sel e /\
    [Wait 5000; Click 7; Wait 2000] = trace w1 ++ [Click (el_id e); Wait 2000].
Proof.
  assert (H : click_view_results unresponsive {| page := page_pending; trace := [] |}
              = (Ok true, {| page := page_pending;
                             trace := [Wait 5000; Click 7; Wait 2000] |}))
    by reflexivity.
  split; [exact H|].
  exact (click_view_results_clicks_once unresponsive _ _ H).
Defined.

Lemma clear_temp_sources_first_action_witness :
  clear_temp_sources discard_on_click {| page := page_with_results; trace := [] |}
    = (Ok true, {| page := page_ready; trace := [Click 9; Wait 1000; Wait 1000] |}) /\
  Ok true <> @Raise bool Error.
Proof.
  assert (H : clear_temp_sources discard_on_click
                {| page := page_with_results; trace := [] |}
              = (Ok true, {| page := page_ready;
                             trace := [Click 9; Wait 1000; Wait 1000] |}))
    by reflexivity.
  split; [exact H|].
  exact (proj1 (clear_temp_sources_first_action discard_on_click _ _ _ H)).
Defined.

End SearchActions.

(** ** Menus and search results *)

Module Menus.

Import Page Search SearchActions.

Definition mode_btn_selectors : list string :=
  [("button:has-text(" ++ quoted "search_spark" ++ ")")%string;
   ("button:has(span:text(" ++ quoted "search_spark" ++ "))")%string;
   ("[aria-label*=" ++ quoted "研究模式" ++ "]")%string;
   ("[aria-label*=" ++ quoted "research mode" ++ "]")%string].

(** [f'text="{option_text}"'] *)
Definition text_selector (option_text : string) : string :=
  ("text=" ++ quoted option_text)%string.

(** [type_map.get(source_type.lower(), type_map["web"])], as a function of
    the lowered source type. *)
Definition type_options (source_type_lower : pystr) : list string :=
  if pystr_eqb source_type_lower (lit "web") then ["网页"; "Web"; "web"]%string
  else if pystr_eqb source_type_lower (lit "drive")
  then ["Google 云端硬盘"; "云端硬盘"; "Drive"; "Google Drive"]%string
  else if pystr_eqb source_type_lower (lit "youtube") then ["YouTube"; "youtube"]%string
  else if pystr_eqb source_type_lower (lit "link") then ["链接"; "Link"; "link"]%string
  else ["网页"; "Web"; "web"]%string.

(** [mode_map.get(mode.lower(), mode_map["fast"])] *)
Definition mode_options (mode_lower : pystr) : list string :=
  if pystr_eqb mode_lower (lit "fast") then ["Fast Research"; "快速研究"; "Fast"]%string
  else if pystr_eqb mode_lower (lit "deep")
  then ["Deep Research"; "深度研究"; "Deep"]%string
  else ["Fast Research"; "快速研究"; "Fast"]%string.

Definition import_selectors : list string :=
  [("button:has-text(" ++ quoted "添加" ++ ")")%string;
   ("button:has-text(" ++ quoted "Add" ++ ")")%string;
   ("button:has-text(" ++ quoted "导入" ++ ")")%string;
   ("button:has-text(" ++ quoted "Import" ++ ")")%string;
   ("[aria-label*=" ++ quoted "添加" ++ "]")%string;
   ("[aria-label*=" ++ quoted "Add" ++ "]")%string].

(** The button selectors of [import_temp_source]. *)
Definition temp_import_selectors : list string :=
  [("button:has-text(" ++ quoted "Add" ++ ")")%string;
   ("button:has-text(" ++ quoted "添加" ++ ")")%string;
   ("button:has-text(" ++ quoted "Import" ++ ")")%string;
   ("button:has-text(" ++ quoted "导入" ++ ")")%string;
   ("[aria-label*=" ++ quoted "Add" ++ "]")%string].

Definition remove_selectors : list string :=
  [("button:has-text(" ++ quoted "删除" ++ ")")%string;
   ("button:has-text(" ++ quoted "Remove" ++ ")")%string;
   ("button:has-text(" ++ quoted "移除" ++ ")")%string;
   ("button:has-text(" ++ quoted "Delete" ++ ")")%string;
   ("[aria-label*=" ++ quoted "删除" ++ "]")%string;
   ("[aria-label*=" ++ quoted "Remove" ++ "]")%string].

Section Commands.

Variable react : Action -> Page -> result unit * Page.

(** The body shared by [select_source_type] and [select_research_mode]:
    find the menu button with the selector loop, click it, wait a second,
    click the first option that shows and wait half a second; with no
    option showing, press Escape. *)
Definition select_from_menu (btn_selectors options : list string) : M bool :=
  let! btn := ask (fun p => probe_chain p btn_selectors None) in
  match btn with
  | None => ret false
  | Some b =>
      let! _ := act react (Click (el_id b)) in
      let! _ := act react (Wait 1000) in
      let! chosen := click_first_visible react (map text_selector options) 500 in
      if chosen then ret true
      else
        let! _ := act react (Press "Escape") in
        ret false
  end.

Definition select_source_type (source_type_lower : pystr) : M bool :=
  catch_Exception
    (select_from_menu type_btn_selectors (type_options source_type_lower)) false.

Definition select_research_mode (mode_lower : pystr) : M bool :=
  catch_Exception
    (select_from_menu mode_btn_selectors (mode_options mode_lower)) false.

(** The body shared by [import_search_result], [remove_search_result] and
    [import_temp_source].  [exact] and [fuzzy] are the two selectors built
    from the title: [f'text="{title[:50]}"'] and [f'text=/{title[:30]}/']
    ([f'text="{source_name}"'] and [f'text=/{source_name[:30]}/'] in
    [import_temp_source]). *)
Definition click_result_then (exact fuzzy : string) (ms1 : N)
    (selectors : list string) (ms : N) : M bool :=
  let! result_el := ask (fun p => query_selector p exact) in
  let! result_el :=
    match result_el with
    | Some el => ret (Some el)
    | None => ask (fun p => query_selector p fuzzy)
    end in
  match result_el with
  | None => ret false
  | Some el =>
      let! _ := act react (Click (el_id el)) in
      let! _ := act react (Wait ms1) in
      click_first_visible react selectors ms
  end.

Definition import_search_result (exact fuzzy : string) : M bool :=
  catch_Exception (click_result_then exact fuzzy 500 import_selectors 2000) false.

Definition remove_search_result (exact fuzzy : string) : M bool :=
  catch_Exception (click_result_then exact fuzzy 500 remove_selectors 1000) false.

Definition import_temp_source (exact fuzzy : string) : M bool :=
  catch_Exception (click_result_then exact fuzzy 1000 temp_import_selectors 2000) false.

(** *** Properties *)

(** The world once [first] has been clicked and [ms] milliseconds have
    passed, both calls returning. *)
Definition after_click (first : Element) (ms : N) (w w1 : World) : Prop :=
  exists w0, act react (Click (el_id first)) w = (Ok tt, w0) /\
             act react (Wait ms) w0 = (Ok tt, w1).

Lemma after_click_trace first ms w w1 :
  after_click first ms w w1 -> trace w1 = trace w ++ [Click (el_id first); Wait ms].
Proof.
  intros (w0 & Hc & Hw). apply act_trace in Hc, Hw.
  rewrite Hw, Hc, <- app_assoc. reflexivity.
Qed.

(** What a command that clicks [first] and then one of [selectors] does:
    the second click is on the visible first match of the first selector
    that has one on the page as it is [ms1] milliseconds after the first
    click. *)
Definition two_clicks (first : Element) (ms1 : N) (selectors : list string)
    (ms2 : N) (w w' : World) : Prop :=
  exists w1 before sel after e,
    after_click first ms1 w w1 /\
    selectors = before ++ sel :: after /\
    Forall (miss (page w1)) before /\
    hit (page w1) sel e /\
    trace w' = trace w ++ [Click (el_id first); Wait ms1; Click (el_id e); Wait ms2].

Lemma catch_Exception_true (m : M bool) w w' :
  catch_Exception m false w = (Ok true, w') -> m w = (Ok true, w').
Proof.
  unfold catch_Exception. destruct (m w) as [[b|[|]] w1]; try discriminate.
  intros H. exact H.
Qed.

Lemma catch_Exception_no_Error {A} (m : M A) handler w w' :
  catch_Exception m handler w <> (Raise Error, w').
Proof.
  unfold catch_Exception. destruct (m w) as [[b|[|]] w1]; discriminate.
Qed.

Lemma then_click_first_visible first ms1 selectors ms2 w w' :
  (let! _ := act react (Click (el_id first)) in
   let! _ := act react (Wait ms1) in
   click_first_visible react selectors ms2) w = (Ok true, w') ->
  two_clicks first ms1 selectors ms2 w w'.
Proof.
  intros H.
  apply bindM_inv in H as [([] & w1 & Hclick & H)|(e & _ & [=])].
  apply bindM_inv in H as [([] & w2 & Hwait & H)|(e & _ & [=])].
  apply click_first_visible_true in H
    as (before & sel & after & e & Hsel & Hmiss & Hhit & Htr).
  assert (Hafter : after_click first ms1 w w2) by (exists w1; split; assumption).
  exists w2, before, sel, after, e.
  split; [exact Hafter|]. split; [exact Hsel|]. split; [exact Hmiss|].
  split; [exact Hhit|].
  rewrite Htr, (after_click_trace _ _ _ _ Hafter), <- app_assoc. reflexivity.
Qed.

Lemma select_from_menu_true btn_selectors options w w' :
  select_from_menu btn_selectors options w = (Ok true, w') ->
  exists btn,
    probe_chain (page w) btn_selectors None = Ok (Some btn) /\
    two_clicks btn 1000 (map text_selector options) 500 w w'.
Proof.
  unfold select_from_menu. intros H.
  apply bindM_inv in H as [(btn & w0 & Hask & H)|(e & _ & [=])].
  unfold ask in Hask. injection Hask as Hbtn <-.
  destruct btn as [b|]; [|discriminate].
  exists b. split; [exact Hbtn|].
  apply then_click_first_visible.
  apply bindM_inv in H as [([] & w1 & Hclick & H)|(e & _ & [=])].
  apply bindM_inv in H as [([] & w2 & Hwait & H)|(e & _ & [=])].
  apply bindM_inv in H as [(chosen & w3 & Hchoose & H)|(e & _ & [=])].
  destruct chosen.
  - injection H as <-. unfold bindM at 1. rewrite Hclick.
    unfold bindM at 1. rewrite Hwait. exact Hchoose.
  - apply bindM_inv in H as [([] & w4 & _ & [=])|(e & _ & [=])].
Qed.

Lemma select_from_menu_no_button btn_selectors options w :
  probe_chain (page w) btn_selectors None = Ok None ->
  select_from_menu btn_selectors options w = (Ok false, w).
Proof.
  intros H. unfold select_from_menu, bindM, ask. rewrite H. reflexivity.
Qed.

Lemma select_from_menu_no_option btn_selectors options w btn w1 r w' :
  probe_chain (page w) btn_selectors None = Ok (Some btn) ->
  after_click btn 1000 w w1 ->
  Forall (miss (page w1)) (map text_selector options) ->
  catch_Exception (select_from_menu btn_selectors options) false w = (r, w') ->
  r <> Ok true /\
  trace w' = trace w ++ [Click (el_id btn); Wait 1000; Press "Escape"].
Proof.
  intros Hbtn Hafter Hmiss.
  pose proof (after_click_trace _ _ _ _ Hafter) as Htr1.
  destruct Hafter as (w0 & Hclick & Hwait).
  unfold catch_Exception, select_from_menu, bindM at 1, ask. rewrite Hbtn.
  unfold bindM at 1. rewrite Hclick. unfold bindM at 1. rewrite Hwait.
  unfold bindM at 1. rewrite (click_first_visible_no_hit _ _ _ _ Hmiss).
  unfold bindM, ret.
  destruct (act react (Press "Escape") w1) as [[[]|[|]] w2] eqn:Hpress;
    pose proof (act_trace _ _ _ _ _ Hpress) as Htr2;
    intros [= <- <-]; (split; [discriminate|]);
    rewrite Htr2, Htr1, <- app_assoc; reflexivity.
Qed.

(** What [select_source_type] and [select_research_mode] do, for the menu
    button selectors and the option texts of each. *)
Definition chooses_from_menu (command : M bool) (btn_selectors options : list string)
    : Prop :=
  forall w : World,
    (forall w', command w = (Ok true, w') ->
       exists btn,
         probe_chain (page w) btn_selectors None = Ok (Some btn) /\
         two_clicks btn 1000 (map text_selector options) 500 w w') /\
    (probe_chain (page w) btn_selectors None = Ok None ->
       command w = (Ok false, w)) /\
    (forall btn w1 r w',
       probe_chain (page w) btn_selectors None = Ok (Some btn) ->
       after_click btn 1000 w w1 ->
       Forall (miss (page w1)) (map text_selector options) ->
       command w = (r, w') ->
       r <> Ok true /\
       trace w' = trace w ++ [Click (el_id btn); Wait 1000; Press "Escape"]) /\
    (forall w', command w <> (Raise Error, w')).

Lemma select_from_menu_chooses btn_selectors options :
  chooses_from_menu (catch_Exception (select_from_menu btn_selectors options) false)
    btn_selectors options.
Proof.
  intros w. split; [|split; [|split]].
  - intros w' H. apply select_from_menu_true, catch_Exception_true, H.
  - intros H. unfold catch_Exception.
    rewrite (select_from_menu_no_button _ _ _ H). reflexivity.
  - intros btn w1 r w'. apply select_from_menu_no_option.
  - intros w'. apply catch_Exception_no_Error.
Qed.

(** [select_source_type] and [select_research_mode] return [True] only
    after two clicks: on the element the selector loop ends with, and, one
    second later, on the first option of the requested kind that shows on
    the page the first click leaves, followed by a wait of half a second.
    When the selector loop ends with no element they return [False] and
    leave the page alone; when no option shows after the first click they
    press Escape and do not return [True].  No Playwright error leaves
    them. *)
Theorem menu_commands_click_a_visible_option (source_type_lower mode_lower : pystr) :
  chooses_from_menu (select_source_type source_type_lower)
    type_btn_selectors (type_options source_type_lower) /\
  chooses_from_menu (select_research_mode mode_lower)
    mode_btn_selectors (mode_options mode_lower).
Proof. split; apply select_from_menu_chooses. Qed.

(** What [import_search_result], [remove_search_result] and
    [import_temp_source] do, for the button selectors and the waits of
    each. *)
Definition acts_on_result (command : M bool) (exact fuzzy : string) (ms1 : N)
    (selectors : list string) (ms : N) : Prop :=
  forall w : World,
    (forall w', command w = (Ok true, w') ->
       exists result_el,
         (query_selector (page w) exact = Ok (Some result_el) \/
          query_selector (page w) exact = Ok None /\
          query_selector (page w) fuzzy = Ok (Some result_el)) /\
         two_clicks result_el ms1 selectors ms w w') /\
    (query_selector (page w) exact = Ok None ->
     query_selector (page w) fuzzy = Ok None ->
     command w = (Ok false, w)) /\
    (forall w', command w <> (Raise Error, w')).

Lemma click_result_then_acts exact fuzzy ms1 selectors ms :
  acts_on_result
    (catch_Exception (click_result_then exact fuzzy ms1 selectors ms) false)
    exact fuzzy ms1 selectors ms.
Proof.
  intros w. split; [|split].
  - intros w' H. apply catch_Exception_true in H. unfold click_result_then in H.
    apply bindM_inv in H as [(el1 & w0 & Hask & H)|(e & _ & [=])].
    unfold ask in Hask. injection Hask as Hexact <-.
    apply bindM_inv in H as [(el2 & w0 & Hask & H)|(e & _ & [=])].
    destruct el2 as [el|]; [|discriminate].
    exists el. destruct el1 as [el1|].
    + injection Hask as <- <-.
      split; [left; exact Hexact|apply then_click_first_visible, H].
    + unfold ask in Hask. injection Hask as Hfuzzy <-.
      split; [right; auto|apply then_click_first_visible, H].
  - intros Hexact Hfuzzy.
    unfold catch_Exception, click_result_then, bindM, ask.
    rewrite Hexact. cbn. rewrite Hfuzzy. reflexivity.
  - intros w'. apply catch_Exception_no_Error.
Qed.

(** [import_search_result], [remove_search_result] and
    [import_temp_source] return [True] only after two clicks: on the first
    match of the exact title selector, or of the pattern selector when the
    exact one matches nothing, whether that element shows or not; and, half
    a second later (a second in [import_temp_source]), on the visible first
    match of the first button selector that has one.  When neither title
    selector matches they return [False] and leave the page alone.  No
    Playwright error leaves them. *)
Theorem result_commands_click_result_then_button (exact fuzzy : string) :
  acts_on_result (import_search_result exact fuzzy)
    exact fuzzy 500 import_selectors 2000 /\
  acts_on_result (remove_search_result exact fuzzy)
    exact fuzzy 500 remove_selectors 1000 /\
  acts_on_result (import_temp_source exact fuzzy)
    exact fuzzy 1000 temp_import_selectors 2000.
Proof. split; [|split]; apply click_result_then_acts. Qed.

End Commands.

Definition mode_button : Element :=
  {| el_id := 30; is_visible := Ok true; inner_text := Ok (lit "search_spark") |}.
Definition deep_option : Element :=
  {| el_id := 31; is_visible := Ok true; inner_text := Ok (lit "Deep Research") |}.

Definition page_menu_closed : Page :=
  {| query_selector_all := fun sel =>
       if String.eqb sel (nth 0 mode_btn_selectors EmptyString)
       then Ok [mode_button] else Ok [] |}.

Definition page_menu_open : Page :=
  {| query_selector_all := fun sel =>
       if String.eqb sel (nth 0 mode_btn_selectors EmptyString) then Ok [mode_button]
       else if String.eqb sel (text_selector "Deep Research") then Ok [deep_option]
       else Ok [] |}.

(** A click on the mode button opens the menu, a click on an option closes
    it. *)
Definition menu_reacts (a : Action) (p : Page) : result unit * Page :=
  match a with
  | Click 30 => (Ok tt, page_menu_open)
  | Click _ => (Ok tt, page_menu_closed)
  | _ => (Ok tt, p)
  end.

Lemma menu_commands_click_a_visible_option_witness :
  select_research_mode menu_reacts (lit "deep")
      {| page := page_menu_closed; trace := [] |}
    = (Ok true, {| page := page_menu_closed;
                   trace := [Click 30; Wait 1000; Click 31; Wait 500] |}) /\
  exists btn,
    probe_chain page_menu_closed mode_btn_selectors None = Ok (Some btn) /\
    two_clicks menu_reacts btn 1000 (map text_selector (mode_options (lit "deep"))) 500
      {| page := page_menu_closed; trace := [] |}
      {| page := page_menu_closed;
         trace := [Click 30; Wait 1000; Click 31; Wait 500] |}.
Proof.
  assert (H : select_research_mode menu_reacts (lit "deep")
                {| page := page_menu_closed; trace := [] |}
              = (Ok true, {| page := page_menu_closed;
                             trace := [Click 30; Wait 1000; Click 31; Wait 500] |}))
    by reflexivity.
  split; [exact H|].
  exact (proj1 (proj2 (menu_commands_click_a_visible_option menu_reacts
                         (lit "web") (lit "deep")) _) _ H).
Defined.

Definition result_item : Element :=
  {| el_id := 40; is_visible := Ok false; inner_text := Ok (lit "A survey") |}.
Definition add_button : Element :=
  {| el_id := 41; is_visible := Ok true; inner_text := Ok (lit "Add") |}.

(** A result list whose item only matches the pattern selector. *)
Definition page_results (sel : string) : result (list Element) :=
  if String.eqb sel "text=/A survey/" then Ok [result_item]
  else if String.eqb sel (nth 1 import_selectors EmptyString) then Ok [add_button]
  else Ok [].

Lemma result_commands_click_result_then_button_witness :
  let exact := text_selector "A survey" in
  let w := {| page := {| query_selector_all := page_results |}; trace := [] |} in
  let w' := {| page := {| query_selector_all := page_results |};
               trace := [Click 40; Wait 500; Click 41; Wait 2000] |} in
  import_search_result unresponsive exact "text=/A survey/" w = (Ok true, w') /\
  exists result_el,
    (query_selector (page w) exact = Ok (Some result_el) \/
     query_selector (page w) exact = Ok None /\
     query_selector (page w) "text=/A survey/" = Ok (Some result_el)) /\
    two_clicks unresponsive result_el 500 import_selectors 2000 w w'.
Proof.
  intros exact w w'.
  assert (H : import_search_result unresponsive exact "text=/A survey/" w
              = (Ok true, w')) by reflexivity.
  split; [exact H|].
  exact (proj1 (proj1 (result_commands_click_result_then_button unresponsive
                         exact "text=/A survey/") w) w' H).
Defined.

End Menus.

(** ** What the chat functions return *)

Module ChatFacts.

Import Page Chat.

(** [msg] shows [text]: its inner text can be read and, stripped, is
    [text], which is longer than 30 characters and does not hold "Getting
    the context". *)
Definition shows (msg : Element) (text : pystr) : Prop :=
  exists raw, inner_text msg = Ok raw /\ text = strip raw /\
    (30 < List.length text)%nat /\ contains Getting_the_context text = false.

Definition shows_nothing (msg : Element) : Prop := forall text, ~ shows msg text.

Lemma longer_than_length n text :
  longer_than n text = true -> (n < List.length text)%nat.
Proof.
  destruct text as [|c text]; cbn [longer_than]; [discriminate|].
  intros H. apply Nat.ltb_lt in H. exact H.
Qed.

Lemma length_longer_than n text :
  (n < List.length text)%nat -> longer_than n text = true.
Proof.
  destruct text as [|c text]; cbn [longer_than List.length]; [lia|].
  intros H. apply Nat.ltb_lt. exact H.
Qed.

Lemma first_valid_text_spec msgs :
  match first_valid_text msgs with
  | Some text =>
      exists skipped msg rest,
        msgs = skipped ++ msg :: rest /\ Forall shows_nothing skipped /\ shows msg text
  | None => Forall shows_nothing msgs
  end.
Proof.
  induction msgs as [|msg rest IH]; cbn [first_valid_text]; [constructor|].
  assert (Hskip : shows_nothing msg ->
    match first_valid_text rest with
    | Some text =>
        exists skipped msg0 rest0,
          msg :: rest = skipped ++ msg0 :: rest0 /\
          Forall shows_nothing skipped /\ shows msg0 text
    | None => Forall shows_nothing (msg :: rest)
    end).
  { intros Hnothing. destruct (first_valid_text rest) as [text|].
    - destruct IH as (skipped & msg0 & rest0 & -> & Hskipped & Hshows).
      exists (msg :: skipped), msg0, rest0.
      split; [reflexivity|]. split; [constructor; assumption|exact Hshows].
    - constructor; assumption. }
  destruct (inner_text msg) as [raw|e] eqn:Hraw.
  - destruct (longer_than 30 (strip raw) && negb (contains Getting_the_context (strip raw)))
      eqn:Hvalid.
    + apply andb_true_iff in Hvalid as [Hlong Hmarker].
      apply negb_true_iff in Hmarker. apply longer_than_length in Hlong.
      exists [], msg, rest. split; [reflexivity|]. split; [constructor|].
      exists raw. auto.
    + apply Hskip. intros text (raw' & Hraw' & -> & Hlong & Hmarker).
      rewrite Hraw in Hraw'. injection Hraw' as <-.
      apply length_longer_than in Hlong. rewrite Hlong, Hmarker in Hvalid.
      discriminate.
  - apply Hskip. intros text (raw' & Hraw' & _). rewrite Hraw in Hraw'. discriminate.
Qed.

(** The selectors passed over: each was answered, by messages none of which
    shows anything. *)
Definition nothing_shown (page : Page) (sel : string) : Prop :=
  exists msgs, query_selector_all page sel = Ok msgs /\ Forall shows_nothing msgs.

Lemma latest_response_scan_spec page selectors text :
  latest_response_scan page selectors = Ok text ->
  (text = [] /\ Forall (nothing_shown page) selectors) \/
  (exists earlier sel later older msg newer,
     selectors = earlier ++ sel :: later /\
     Forall (nothing_shown page) earlier /\
     query_selector_all page sel = Ok (older ++ msg :: newer) /\
     shows msg text /\ Forall shows_nothing newer).
Proof.
  induction selectors as [|sel rest IH]; cbn [latest_response_scan].
  - intros [= <-]. left. split; [reflexivity|constructor].
  - destruct (query_selector_all page sel) as [msgs|e] eqn:Hq; cbn [bind];
      [|discriminate].
    pose proof (first_valid_text_spec (rev msgs)) as Hspec.
    destruct (first_valid_text (rev msgs)) as [found|].
    + intros [= <-]. right.
      destruct Hspec as (skipped & msg & others & Hrev & Hskipped & Hshows).
      exists [], sel, rest, (rev others), msg, (rev skipped).
      split; [reflexivity|]. split; [constructor|].
      split; [|split; [exact Hshows|]].
      * rewrite Hq. f_equal. rewrite <- (rev_involutive msgs), Hrev, rev_app_distr.
        cbn [rev]. rewrite <- app_assoc. reflexivity.
      * apply Forall_rev. exact Hskipped.
    + intros H.
      assert (Hsel : nothing_shown page sel).
      { exists msgs. split; [exact Hq|].
        rewrite <- (rev_involutive msgs). apply Forall_rev. exact Hspec. }
      destruct (IH H) as [[-> Hall]|
        (earlier & s & later & older & msg & newer & -> & Hearlier & Hrest)].
      * left. split; [reflexivity|constructor; assumption].
      * right. exists (sel :: earlier), s, later, older, msg, newer.
        split; [reflexivity|]. split; [constructor; assumption|exact Hrest].
Qed.

Lemma first_valid_text_none msgs :
  Forall shows_nothing msgs -> first_valid_text msgs = None.
Proof.
  intros Hnone. pose proof (first_valid_text_spec msgs) as Hspec.
  destruct (first_valid_text msgs) as [text|]; [|reflexivity].
  destruct Hspec as (skipped & msg & rest & -> & _ & Hshows).
  apply Forall_app in Hnone as [_ Hnone].
  apply Forall_cons_iff in Hnone as [Hnone _]. destruct (Hnone _ Hshows).
Qed.

Lemma first_valid_text_found skipped msg rest text :
  Forall shows_nothing skipped -> shows msg text ->
  first_valid_text (skipped ++ msg :: rest) = Some text.
Proof.
  intros Hskipped (raw & Hraw & -> & Hlong & Hmarker).
  induction Hskipped as [|m skipped Hm _ IH]; cbn [app first_valid_text].
  - rewrite Hraw. rewrite (length_longer_than _ _ Hlong), Hmarker. reflexivity.
  - destruct (inner_text m) as [raw'|e] eqn:Hraw'; [|exact IH].
    destruct (longer_than 30 (strip raw')
              && negb (contains Getting_the_context (strip raw'))) eqn:Hvalid;
      [|exact IH].
    apply andb_true_iff in Hvalid as [Hl Hc]. apply negb_true_iff in Hc.
    apply longer_than_length in Hl.
    destruct (Hm (strip raw')). exists raw'. auto.
Qed.

Lemma latest_response_scan_found page earlier sel later older msg newer text :
  Forall (nothing_shown page) earlier ->
  query_selector_all page sel = Ok (older ++ msg :: newer) ->
  shows msg text -> Forall shows_nothing newer ->
  latest_response_scan page (earlier ++ sel :: later) = Ok text.
Proof.
  intros Hearlier Hq Hshows Hnewer.
  induction Hearlier as [|s earlier (msgs & Hs & Hnone) _ IH];
    cbn [app latest_response_scan].
  - rewrite Hq. cbn [bind]. rewrite rev_app_distr. cbn [rev].
    rewrite <- app_assoc. cbn [app].
    rewrite (first_valid_text_found (rev newer) msg (rev older) text);
      [reflexivity|apply Forall_rev; exact Hnewer|exact Hshows].
  - rewrite Hs. cbn [bind].
    rewrite (first_valid_text_none (rev msgs)) by (apply Forall_rev; exact Hnone).
    exact IH.
Qed.

Lemma latest_response_scan_raises page earlier sel later e :
  Forall (nothing_shown page) earlier ->
  query_selector_all page sel = Raise e ->
  latest_response_scan page (earlier ++ sel :: later) = Raise e.
Proof.
  intros Hearlier Hq.
  induction Hearlier as [|s earlier (msgs & Hs & Hnone) _ IH];
    cbn [app latest_response_scan].
  - rewrite Hq. reflexivity.
  - rewrite Hs. cbn [bind].
    rewrite (first_valid_text_none (rev msgs)) by (apply Forall_rev; exact Hnone).
    exact IH.
Qed.

(** What [_get_latest_response_text] returns, in every case.  The response
    selectors are queried in order.  When the first selector whose query
    raises or whose messages show a valid text is one with such a message,
    the text of the newest such message is returned: its inner text,
    stripped, longer than 30 characters and without "Getting the context".
    When it is one whose query raises, the empty string is returned, later
    selectors not being tried.  When every selector is answered and no
    message shows a valid text, the empty string is returned.  Conversely a
    text that is returned and is not empty is such a newest message's, and
    no Playwright error leaves the function. *)
Theorem latest_response_text_is_newest_valid (page : Page) :
  (forall earlier sel later older msg newer text,
     response_selectors = earlier ++ sel :: later ->
     Forall (nothing_shown page) earlier ->
     query_selector_all page sel = Ok (older ++ msg :: newer) ->
     shows msg text -> Forall shows_nothing newer ->
     _get_latest_response_text page = Ok text) /\
  (forall earlier sel later e,
     response_selectors = earlier ++ sel :: later ->
     Forall (nothing_shown page) earlier ->
     query_selector_all page sel = Raise e ->
     _get_latest_response_text page
     = match e with Error => Ok [] | Interrupt => Raise Interrupt end) /\
  (Forall (nothing_shown page) response_selectors ->
     _get_latest_response_text page = Ok []) /\
  (forall text, _get_latest_response_text page = Ok text ->
     text = [] \/
     exists earlier sel later older msg newer,
       response_selectors = earlier ++ sel :: later /\
       Forall (nothing_shown page) earlier /\
       query_selector_all page sel = Ok (older ++ msg :: newer) /\
       shows msg text /\ Forall shows_nothing newer) /\
  _get_latest_response_text page <> Raise Error.
Proof.
  unfold _get_latest_response_text, except_Exception.
  split; [|split; [|split; [|split]]].
  - intros earlier sel later older msg newer text -> Hearlier Hq Hshows Hnewer.
    rewrite (latest_response_scan_found _ _ _ _ _ _ _ _ Hearlier Hq Hshows Hnewer).
    reflexivity.
  - intros earlier sel later e -> Hearlier Hq.
    rewrite (latest_response_scan_raises _ _ _ _ _ Hearlier Hq).
    destruct e; reflexivity.
  - intros Hall.
    destruct (latest_response_scan page response_selectors) as [t|[|]] eqn:Hscan;
      try reflexivity.
    + apply latest_response_scan_spec in Hscan
        as [[-> _]|(earlier & sel & later & older & msg & newer & Hsel & _ & Hq & Hshows & _)];
        [reflexivity|].
      rewrite Hsel in Hall. apply Forall_app in Hall as [_ Hall].
      apply Forall_cons_iff in Hall as [(msgs & Hq' & Hnone) _].
      rewrite Hq in Hq'. injection Hq' as <-.
      apply Forall_app in Hnone as [_ Hnone].
      apply Forall_cons_iff in Hnone as [Hnone _]. destruct (Hnone _ Hshows).
    + exfalso. clear -Hall Hscan. revert Hscan.
      induction Hall as [|sel rest (msgs & Hq & Hnone) _ IH];
        cbn [latest_response_scan]; [discriminate|].
      rewrite Hq. cbn [bind].
      pose proof (first_valid_text_spec (rev msgs)) as Hspec.
      destruct (first_valid_text (rev msgs)) as [found|]; [discriminate|exact IH].
  - intros text H.
    destruct (latest_response_scan page response_selectors) as [t|[|]] eqn:Hscan;
      try discriminate.
    + injection H as ->. apply latest_response_scan_spec in Hscan as [[-> _]|Hfound];
        [left; reflexivity|right; exact Hfound].
    + injection H as <-. left. reflexivity.
  - destruct (latest_response_scan page response_selectors) as [t|[|]]; discriminate.
Qed.

Definition older_answer : Element :=
  {| el_id := 22; is_visible := Ok true; inner_text := Ok answer_A |}.
Definition newer_answer : Element :=
  {| el_id := 23; is_visible := Ok true;
     inner_text := Ok (lit "  " ++ answer_F ++ lit "  ") |}.
Definition status_line : Element :=
  {| el_id := 24; is_visible := Ok true; inner_text := Ok (lit " Getting the context ") |}.

(** The first response selector matches nothing; the second matches two
    answers and, after them, a status line. *)
Definition page_two_answers : Page :=
  {| query_selector_all := fun sel =>
       if String.eqb sel (nth 1 response_selectors EmptyString)
       then Ok [older_answer; newer_answer; status_line]
       else Ok [] |}.

Lemma latest_response_text_is_newest_valid_witness :
  nothing_shown page_two_answers (nth 0 response_selectors EmptyString) /\
  shows newer_answer answer_F /\
  shows_nothing status_line /\
  _get_latest_response_text page_two_answers = Ok answer_F.
Proof.
  assert (H1 : nothing_shown page_two_answers (nth 0 response_selectors EmptyString))
    by (exists []; split; [reflexivity|constructor]).
  assert (H2 : shows newer_answer answer_F).
  { exists (lit "  " ++ answer_F ++ lit "  ").
    split; [reflexivity|]. split; [vm_compute; reflexivity|].
    split; [vm_compute; lia|vm_compute; reflexivity]. }
  assert (H3 : shows_nothing status_line).
  { intros text (raw & Hraw & -> & Hlong & _). injection Hraw as <-.
    vm_compute in Hlong. lia. }
  split; [exact H1|]. split; [exact H2|]. split; [exact H3|].
  apply (proj1 (latest_response_text_is_newest_valid page_two_answers)
           [nth 0 response_selectors EmptyString]
           (nth 1 response_selectors EmptyString)
           (skipn 2 response_selectors)
           [older_answer] newer_answer [status_line] answer_F).
  - reflexivity.
  - constructor; [exact H1|constructor].
  - reflexivity.
  - exact H2.
  - constructor; [exact H3|constructor].
Defined.

(** *** The polling loop on any page *)

Lemma update_count_step o st :
  (stable_count (fst (update o st)) <= S (stable_count st))%nat.
Proof.
  rewrite update_counted. pose proof (counted_bound o st).
  destruct (completion_test o st); [exact H|].
  destruct (in_progress o); cbn [fst stable_count]; lia.
Qed.

Lemma update_done o st :
  (stable_count st <= 2)%nat -> snd (update o st) = true ->
  stable_count st = 2%nat /\
  stable_count (fst (update o st)) = 3%nat /\
  in_progress o = false /\
  longer_than 50 (current_text o) = true /\
  last_text (fst (update o st)) = current_text o.
Proof.
  intros Hbound. rewrite (update_breaks_iff o st Hbound).
  destruct (condition_a o st) eqn:Hc; cbn [fst snd]; [intros _|discriminate].
  unfold condition_a in Hc.
  apply andb_true_iff in Hc as [Hc Hcount].
  apply andb_true_iff in Hc as [Hc Hloading].
  apply andb_true_iff in Hc as [Hlong Hstop].
  apply Nat.leb_le in Hcount. pose proof (counted_bound o st).
  apply negb_true_iff in Hstop, Hloading.
  split; [lia|]. split; [lia|].
  split; [unfold in_progress; rewrite Hstop, Hloading; reflexivity|].
  split; [exact Hlong|]. apply last_text_counted. exact Hlong.
Qed.

Lemma update_not_done o st :
  (stable_count st <= 2)%nat -> snd (update o st) = false ->
  (stable_count (fst (update o st)) <= 2)%nat.
Proof.
  intros Hbound Hdone. apply update_keeps_bound; [exact Hbound|].
  rewrite (update_breaks_iff o st Hbound) in Hdone.
  destruct (condition_a o st); [discriminate|reflexivity].
Qed.

(** From the initial state the first read never counts: the text read is
    remembered, at most. *)
Lemma update_initial o st :
  last_text st = [] -> stable_count st = 0%nat ->
  snd (update o st) = false /\ stable_count (fst (update o st)) = 0%nat.
Proof.
  intros Hlast Hcount. rewrite update_counted. unfold completion_test.
  assert (Hc : stable_count (counted o st) = 0%nat).
  { unfold counted. destruct (longer_than 50 (current_text o)) eqn:Hlong;
      [|exact Hcount].
    destruct (pystr_eqb (current_text o) (last_text st)) eqn:Heq; [|reflexivity].
    apply pystr_eqb_eq in Heq. rewrite Hlast in Heq. rewrite Heq in Hlong.
    discriminate. }
  rewrite Hc. cbn [Nat.leb STABLE_THRESHOLD]. rewrite andb_false_r, andb_false_r.
  cbn [orb]. destruct (in_progress o); cbn [fst snd stable_count]; auto.
Qed.

(** What the loop has established when it ends, started in a state whose
    counter is at most 2. *)
Definition loop_post (page_at : N -> Page) (n : nat) (now : N) (count : nat)
    (e : loop_end) : Prop :=
  match e with
  | Completed now' st' =>
      (now + 1000 * N.of_nat (3 - count) <= now' <= now + 1000 * N.of_nat n)%N /\
      stable_count st' = 3%nat /\
      longer_than 50 (last_text st') = true /\
      exists o, observe (page_at now') = Ok o /\
                in_progress o = false /\ current_text o = last_text st'
  | Exhausted now' st' =>
      now' = (now + 1000 * N.of_nat n)%N /\ (stable_count st' <= 2)%nat
  end.

Lemma wait_for_completion_post page_at n now st e :
  (stable_count st <= 2)%nat ->
  wait_for_completion page_at n now st = Ok e ->
  loop_post page_at n now (stable_count st) e.
Proof.
  revert now st. induction n as [|n IH]; intros now st Hbound;
    cbn [wait_for_completion].
  - intros [= <-]. cbn [loop_post]. split; [lia|exact Hbound].
  - destruct (observe (page_at (now + 1000)%N)) as [o|err] eqn:Hobs; cbn [bind];
      [|discriminate].
    destruct (update o st) as [st' done] eqn:Hupd.
    pose proof (update_count_step o st) as Hstep. rewrite Hupd in Hstep.
    cbn [fst] in Hstep.
    destruct done.
    + intros [= <-]. cbn [loop_post].
      destruct (update_done o st Hbound) as (H2 & H3 & Hquiet & Hlong & Hlast);
        [rewrite Hupd; reflexivity|].
      rewrite Hupd in H3, Hlast. cbn [fst] in H3, Hlast.
      split; [lia|]. split; [exact H3|]. split; [rewrite Hlast; exact Hlong|].
      exists o. auto.
    + intros Hrest.
      assert (Hbound' : (stable_count st' <= 2)%nat).
      { pose proof (update_not_done o st Hbound) as H. rewrite Hupd in H.
        apply H. reflexivity. }
      specialize (IH _ _ Hbound' Hrest).
      destruct e as [now' st''|now' st'']; cbn [loop_post] in IH |- *.
      * destruct IH as (Htime & Hrest'). split; [lia|exact Hrest'].
      * destruct IH as (-> & Hrest'). split; [lia|exact Hrest'].
Qed.

(** [smart_chat]'s polling loop never declares the answer complete before
    its fourth read: a completion comes between 4 and [max_wait] seconds
    after the loop began, with the counter at exactly 3, on a read that
    shows no stop button and no loading indicator and gives a text longer
    than 50 characters, which is the text remembered.  A loop that runs out
    has waited [max_wait] seconds and ends with the counter at 2 or less. *)
Theorem completion_needs_four_reads (page_at : N -> Page) (max_wait : nat)
    (e : loop_end) :
  wait_for_completion page_at max_wait 0 initial_state = Ok e ->
  match e with
  | Completed now st =>
      (4000 <= now <= 1000 * N.of_nat max_wait)%N /\
      stable_count st = 3%nat /\
      longer_than 50 (last_text st) = true /\
      exists o, observe (page_at now) = Ok o /\
                in_progress o = false /\ current_text o = last_text st
  | Exhausted now st =>
      now = (1000 * N.of_nat max_wait)%N /\ (stable_count st <= 2)%nat
  end.
Proof.
  destruct max_wait as [|n]; cbn [wait_for_completion].
  - intros [= <-]. split; [reflexivity|cbn; lia].
  - destruct (observe (page_at (0 + 1000)%N)) as [o|err] eqn:Hobs; cbn [bind];
      [|discriminate].
    destruct (update_initial o initial_state eq_refl eq_refl) as [Hdone Hzero].
    destruct (update o initial_state) as [st' done]. cbn [fst snd] in Hdone, Hzero.
    subst done. intros Hrest.
    apply wait_for_completion_post in Hrest; [|lia].
    rewrite Hzero in Hrest.
    destruct e as [now st|now st]; cbn [loop_post] in Hrest.
    + destruct Hrest as (Htime & Hrest). split; [lia|exact Hrest].
    + destruct Hrest as (-> & Hrest). split; [lia|exact Hrest].
Qed.

Lemma completion_needs_four_reads_witness :
  wait_for_completion steady 480 0 initial_state
    = Ok (Completed 4000 {| last_text := answer_A; stable_count := 3 |}) /\
  (4000 <= 4000 <= 1000 * N.of_nat 480)%N.
Proof.
  assert (H : wait_for_completion steady 480 0 initial_state
              = Ok (Completed 4000 {| last_text := answer_A; stable_count := 3 |}))
    by (vm_compute; reflexivity).
  split; [exact H|].
  exact (proj1 (completion_needs_four_reads steady 480 _ H)).
Defined.

(** *** How far ahead a chat looks *)

Lemma wait_for_completion_ext page_at page_at' n now st :
  (forall t, (now < t <= now + 1000 * N.of_nat n)%N -> page_at t = page_at' t) ->
  wait_for_completion page_at n now st = wait_for_completion page_at' n now st.
Proof.
  revert now st. induction n as [|n IH]; intros now st Hsame;
    cbn [wait_for_completion]; [reflexivity|].
  rewrite <- (Hsame (now + 1000)%N) by lia.
  destruct (observe (page_at (now + 1000)%N)) as [o|err]; cbn [bind]; [|reflexivity].
  destruct (update o st) as [st' [|]]; [reflexivity|].
  apply IH. intros t Ht. apply Hsame. lia.
Qed.

Lemma end_time_bound page_at n now st e :
  wait_for_completion page_at n now st = Ok e ->
  (end_time e <= now + 1000 * N.of_nat n)%N.
Proof.
  revert now st. induction n as [|n IH]; intros now st; cbn [wait_for_completion].
  - intros [= <-]. cbn [end_time]. lia.
  - destruct (observe (page_at (now + 1000)%N)) as [o|err]; cbn [bind]; [|discriminate].
    destruct (update o st) as [st' [|]].
    + intros [= <-]. cbn [end_time]. lia.
    + intros H. apply IH in H. lia.
Qed.

Lemma read_final_response_ext page_at page_at' now :
  (forall t, (now < t <= now + 10000)%N -> page_at t = page_at' t) ->
  read_final_response page_at now = read_final_response page_at' now.
Proof.
  intros Hsame. unfold read_final_response.
  rewrite <- (Hsame (now + 3000)%N) by lia.
  destruct (_get_latest_response_text (page_at (now + 3000)%N)) as [a|err];
    cbn [bind]; [|reflexivity].
  rewrite <- (Hsame (now + 3000 + 2000)%N) by lia.
  destruct (_get_latest_response_text (page_at (now + 3000 + 2000)%N)) as [b|err];
    cbn [bind]; [|reflexivity].
  destruct (pystr_eqb a b).
  - rewrite <- (Hsame (now + 3000 + 2000)%N) by lia. reflexivity.
  - rewrite <- (Hsame (now + 3000 + 2000 + 5000)%N) by lia. reflexivity.
Qed.

(** From the start of the polling loop on, [smart_chat] looks at the page
    for at most [max_wait] + 10 seconds of waiting: two runs on pages that
    agree up to then return the same. *)
Theorem smart_chat_looks_no_further (page_at page_at' : N -> Page) (max_wait : Z) :
  (forall t, (t <= 1000 * Z.to_N max_wait + 10000)%N -> page_at t = page_at' t) ->
  smart_chat_from_phase2 page_at max_wait = smart_chat_from_phase2 page_at' max_wait.
Proof.
  intros Hsame. unfold smart_chat_from_phase2.
  assert (Hn : N.of_nat (Z.to_nat max_wait) = Z.to_N max_wait) by lia.
  rewrite <- (wait_for_completion_ext page_at page_at')
    by (intros t Ht; apply Hsame; lia).
  destruct (wait_for_completion page_at (Z.to_nat max_wait) 0 initial_state)
    as [e|err] eqn:Hwait; cbn [bind]; [|reflexivity].
  apply end_time_bound in Hwait.
  rewrite (read_final_response_ext page_at page_at')
    by (intros t Ht; apply Hsame; lia).
  reflexivity.
Qed.

Definition steady_then_gone (t : N) : Page :=
  if (t <=? 12000)%N then chat_page false answer_A else chat_page false [].

Lemma smart_chat_looks_no_further_witness :
  smart_chat_from_phase2 steady 2 = smart_chat_from_phase2 steady_then_gone 2.
Proof.
  apply smart_chat_looks_no_further. intros t Ht.
  unfold steady, steady_then_gone.
  destruct (t <=? 12000)%N eqn:Hle; [reflexivity|].
  apply N.leb_gt in Hle. cbn in Ht. lia.
Defined.

(** *** The fallback extraction *)

Lemma response_lines_spec lines capture :
  Forall (fun kept => kept <> [] /\
            exists line, In line lines /\ kept = strip line /\
                         contains Getting_the_context line = false)
         (response_lines lines capture) /\
  (capture = false ->
   Forall (fun line => contains Getting_the_context line = false) lines ->
   response_lines lines capture = []).
Proof.
  revert capture. induction lines as [|line rest IH]; intros capture;
    cbn [response_lines]; [split; [constructor|reflexivity]|].
  assert (Hweaken : forall c,
    Forall (fun kept => kept <> [] /\
              exists l, In l (line :: rest) /\ kept = strip l /\
                        contains Getting_the_context l = false)
           (response_lines rest c)).
  { intros c. eapply Forall_impl; [exact (proj1 (IH c))|].
    intros kept (Hne & l & Hin & Hrest). split; [exact Hne|].
    exists l. split; [right; exact Hin|exact Hrest]. }
  destruct (contains Getting_the_context line) eqn:Hmarker.
  - split; [apply Hweaken|]. intros _ Hall.
    apply Forall_cons_iff in Hall as [Hline _]. congruence.
  - destruct capture; cbn [andb].
    + destruct (strip line) as [|c s] eqn:Hstrip; cbn [negb].
      * split; [apply Hweaken|discriminate].
      * split; [|discriminate]. constructor; [|apply Hweaken].
        split; [discriminate|]. exists line.
        split; [left; reflexivity|]. split; [symmetry; exact Hstrip|exact Hmarker].
    + split; [apply Hweaken|]. intros _ Hall.
      apply Forall_cons_iff in Hall as [_ Hall]. apply (proj2 (IH false) eq_refl Hall).
Qed.

(** The fallback extraction returns something only when a line of the chat
    area's text holds "Getting the context"; what it returns is made of
    lines of that text, stripped, not blank and without the marker, joined
    by newlines. *)
Theorem fallback_needs_marker (page : Page) (text : pystr) :
  fallback_response page = Ok text -> text <> [] ->
  exists area full_text,
    query_selector page chat_area_selector = Ok (Some area) /\
    inner_text area = Ok full_text /\
    (exists line, In line (split_lines full_text) /\
                  contains Getting_the_context line = true) /\
    exists kept,
      text = join_lines kept /\
      Forall (fun k => k <> [] /\
                exists line, In line (split_lines full_text) /\ k = strip line /\
                             contains Getting_the_context line = false) kept.
Proof.
  unfold fallback_response.
  destruct (query_selector page chat_area_selector) as [[area|]|err] eqn:Hq;
    cbn [bind]; [|intros [= <-] H; destruct (H eq_refl)|discriminate].
  destruct (inner_text area) as [full_text|err] eqn:Hfull; cbn [bind]; [|discriminate].
  intros H Hne. exists area, full_text. split; [reflexivity|]. split; [exact Hfull|].
  destruct (response_lines_spec (split_lines full_text) false) as [Hkept Hnone].
  destruct (response_lines (split_lines full_text) false) as [|k kept] eqn:Hlines;
    [injection H as <-; destruct (Hne eq_refl)|].
  injection H as <-. split; [|exists (k :: kept); split; [reflexivity|exact Hkept]].
  destruct (existsb (contains Getting_the_context) (split_lines full_text)) eqn:Hex.
  - apply existsb_exists in Hex as (line & Hin & Hline). exists line. auto.
  - exfalso. assert (Hall : Forall (fun line => contains Getting_the_context line = false)
                              (split_lines full_text)).
    { apply List.Forall_forall. intros line Hin.
      destruct (contains Getting_the_context line) eqn:Hline; [|reflexivity].
      assert (existsb (contains Getting_the_context) (split_lines full_text) = true)
        by (apply existsb_exists; exists line; auto).
      congruence. }
    specialize (Hnone eq_refl Hall). discriminate.
Qed.

Definition chat_area : Element :=
  {| el_id := 50; is_visible := Ok true;
     inner_text := Ok (lit "Getting the context" ++ NEWLINE :: lit "  Yes.  ") |}.

Definition page_with_chat_area : Page :=
  {| query_selector_all := fun sel =>
       if String.eqb sel chat_area_selector then Ok [chat_area] else Ok [] |}.

Lemma fallback_needs_marker_witness :
  fallback_response page_with_chat_area = Ok (lit "Yes.") /\
  exists area full_text,
    query_selector page_with_chat_area chat_area_selector = Ok (Some area) /\
    inner_text area = Ok full_text /\
    (exists line, In line (split_lines full_text) /\
                  contains Getting_the_context line = true) /\
    exists kept,
      lit "Yes." = join_lines kept /\
      Forall (fun k => k <> [] /\
                exists line, In line (split_lines full_text) /\ k = strip line /\
                             contains Getting_the_context line = false) kept.
Proof.
  assert (H : fallback_response page_with_chat_area = Ok (lit "Yes."))
    by (vm_compute; reflexivity).
  split; [exact H|].
  apply (fallback_needs_marker page_with_chat_area (lit "Yes.") H). discriminate.
Defined.

End ChatFacts.

(** ** What profile initialisation leaves alone *)

Module ProfileFacts.

Import Profile.

(** *** Paths as [pathlib] builds them

    [MULTI_INSTANCE_PROFILES_DIR / instance_name / browser_type] takes each
    operand apart at its slashes.  A path of the file system model is a
    list of names below the home directory; a name that is a plain
    component adds itself to the list, as the model has it, and any other
    operand leads somewhere else. *)

(** Where a path leads: below the home directory or from the root. *)
Inductive location :=
| UnderHome (p : path)
| FromRoot (p : path).

(** The pieces of [s] between its slashes. *)
Fixpoint split_slash (s : string) : list string :=
  match s with
  | EmptyString => [EmptyString]
  | String a s' =>
      if Ascii.eqb a "/" then EmptyString :: split_slash s'
      else
        match split_slash s' with
        | piece :: pieces => String a piece :: pieces
        | [] => [String a EmptyString]
        end
  end.

(** The components of an operand: its pieces, the empty ones and the
    single dots left out; a double dot stays. *)
Definition operand_parts (s : string) : list string :=
  List.filter (fun piece => negb (String.eqb piece EmptyString) && negb (String.eqb piece "."))
              (split_slash s).

Definition starts_with_slash (s : string) : bool :=
  match s with
  | String a _ => Ascii.eqb a "/"
  | EmptyString => false
  end.

(** [base / operand] on POSIX paths: an operand that starts with a slash
    starts over from the root. *)
Definition joinpath (base : location) (operand : string) : location :=
  if starts_with_slash operand then FromRoot (operand_parts operand)
  else
    match base with
    | UnderHome p => UnderHome (p ++ operand_parts operand)
    | FromRoot p => FromRoot (p ++ operand_parts operand)
    end.

(** The value of [profile_dir] in [auto_init_instance_profile] and
    [get_instance_profile]. *)
Definition profile_dir_of (instance_name browser_type : string) : location :=
  joinpath (joinpath (UnderHome MULTI_INSTANCE_PROFILES_DIR) instance_name)
           browser_type.

(** A name that is one component of a path whatever the platform: not
    empty, not a dot or a double dot, and free of slashes, backslashes,
    colons and NUL. *)
Definition plain_char (a : ascii) : bool :=
  negb (Ascii.eqb a "/") && negb (Ascii.eqb a "\") && negb (Ascii.eqb a ":")
  && negb (Ascii.eqb a "000").

Definition plain_component (s : string) : bool :=
  negb (String.eqb s EmptyString) && negb (String.eqb s ".") && negb (String.eqb s "..")
  && forallb plain_char (list_ascii_of_string s).

Lemma split_slash_plain s :
  forallb plain_char (list_ascii_of_string s) = true -> split_slash s = [s].
Proof.
  induction s as [|a s IH]; cbn [list_ascii_of_string forallb split_slash];
    [reflexivity|].
  intros H. apply andb_true_iff in H as [Ha Hs]. rewrite (IH Hs).
  unfold plain_char in Ha. destruct (Ascii.eqb a "/"); [discriminate|reflexivity].
Qed.

Lemma joinpath_plain p name :
  plain_component name = true ->
  joinpath (UnderHome p) name = UnderHome (p ++ [name]).
Proof.
  unfold plain_component. intros H.
  apply andb_true_iff in H as [H Hchars].
  apply andb_true_iff in H as [H _].
  apply andb_true_iff in H as [Hempty Hdot].
  unfold joinpath, operand_parts. rewrite (split_slash_plain name Hchars).
  cbn [List.filter]. rewrite Hempty, Hdot. cbn [andb].
  destruct name as [|a name]; [discriminate|].
  cbn [starts_with_slash list_ascii_of_string forallb] in *.
  apply andb_true_iff in Hchars as [Ha _]. unfold plain_char in Ha.
  destruct (Ascii.eqb a "/"); [discriminate|reflexivity].
Qed.

(** For plain names the profile directory is the path of the model. *)
Lemma profile_dir_of_plain instance_name browser_type :
  plain_component instance_name = true -> plain_component browser_type = true ->
  profile_dir_of instance_name browser_type
  = UnderHome (MULTI_INSTANCE_PROFILES_DIR ++ [instance_name; browser_type]).
Proof.
  intros Hi Hb. unfold profile_dir_of.
  rewrite (joinpath_plain _ _ Hi), (joinpath_plain _ _ Hb), <- app_assoc.
  reflexivity.
Qed.

(** Other names lead elsewhere: into a deeper directory, through the
    parent directory, or away from the home directory. *)
Example profile_dir_of_other_names :
  profile_dir_of "a/b" "chrome"
    = UnderHome (MULTI_INSTANCE_PROFILES_DIR ++ ["a"; "b"; "chrome"]%string) /\
  profile_dir_of ".." "chrome"
    = UnderHome (MULTI_INSTANCE_PROFILES_DIR ++ [".."; "chrome"]%string) /\
  profile_dir_of "/tmp/x" "chrome" = FromRoot ["tmp"; "x"; "chrome"]%string /\
  profile_dir_of EmptyString "chrome"
    = UnderHome (MULTI_INSTANCE_PROFILES_DIR ++ ["chrome"]%string).
Proof. repeat split; reflexivity. Qed.

(** [get_instance_profile], for names that are plain components: make the
    profile directory and return its path. *)
Definition get_instance_profile (instance_name browser_type : string) : F path :=
  fun fs =>
    let profile_dir := MULTI_INSTANCE_PROFILES_DIR ++ [instance_name; browser_type] in
    match mkdir_parents fs profile_dir with
    | Ok fs' => (Ok profile_dir, fs')
    | Raise e => (Raise e, fs)
    end.

(** [q] leaves the path [p] at some component: the two share a prefix,
    after which [q] goes on with a name that is not [p]'s. *)
Definition branches_off (p q : path) : Prop :=
  exists shared name rest other q',
    p = shared ++ name :: rest /\ q = shared ++ other :: q' /\ other <> name.

(** Every file of [fs] is in [fs'] with the same content, and every
    directory of [fs] is a directory of [fs']. *)
Definition survives (fs fs' : node) : Prop :=
  forall q,
    (forall data, get fs q = Some (File data) -> get fs' q = Some (File data)) /\
    (is_dir fs q -> is_dir fs' q).

Lemma survives_refl fs : survives fs fs.
Proof. intros q. split; auto. Qed.

Lemma survives_trans fs1 fs2 fs3 :
  survives fs1 fs2 -> survives fs2 fs3 -> survives fs1 fs3.
Proof.
  intros H12 H23 q. destruct (H12 q) as [Hf Hd], (H23 q) as [Hf' Hd']. split; auto.
Qed.

Lemma get_empty_dir c q : get (Dir ∅) (c :: q) = None.
Proof. cbn [get]. rewrite lookup_empty. reflexivity. Qed.

Lemma mkdir_parents_frame fs shared name rest fs' other q :
  mkdir_parents fs (shared ++ name :: rest) = Ok fs' -> other <> name ->
  get fs' (shared ++ other :: q) = get fs (shared ++ other :: q).
Proof.
  revert fs fs'. induction shared as [|a shared IH]; intros fs fs';
    destruct fs as [d|m]; cbn [app mkdir_parents]; try discriminate.
  - destruct (mkdir_parents _ rest) as [child'|e]; cbn [bind]; [|discriminate].
    intros [= <-] Hne. cbn [get]. rewrite lookup_insert_ne by congruence. reflexivity.
  - destruct (mkdir_parents _ (shared ++ name :: rest)) as [child'|e] eqn:Hchild;
      cbn [bind]; [|discriminate].
    intros [= <-] Hne. cbn [get]. rewrite lookup_insert_eq.
    rewrite (IH _ _ Hchild Hne).
    destruct (m !! a) as [n|]; [reflexivity|].
    destruct shared; apply get_empty_dir.
Qed.

Lemma put_in_frame fs shared name rest entry x fs' other q :
  put_in fs (shared ++ name :: rest) entry x = Some fs' -> other <> name ->
  get fs' (shared ++ other :: q) = get fs (shared ++ other :: q).
Proof.
  revert fs fs'. induction shared as [|a shared IH]; intros fs fs';
    destruct fs as [d|m]; cbn [app put_in]; try discriminate.
  - destruct (m !! name) as [child|]; [|discriminate].
    destruct (put_in child rest entry x) as [child'|]; [|discriminate].
    intros [= <-] Hne. cbn [get]. rewrite lookup_insert_ne by congruence. reflexivity.
  - destruct (m !! a) as [child|] eqn:Ha; [|discriminate].
    destruct (put_in child (shared ++ name :: rest) entry x) as [child'|] eqn:Hput;
      [|discriminate].
    intros [= <-] Hne. cbn [get]. rewrite lookup_insert_eq, Ha.
    apply (IH _ _ Hput Hne).
Qed.

Lemma copy_item_frame src dst name fs q :
  branches_off dst q ->
  get (snd (copy_item src dst name fs)) q = get fs q.
Proof.
  intros (shared & nm & rest & other & q' & -> & -> & Hne).
  assert (Htree : forall item,
    get (snd (copytree item (shared ++ nm :: rest) name fs)) (shared ++ other :: q')
    = get fs (shared ++ other :: q')).
  { intros item. unfold copytree.
    destruct (mkdir_parents fs ((shared ++ nm :: rest) ++ [name])) as [fs1|e] eqn:Hmk;
      [|reflexivity].
    rewrite <- app_assoc, <- app_comm_cons in Hmk.
    pose proof (mkdir_parents_frame _ _ _ _ _ _ q' Hmk Hne) as H1.
    destruct (put_in fs1 (shared ++ nm :: rest) name item) as [fs2|] eqn:Hput;
      cbn [snd]; [|exact H1].
    rewrite (put_in_frame _ _ _ _ _ _ _ _ q' Hput Hne). exact H1. }
  assert (Hfile : forall item,
    get (snd (copy2 item (shared ++ nm :: rest) name fs)) (shared ++ other :: q')
    = get fs (shared ++ other :: q')).
  { intros item. unfold copy2.
    destruct (put_in fs (shared ++ nm :: rest) name item) as [fs2|] eqn:Hput;
      cbn [snd]; [|reflexivity].
    apply (put_in_frame _ _ _ _ _ _ _ _ q' Hput Hne). }
  unfold copy_item.
  destruct (get fs (src ++ [name])) as [[data|entries]|];
    destruct (exists_ fs ((shared ++ nm :: rest) ++ [name])); try reflexivity.
  - apply Hfile.
  - apply Htree.
Qed.

Lemma copy_items_frame src dst names fs q :
  branches_off dst q ->
  get (snd (copy_items src dst names fs)) q = get fs q.
Proof.
  intros Hq. revert fs. induction names as [|name rest IH]; intros fs;
    cbn [copy_items]; [reflexivity|].
  pose proof (copy_item_frame src dst name fs q Hq) as H1.
  destruct (copy_item src dst name fs) as [[[]|e] fs1]; cbn [snd] in H1 |- *.
  - rewrite IH. exact H1.
  - exact H1.
Qed.

Lemma copy_source_profile_frame browser_type dst fs q :
  branches_off dst q ->
  get (snd (copy_source_profile browser_type dst fs)) q = get fs q.
Proof.
  intros Hq. unfold copy_source_profile.
  destruct (exists_ fs (source_profile_of browser_type)); [|reflexivity].
  destruct (any_iterdir fs (source_profile_of browser_type)) as [[|]|e];
    try reflexivity.
  destruct (iterdir fs (source_profile_of browser_type)) as [entries|e];
    [|reflexivity].
  apply copy_items_frame. exact Hq.
Qed.

Lemma auto_init_frame instance_name browser_type fs q :
  branches_off (MULTI_INSTANCE_PROFILES_DIR ++ [instance_name; browser_type]) q ->
  get (snd (auto_init_instance_profile instance_name browser_type fs)) q = get fs q.
Proof.
  intros Hq. rewrite auto_init_unfold.
  destruct (absent_or_empty fs _) as [[|]|e]; try reflexivity.
  destruct (mkdir_parents fs _) as [fs1|e] eqn:Hmk; [|reflexivity].
  pose proof (copy_source_profile_frame browser_type _ fs1 q Hq) as H2.
  assert (H1 : get fs1 q = get fs q).
  { destruct Hq as (shared & nm & rest & other & q' & Hp & -> & Hne).
    rewrite Hp in Hmk. apply (mkdir_parents_frame _ _ _ _ _ _ q' Hmk Hne). }
  destruct (copy_source_profile browser_type _ fs1) as [[[]|e] fs2];
    cbn [snd] in H2 |- *; congruence.
Qed.

Lemma branches_off_skill_dir instance_name browser_type other q :
  other <> "profiles"%string ->
  branches_off (MULTI_INSTANCE_PROFILES_DIR ++ [instance_name; browser_type])
    (SKILL_DIR ++ other :: q).
Proof.
  intros Hne. exists SKILL_DIR, "profiles"%string, [instance_name; browser_type], other, q.
  split; [reflexivity|]. split; [reflexivity|exact Hne].
Qed.

Lemma branches_off_instance instance_name browser_type other q :
  other <> instance_name ->
  branches_off (MULTI_INSTANCE_PROFILES_DIR ++ [instance_name; browser_type])
    (MULTI_INSTANCE_PROFILES_DIR ++ other :: q).
Proof.
  intros Hne. exists MULTI_INSTANCE_PROFILES_DIR, instance_name, [browser_type], other, q.
  split; [reflexivity|]. split; [reflexivity|exact Hne].
Qed.

Lemma branches_off_browser instance_name browser_type other q :
  other <> browser_type ->
  branches_off (MULTI_INSTANCE_PROFILES_DIR ++ [instance_name; browser_type])
    (MULTI_INSTANCE_PROFILES_DIR ++ instance_name :: other :: q).
Proof.
  intros Hne.
  exists (MULTI_INSTANCE_PROFILES_DIR ++ [instance_name]), browser_type, [], other, q.
  split; [rewrite <- app_assoc; reflexivity|].
  split; [rewrite <- app_assoc; reflexivity|exact Hne].
Qed.

(** For an instance name and a browser type that are plain path
    components, the profile directory is the one the model writes to, and
    initialising the profile leaves the rest of the file system as it is,
    however the call ends: every path that leaves the profile directory's
    own path is read the same before and after.  In particular the template
    profiles, the profiles of every other instance and the profiles of the
    same instance for other browsers are untouched. *)
Theorem auto_init_touches_one_profile (instance_name browser_type : string)
    (fs : node) :
  plain_component instance_name = true ->
  plain_component browser_type = true ->
  let fs' := snd (auto_init_instance_profile instance_name browser_type fs) in
  let profile_dir := MULTI_INSTANCE_PROFILES_DIR ++ [instance_name; browser_type] in
  profile_dir_of instance_name browser_type = UnderHome profile_dir /\
  (forall q, branches_off profile_dir q -> get fs' q = get fs q) /\
  (forall other q, other <> "profiles"%string ->
     get fs' (SKILL_DIR ++ other :: q) = get fs (SKILL_DIR ++ other :: q)) /\
  (forall other q, other <> instance_name ->
     get fs' (MULTI_INSTANCE_PROFILES_DIR ++ other :: q)
     = get fs (MULTI_INSTANCE_PROFILES_DIR ++ other :: q)) /\
  (forall other q, other <> browser_type ->
     get fs' (MULTI_INSTANCE_PROFILES_DIR ++ instance_name :: other :: q)
     = get fs (MULTI_INSTANCE_PROFILES_DIR ++ instance_name :: other :: q)).
Proof.
  intros Hi Hb. cbv zeta. split; [|split; [|split; [|split]]].
  - apply profile_dir_of_plain; assumption.
  - intros q Hq. apply auto_init_frame, Hq.
  - intros other q Hne. apply auto_init_frame, branches_off_skill_dir, Hne.
  - intros other q Hne. apply auto_init_frame, branches_off_instance, Hne.
  - intros other q Hne. apply auto_init_frame, branches_off_browser, Hne.
Qed.

Lemma auto_init_touches_one_profile_witness :
  let fs' := snd (auto_init_instance_profile "nb_02" "chrome" fs_used) in
  plain_component "nb_02" = true /\
  plain_component "chrome" = true /\
  "nb_01"%string <> "nb_02"%string /\
  get fs' (MULTI_INSTANCE_PROFILES_DIR ++ ["nb_01"; "chrome"; "Cookies"]%string)
    = Some (File [9]%N) /\
  get fs' (MULTI_INSTANCE_PROFILES_DIR ++ ["nb_02"; "chrome"; "Cookies"]%string)
    = Some (File [1; 2]%N).
Proof.
  intros fs'.
  assert (H1 : plain_component "nb_02" = true) by reflexivity.
  assert (H2 : plain_component "chrome" = true) by reflexivity.
  assert (Hne : "nb_01"%string <> "nb_02"%string) by discriminate.
  split; [exact H1|]. split; [exact H2|]. split; [exact Hne|]. split; [|reflexivity].
  exact (proj1 (proj2 (proj2 (proj2
           (auto_init_touches_one_profile "nb_02" "chrome" fs_used H1 H2))))
           "nb_01"%string ["chrome"; "Cookies"]%string Hne).
Defined.

(** *** Nothing is lost *)

Lemma mkdir_parents_survives fs p fs' :
  mkdir_parents fs p = Ok fs' -> survives fs fs'.
Proof.
  revert fs fs'. induction p as [|c p IH]; intros fs fs';
    destruct fs as [d|m]; cbn [mkdir_parents]; try discriminate.
  - intros [= <-]. apply survives_refl.
  - destruct (mkdir_parents _ p) as [child'|e] eqn:Hchild; cbn [bind]; [|discriminate].
    intros [= <-]. specialize (IH _ _ Hchild).
    intros [|a q]; unfold is_dir; cbn [get].
    + split; [discriminate|]. intros _. eauto.
    + destruct (decide (a = c)) as [->|Hne].
      * rewrite lookup_insert_eq.
        destruct (m !! c) as [n|]; [apply (IH q)|].
        split; [discriminate|]. intros (m' & [=]).
      * rewrite lookup_insert_ne by congruence. split; auto.
Qed.

Lemma mkdir_parents_creates fs p fs' :
  mkdir_parents fs p = Ok fs' -> get fs p = None -> get fs' p = Some (Dir ∅).
Proof.
  revert fs fs'. induction p as [|c p IH]; intros fs fs';
    destruct fs as [d|m]; cbn [mkdir_parents get]; try discriminate.
  destruct (mkdir_parents _ p) as [child'|e] eqn:Hchild; cbn [bind]; [|discriminate].
  intros [= <-]. cbn [get]. rewrite lookup_insert_eq.
  destruct (m !! c) as [n|]; [apply (IH _ _ Hchild)|].
  intros _. destruct p as [|c' p].
  - cbn [mkdir_parents] in Hchild. injection Hchild as <-. reflexivity.
  - apply (IH _ _ Hchild). apply get_empty_dir.
Qed.

Lemma put_in_survives fs p name x fs' :
  put_in fs p name x = Some fs' ->
  (get fs (p ++ [name]) = None \/
   get fs (p ++ [name]) = Some (Dir ∅) /\ exists entries, x = Dir entries) ->
  survives fs fs'.
Proof.
  revert fs fs'. induction p as [|a p IH]; intros fs fs';
    destruct fs as [d|m]; cbn [app put_in]; try discriminate.
  - intros [= <-] Hold. cbn [get] in Hold.
    intros [|c q]; unfold is_dir; cbn [get].
    + split; [discriminate|]. intros _. eauto.
    + destruct (decide (c = name)) as [->|Hne].
      * rewrite lookup_insert_eq.
        destruct Hold as [Hold|[Hold (entries & ->)]].
        -- destruct (m !! name); [discriminate|].
           split; [discriminate|]. intros (m' & [=]).
        -- destruct (m !! name) as [n|]; [|discriminate].
           injection Hold as ->. destruct q as [|c' q].
           ++ cbn [get]. split; [discriminate|]. intros _. eauto.
           ++ rewrite get_empty_dir. split; [discriminate|]. intros (m' & [=]).
      * rewrite lookup_insert_ne by congruence. split; auto.
  - destruct (m !! a) as [child|] eqn:Ha; [|discriminate].
    destruct (put_in child p name x) as [child'|] eqn:Hput; [|discriminate].
    intros [= <-] Hold. cbn [get] in Hold. rewrite Ha in Hold.
    specialize (IH _ _ Hput Hold).
    intros [|c q]; unfold is_dir; cbn [get].
    + split; [discriminate|]. intros _. eauto.
    + destruct (decide (c = a)) as [->|Hne].
      * rewrite lookup_insert_eq, Ha. apply (IH q).
      * rewrite lookup_insert_ne by congruence. split; auto.
Qed.

Lemma exists_false fs p : exists_ fs p = false -> get fs p = None.
Proof. unfold exists_. destruct (get fs p); [discriminate|reflexivity]. Qed.

Lemma copy_item_survives src dst name fs :
  survives fs (snd (copy_item src dst name fs)).
Proof.
  unfold copy_item.
  destruct (exists_ fs (dst ++ [name])) eqn:Hex;
    [destruct (get fs (src ++ [name])) as [[data|entries]|]; apply survives_refl|].
  apply exists_false in Hex.
  destruct (get fs (src ++ [name])) as [[data|entries]|]; [| |apply survives_refl].
  - unfold copy2. destruct (put_in fs dst name (File data)) as [fs'|] eqn:Hput;
      cbn [snd]; [|apply survives_refl].
    apply (put_in_survives _ _ _ _ _ Hput). left. exact Hex.
  - unfold copytree.
    destruct (mkdir_parents fs (dst ++ [name])) as [fs1|e] eqn:Hmk;
      [|apply survives_refl].
    pose proof (mkdir_parents_survives _ _ _ Hmk) as H1.
    destruct (put_in fs1 dst name (Dir entries)) as [fs2|] eqn:Hput; cbn [snd];
      [|exact H1].
    apply (survives_trans _ _ _ H1), (put_in_survives _ _ _ _ _ Hput).
    right. split; [apply (mkdir_parents_creates _ _ _ Hmk Hex)|eauto].
Qed.

Lemma copy_items_survives src dst names fs :
  survives fs (snd (copy_items src dst names fs)).
Proof.
  revert fs. induction names as [|name rest IH]; intros fs; cbn [copy_items];
    [apply survives_refl|].
  pose proof (copy_item_survives src dst name fs) as H1.
  destruct (copy_item src dst name fs) as [[[]|e] fs1]; cbn [snd] in H1 |- *.
  - apply (survives_trans _ _ _ H1), IH.
  - exact H1.
Qed.

Lemma copy_source_profile_survives browser_type dst fs :
  survives fs (snd (copy_source_profile browser_type dst fs)).
Proof.
  unfold copy_source_profile.
  destruct (exists_ fs (source_profile_of browser_type)); [|apply survives_refl].
  destruct (any_iterdir fs (source_profile_of browser_type)) as [[|]|e];
    try apply survives_refl.
  destruct (iterdir fs (source_profile_of browser_type)) as [entries|e];
    [|apply survives_refl].
  apply copy_items_survives.
Qed.

(** However it ends, a call of [auto_init_instance_profile] removes and
    alters no file, anywhere: every file is read with the same content
    afterwards, and every directory is still a directory. *)
Theorem auto_init_loses_nothing (instance_name browser_type : string) (fs : node)
    (q : path) :
  let fs' := snd (auto_init_instance_profile instance_name browser_type fs) in
  (forall data, get fs q = Some (File data) -> get fs' q = Some (File data)) /\
  (is_dir fs q -> is_dir fs' q).
Proof.
  cbv zeta. revert q. change (survives fs
    (snd (auto_init_instance_profile instance_name browser_type fs))).
  rewrite auto_init_unfold.
  destruct (absent_or_empty fs _) as [[|]|e]; try apply survives_refl.
  destruct (mkdir_parents fs _) as [fs1|e] eqn:Hmk; [|apply survives_refl].
  pose proof (mkdir_parents_survives _ _ _ Hmk) as H1.
  pose proof (copy_source_profile_survives browser_type
                (MULTI_INSTANCE_PROFILES_DIR ++ [instance_name; browser_type]) fs1) as H2.
  destruct (copy_source_profile browser_type _ fs1) as [[[]|e] fs2];
    cbn [snd] in H2 |- *; apply (survives_trans _ _ _ H1 H2).
Qed.

Lemma auto_init_loses_nothing_witness :
  get fs_fresh (ISOLATED_CHROME_PROFILE ++ ["Default"; "Preferences"]%string)
    = Some (File [3]%N) /\
  get (snd (auto_init_instance_profile "nb_01" "chrome" fs_fresh))
      (ISOLATED_CHROME_PROFILE ++ ["Default"; "Preferences"]%string)
    = Some (File [3]%N).
Proof.
  assert (H : get fs_fresh (ISOLATED_CHROME_PROFILE ++ ["Default"; "Preferences"]%string)
              = Some (File [3]%N)) by reflexivity.
  split; [exact H|].
  exact (proj1 (auto_init_loses_nothing "nb_01" "chrome" fs_fresh _) _ H).
Defined.

(** *** A first use copies the whole template *)

Lemma mkdir_parents_existing fs p m :
  get fs p = Some (Dir m) -> mkdir_parents fs p = Ok fs.
Proof.
  revert fs. induction p as [|c p IH]; intros fs; destruct fs as [d|entries];
    cbn [get mkdir_parents]; try discriminate; [reflexivity|].
  destruct (entries !! c) as [child|] eqn:Hc; [|discriminate].
  intros H. rewrite (IH _ H). cbn [bind]. rewrite insert_id by exact Hc. reflexivity.
Qed.

Lemma mkdir_parents_in_dir fs p cur name :
  get fs p = Some (Dir cur) -> cur !! name = None ->
  exists fs1, mkdir_parents fs (p ++ [name]) = Ok fs1 /\
              get fs1 p = Some (Dir (<[name := Dir ∅]> cur)).
Proof.
  revert fs. induction p as [|c p IH]; intros fs; destruct fs as [d|entries];
    cbn [get app mkdir_parents]; try discriminate.
  - intros [= ->] Hname. rewrite Hname. cbn [mkdir_parents bind]. eauto.
  - destruct (entries !! c) as [child|] eqn:Hc; [|discriminate].
    intros H Hname. destruct (IH _ H Hname) as (child1 & -> & Hget).
    cbn [bind]. eexists. split; [reflexivity|]. cbn [get].
    rewrite lookup_insert_eq. exact Hget.
Qed.

Lemma put_in_in_dir fs p cur name x :
  get fs p = Some (Dir cur) ->
  exists fs', put_in fs p name x = Some fs' /\
              get fs' p = Some (Dir (<[name := x]> cur)).
Proof.
  revert fs. induction p as [|c p IH]; intros fs; destruct fs as [d|entries];
    cbn [get put_in]; try discriminate.
  - intros [= ->]. eauto.
  - destruct (entries !! c) as [child|] eqn:Hc; [|discriminate].
    intros H. destruct (IH _ H) as (child1 & -> & Hget).
    eexists. split; [reflexivity|]. cbn [get]. rewrite lookup_insert_eq. exact Hget.
Qed.

Lemma copy_item_copies src dst name fs m item cur :
  get fs src = Some (Dir m) -> m !! name = Some item ->
  get fs dst = Some (Dir cur) -> cur !! name = None ->
  exists fs', copy_item src dst name fs = (Ok tt, fs') /\
              get fs' dst = Some (Dir (<[name := item]> cur)).
Proof.
  intros Hsrc Hitem Hdst Hfree. unfold copy_item.
  assert (Hget : get fs (src ++ [name]) = Some item)
    by (apply get_child; eauto).
  assert (Hex : exists_ fs (dst ++ [name]) = false).
  { unfold exists_. destruct (get fs (dst ++ [name])) as [n|] eqn:Hn; [|reflexivity].
    apply get_child in Hn as (m' & Hm' & Hn). congruence. }
  rewrite Hget, Hex. destruct item as [data|entries].
  - unfold copy2. destruct (put_in_in_dir fs dst cur name (File data) Hdst)
      as (fs' & -> & Hget'). eauto.
  - unfold copytree.
    destruct (mkdir_parents_in_dir fs dst cur name Hdst Hfree) as (fs1 & -> & Hget1).
    destruct (put_in_in_dir fs1 dst _ name (Dir entries) Hget1) as (fs2 & -> & Hget2).
    exists fs2. split; [reflexivity|]. rewrite Hget2, insert_insert_eq. reflexivity.
Qed.

Lemma copy_items_copies src dst m :
  branches_off dst src ->
  forall names fs cur,
    NoDup names ->
    (forall k, k ∈ names -> is_Some (m !! k)) ->
    (forall k, k ∈ names -> cur !! k = None) ->
    get fs src = Some (Dir m) -> get fs dst = Some (Dir cur) ->
    exists fs' cur',
      copy_items src dst names fs = (Ok tt, fs') /\
      get fs' dst = Some (Dir cur') /\
      forall k, cur' !! k = if decide (k ∈ names) then m !! k else cur !! k.
Proof.
  intros Hoff. induction names as [|name rest IH]; intros fs cur Hnodup Hin Hfree Hsrc Hdst;
    cbn [copy_items].
  - exists fs, cur. split; [reflexivity|]. split; [exact Hdst|].
    intros k. destruct (decide (k ∈ [])) as [Hk|_]; [|reflexivity].
    apply elem_of_nil in Hk. destruct Hk.
  - apply NoDup_cons in Hnodup as [Hfresh Hnodup].
    destruct (Hin name) as [item Hitem]; [left|].
    destruct (copy_item_copies src dst name fs m item cur Hsrc Hitem Hdst)
      as (fs1 & Hcopy & Hdst1); [apply Hfree; left|].
    pose proof (copy_item_frame src dst name fs src Hoff) as Hsrc1.
    rewrite Hcopy in Hsrc1 |- *. cbn [snd] in Hsrc1. rewrite Hsrc in Hsrc1.
    destruct (IH fs1 (<[name := item]> cur) Hnodup) as (fs' & cur' & -> & Hdst' & Hcur');
      [intros k Hk; apply Hin; right; exact Hk| |exact Hsrc1|exact Hdst1|].
    { intros k Hk. rewrite lookup_insert_ne by (intros ->; contradiction).
      apply Hfree. right. exact Hk. }
    exists fs', cur'. split; [reflexivity|]. split; [exact Hdst'|].
    intros k. rewrite Hcur'.
    destruct (decide (k = name)) as [->|Hne].
    + destruct (decide (name ∈ rest)); [contradiction|].
      destruct (decide (name ∈ name :: rest)) as [_|Hn]; [|destruct Hn; left].
      rewrite lookup_insert_eq. symmetry. exact Hitem.
    + rewrite lookup_insert_ne by congruence.
      destruct (decide (k ∈ rest)) as [Hk|Hk];
        destruct (decide (k ∈ name :: rest)) as [Hk'|Hk']; try reflexivity.
      * destruct Hk'. right. exact Hk.
      * apply elem_of_cons in Hk' as [->|Hk']; contradiction.
Qed.

Lemma source_profile_branches_off instance_name browser_type :
  branches_off (MULTI_INSTANCE_PROFILES_DIR ++ [instance_name; browser_type])
    (source_profile_of browser_type).
Proof.
  unfold source_profile_of.
  destruct (String.eqb browser_type "chrome");
    [|destruct (String.eqb browser_type "safari" || String.eqb browser_type "webkit")];
    apply (branches_off_skill_dir instance_name browser_type _ []); discriminate.
Qed.

Lemma absent_or_empty_after_mkdir fs p fs1 :
  absent_or_empty fs p = Ok true -> mkdir_parents fs p = Ok fs1 ->
  get fs1 p = Some (Dir ∅).
Proof.
  unfold absent_or_empty, exists_, any_iterdir, iterdir. intros Habsent Hmk.
  destruct (get fs p) as [[data|m]|] eqn:Hget; cbn [bind] in Habsent;
    [discriminate| |apply (mkdir_parents_creates _ _ _ Hmk Hget)].
  rewrite (mkdir_parents_existing _ _ _ Hget) in Hmk. injection Hmk as <-.
  rewrite Hget. destruct (map_to_list m) eqn:Hlist; [|discriminate].
  apply map_to_list_empty_iff in Hlist. rewrite Hlist. reflexivity.
Qed.

(** A first use in the model, where no copy fails. *)
Lemma first_use_in_model (instance_name browser_type : string) (fs fs1 : node) :
  let profile_dir := MULTI_INSTANCE_PROFILES_DIR ++ [instance_name; browser_type] in
  absent_or_empty fs profile_dir = Ok true ->
  mkdir_parents fs profile_dir = Ok fs1 ->
  match get fs (source_profile_of browser_type) with
  | Some (Dir template) =>
      exists fs',
        auto_init_instance_profile instance_name browser_type fs
          = (Ok profile_dir, fs') /\
        get fs' profile_dir = Some (Dir template)
  | None =>
      auto_init_instance_profile instance_name browser_type fs = (Ok profile_dir, fs1) /\
      get fs1 profile_dir = Some (Dir ∅)
  | Some (File _) =>
      auto_init_instance_profile instance_name browser_type fs = (Raise Error, fs1) /\
      get fs1 profile_dir = Some (Dir ∅)
  end.
Proof.
  cbv zeta. intros Habsent Hmk.
  pose proof (absent_or_empty_after_mkdir _ _ _ Habsent Hmk) as Hdst.
  pose proof (source_profile_branches_off instance_name browser_type) as Hoff.
  assert (Hsrc : get fs1 (source_profile_of browser_type)
                 = get fs (source_profile_of browser_type)).
  { destruct Hoff as (shared & nm & rest & other & q' & Hp & Hq & Hne).
    rewrite Hp in Hmk. rewrite Hq. apply (mkdir_parents_frame _ _ _ _ _ _ q' Hmk Hne). }
  rewrite auto_init_unfold, Habsent, Hmk.
  unfold copy_source_profile, exists_, any_iterdir, iterdir. rewrite Hsrc.
  destruct (get fs (source_profile_of browser_type)) as [[data|m]|] eqn:Htemplate;
    cbn [bind]; [split; [reflexivity|exact Hdst]| |split; [reflexivity|exact Hdst]].
  destruct (map_to_list m) as [|entry entries] eqn:Hlist.
  - apply map_to_list_empty_iff in Hlist. subst m. exists fs1. split; [reflexivity|exact Hdst].
  - rewrite <- Hlist. clear entry entries Hlist.
    assert (Hnames : map fst (map_to_list m) = (map_to_list m).*1) by reflexivity.
    rewrite Hnames.
    destruct (copy_items_copies _ _ m Hoff ((map_to_list m).*1) fs1 ∅)
      as (fs' & cur' & Hcopy & Hdst' & Hcur').
    + apply NoDup_fst_map_to_list.
    + intros k Hk. apply list_elem_of_fmap in Hk as ([k' v] & -> & Hk).
      apply elem_of_map_to_list in Hk. cbn [fst]. eauto.
    + intros k _. apply lookup_empty.
    + congruence.
    + exact Hdst.
    + rewrite Hcopy. exists fs'. split; [reflexivity|]. rewrite Hdst'. do 2 f_equal.
      apply map_eq. intros k. rewrite Hcur'.
      destruct (decide (k ∈ (map_to_list m).*1)) as [_|Hk]; [reflexivity|].
      rewrite lookup_empty. destruct (m !! k) as [v|] eqn:Hv; [|reflexivity].
      destruct Hk. apply list_elem_of_fmap. exists (k, v).
      split; [reflexivity|]. apply elem_of_map_to_list. exact Hv.
Qed.

(** On a first use, that is with the profile directory missing or empty,
    and for an instance name and a browser type that are plain path
    components: when [auto_init_instance_profile] returns, it returns the
    profile path and the profile directory holds exactly the entries of the
    template, each with the template's content, or nothing when there is
    no template.  It does not return when the template path is a file. *)
Theorem first_use_copies_template (instance_name browser_type : string)
    (fs fs' : node) (returned : path) :
  plain_component instance_name = true ->
  plain_component browser_type = true ->
  let profile_dir := MULTI_INSTANCE_PROFILES_DIR ++ [instance_name; browser_type] in
  absent_or_empty fs profile_dir = Ok true ->
  auto_init_instance_profile instance_name browser_type fs = (Ok returned, fs') ->
  profile_dir_of instance_name browser_type = UnderHome profile_dir /\
  returned = profile_dir /\
  match get fs (source_profile_of browser_type) with
  | Some (Dir template) => get fs' profile_dir = Some (Dir template)
  | None => get fs' profile_dir = Some (Dir ∅)
  | Some (File _) => False
  end.
Proof.
  intros Hi Hb. cbv zeta. intros Habsent Hrun.
  split; [apply profile_dir_of_plain; assumption|].
  destruct (mkdir_parents fs (MULTI_INSTANCE_PROFILES_DIR
                                ++ [instance_name; browser_type]))
    as [fs1|e] eqn:Hmk.
  - pose proof (first_use_in_model instance_name browser_type fs fs1 Habsent Hmk)
      as Hmodel.
    destruct (get fs (source_profile_of browser_type)) as [[data|template]|].
    + destruct Hmodel as [Hraise _]. rewrite Hraise in Hrun. discriminate.
    + destruct Hmodel as (fs'' & Hok & Hget). rewrite Hok in Hrun.
      injection Hrun as <- <-. split; [reflexivity|exact Hget].
    + destruct Hmodel as [Hok Hget]. rewrite Hok in Hrun.
      injection Hrun as <- <-. split; [reflexivity|exact Hget].
  - rewrite auto_init_unfold, Habsent, Hmk in Hrun. discriminate.
Qed.

Lemma first_use_copies_template_witness :
  plain_component "nb_01" = true /\
  plain_component "chrome" = true /\
  absent_or_empty fs_fresh nb_01_chrome = Ok true /\
  exists fs',
    auto_init_instance_profile "nb_01" "chrome" fs_fresh = (Ok nb_01_chrome, fs') /\
    get fs' nb_01_chrome = Some template_profile.
Proof.
  assert (H1 : plain_component "nb_01" = true) by reflexivity.
  assert (H2 : plain_component "chrome" = true) by reflexivity.
  assert (Habsent : absent_or_empty fs_fresh nb_01_chrome = Ok true) by reflexivity.
  split; [exact H1|]. split; [exact H2|]. split; [exact Habsent|].
  exists (snd (auto_init_instance_profile "nb_01" "chrome" fs_fresh)).
  assert (Hrun : auto_init_instance_profile "nb_01" "chrome" fs_fresh
                 = (Ok nb_01_chrome,
                    snd (auto_init_instance_profile "nb_01" "chrome" fs_fresh)))
    by (vm_compute; reflexivity).
  split; [exact Hrun|].
  exact (proj2 (proj2 (first_use_copies_template "nb_01" "chrome" fs_fresh _ _
                         H1 H2 Habsent Hrun))).
Defined.

(** *** [get_instance_profile] *)

(** For names that are plain path components, [get_instance_profile]
    makes the profile directory of the model.  When it returns, the profile
    path is a directory and a second call returns the same and changes
    nothing.  It removes and alters no file, touches nothing outside the
    path it makes, and changes nothing when the directory is there
    already.  It returns the path or raises an [OSError]. *)
Theorem get_instance_profile_only_makes_the_directory
    (instance_name browser_type : string) (fs : node) :
  plain_component instance_name = true ->
  plain_component browser_type = true ->
  let profile_dir := MULTI_INSTANCE_PROFILES_DIR ++ [instance_name; browser_type] in
  let r := fst (get_instance_profile instance_name browser_type fs) in
  let fs' := snd (get_instance_profile instance_name browser_type fs) in
  profile_dir_of instance_name browser_type = UnderHome profile_dir /\
  (r = Ok profile_dir ->
     is_dir fs' profile_dir /\
     get_instance_profile instance_name browser_type fs' = (Ok profile_dir, fs')) /\
  survives fs fs' /\
  (forall q, branches_off profile_dir q -> get fs' q = get fs q) /\
  (is_dir fs profile_dir -> r = Ok profile_dir /\ fs' = fs) /\
  (r = Ok profile_dir \/ r = Raise Error).
Proof.
  intros Hi Hb. cbv zeta.
  split; [apply profile_dir_of_plain; assumption|].
  unfold get_instance_profile.
  destruct (mkdir_parents fs _) as [fs1|e] eqn:Hmk; cbn [fst snd].
  - split.
    { intros _. split; [apply (mkdir_parents_is_dir _ _ _ Hmk)|].
      rewrite (mkdir_parents_again _ _ _ Hmk). reflexivity. }
    split; [apply (mkdir_parents_survives _ _ _ Hmk)|].
    split; [|split; [|left; reflexivity]].
    + intros q (shared & nm & rest & other & q' & Hp & -> & Hne).
      rewrite Hp in Hmk. apply (mkdir_parents_frame _ _ _ _ _ _ q' Hmk Hne).
    + intros (m & Hm). rewrite (mkdir_parents_existing _ _ _ Hm) in Hmk.
      injection Hmk as <-. auto.
  - assert (He : e = Error).
    { clear -Hmk. revert Hmk. generalize (MULTI_INSTANCE_PROFILES_DIR
        ++ [instance_name; browser_type]). intros p. revert fs.
      induction p as [|c p IH]; intros fs; destruct fs as [d|m];
        cbn [mkdir_parents]; try congruence.
      destruct (mkdir_parents _ p) as [child'|e'] eqn:Hchild; cbn [bind];
        [discriminate|].
      intros [= <-]. apply (IH _ Hchild). }
    subst e. split; [discriminate|]. split; [apply survives_refl|].
    split; [reflexivity|]. split; [|right; reflexivity].
    intros (m & Hm). rewrite (mkdir_parents_existing _ _ _ Hm) in Hmk. discriminate.
Qed.

Lemma get_instance_profile_only_makes_the_directory_witness :
  plain_component "nb_01" = true /\
  plain_component "chrome" = true /\
  is_dir fs_used nb_01_chrome /\
  get_instance_profile "nb_01" "chrome" fs_used = (Ok nb_01_chrome, fs_used).
Proof.
  assert (H1 : plain_component "nb_01" = true) by reflexivity.
  assert (H2 : plain_component "chrome" = true) by reflexivity.
  assert (Hdir : is_dir fs_used nb_01_chrome) by (eexists; reflexivity).
  split; [exact H1|]. split; [exact H2|]. split; [exact Hdir|].
  destruct (proj1 (proj2 (proj2 (proj2 (proj2
    (get_instance_profile_only_makes_the_directory "nb_01" "chrome" fs_used H1 H2)))))
    Hdir) as [Hr Hfs].
  rewrite (surjective_pairing (get_instance_profile "nb_01" "chrome" fs_used)).
  rewrite Hr, Hfs. reflexivity.
Defined.

End ProfileFacts.

(** ** The wait for a search to finish *)

Module SearchWait.

Import Page Search.

Definition loading_selector : string :=
  ("[class*=" ++ quoted "loading" ++ "], [class*=" ++ quoted "spinner" ++ "]")%string.


Definition results_selector : string := ".shallow-research-title".




(** *** Properties *)






Definition result_title : Element :=
  {| el_id := 60; is_visible := Ok true; inner_text := Ok (lit "A survey of surveys") |}.
Definition spinner : Element :=
  {| el_id := 61; is_visible := Ok true; inner_text := Ok [] |}.

(** A search that shows a spinner for 3 seconds and a first result from 2
    seconds on. *)
Definition searching (t : N) : Page :=
  {| query_selector_all := fun sel =>
       if String.eqb sel loading_selector
       then (if (t <=? 3000)%N then Ok [spinner] else Ok [])
       else if String.eqb sel results_selector
       then (if (2000 <=? t)%N then Ok [result_title] else Ok [])
       else Ok [] |}.


End SearchWait.
